(** * LangGraph: the functional entrypoint and the Kafka orchestrator loop

    A shallow embedding of two source files of the repository:

    - [libs/langgraph/langgraph/func/__init__.py]
      (the [entrypoint] decorator, module [Func]);
    - [libs/scheduler-kafka/langgraph/scheduler/kafka/orchestrator.py]
      (the [KafkaOrchestrator] class, module [Orchestrator]).

    Python dictionaries are [gmap]s, Python sets are [gset]s, and the
    coroutines of the orchestrator are programs of a small monad that
    threads the state of the outside world (broker, checkpoint store),
    may raise, and records every call to a collaborator in a trace. *)

From Stdlib Require Import ZArith List Lia.
From stdpp Require Import base option list gmap sets strings fin_maps pretty.

Open Scope string_scope.
Open Scope list_scope.

(** ** Python values and the constants of [langgraph.constants] *)

Module Py.

(** The values that travel in configurations, inputs and writes. *)
#[local] Unset Elimination Schemes.
Inductive pyval : Type :=
| VNone
| VBool (b : bool)
| VInt (z : Z)
| VStr (s : string)
| VDict (d : list (string * pyval)).
#[local] Set Elimination Schemes.

Definition is_none (v : pyval) : bool :=
  match v with VNone => true | _ => false end.

(** *** [repr] *)

(** A string of the model stands for the Python string of the code
    points, all below 256, of its characters. *)
Definition single_quote : Ascii.ascii := Ascii.ascii_of_nat 39.
Definition double_quote : Ascii.ascii := Ascii.ascii_of_nat 34.
Definition backslash : Ascii.ascii := Ascii.ascii_of_nat 92.

Fixpoint occurs (c : Ascii.ascii) (s : string) : bool :=
  match s with
  | EmptyString => false
  | String c' s' => Ascii.eqb c c' || occurs c s'
  end.

Definition hex_digit (n : nat) : Ascii.ascii :=
  default (Ascii.ascii_of_nat 48) (String.list_ascii_of_string "0123456789abcdef" !! n).

(** The escape of a code point below 256 that is not printable. *)
Definition hex_escape (n : nat) : string :=
  String backslash
    ("x" +:+ String (hex_digit (n / 16)) (String (hex_digit (n mod 16)) "")).

(** [str.isprintable] on a code point below 256: the ASCII characters
    from the space to the tilde, and the Latin-1 characters from 161
    on, the soft hyphen apart. *)
Definition isprintable (n : nat) : bool :=
  (Nat.leb 32 n && Nat.ltb n 127) || (Nat.leb 161 n && negb (Nat.eqb n 173)).

Definition escape (quote : Ascii.ascii) (c : Ascii.ascii) : string :=
  let n := Ascii.nat_of_ascii c in
  if Ascii.eqb c quote || Ascii.eqb c backslash then String backslash (String c "")
  else if Nat.eqb n 9 then String backslash "t"
  else if Nat.eqb n 10 then String backslash "n"
  else if Nat.eqb n 13 then String backslash "r"
  else if isprintable n then String c ""
  else hex_escape n.

Fixpoint escape_all (quote : Ascii.ascii) (s : string) : string :=
  match s with
  | EmptyString => ""
  | String c s' => escape quote c +:+ escape_all quote s'
  end.

(** [repr] of a string: in single quotes, unless the string has a
    single quote and no double quote; the quote in use, the backslash
    and what is not printable are escaped. *)
Definition str_repr (s : string) : string :=
  let quote :=
    if occurs single_quote s && negb (occurs double_quote s)
    then double_quote else single_quote in
  String quote (escape_all quote s) +:+ String quote "".

(** [sep.join(l)]. *)
Fixpoint join (sep : string) (l : list string) : string :=
  match l with
  | [] => ""
  | [s] => s
  | s :: l' => s +:+ sep +:+ join sep l'
  end.

(** [repr] of a value. *)
Fixpoint py_repr (v : pyval) : string :=
  match v with
  | VNone => "None"
  | VBool true => "True"
  | VBool false => "False"
  | VInt z => pretty z
  | VStr s => str_repr s
  | VDict d =>
      "{" +:+ join ", "
        ((fix items (d : list (string * pyval)) : list string :=
            match d with
            | [] => []
            | (k, x) :: d' => (str_repr k +:+ ": " +:+ py_repr x) :: items d'
            end) d) +:+ "}"
  end.

(** [BaseException.__repr__]: the name of the class and the arguments
    the exception was raised with. *)
Definition exception_repr (cls : string) (args : list pyval) : string :=
  cls +:+ "(" +:+ join ", " (map py_repr args) +:+ ")".

End Py.

Module Constants.

(** Modelled from the spec: the constants of [langgraph.constants], a
    module that is not part of the files embedded here.  The spec names
    them (INTERRUPT, SCHEDULED, CONFIG_KEY_DEDUPE_TASKS); only their
    identity as dictionary keys matters below. *)
Definition START : string := "__start__".
Definition END : string := "__end__".
Definition TAG_HIDDEN : string := "langsmith:hidden".
Definition INTERRUPT : string := "__interrupt__".
Definition SCHEDULED : string := "__scheduled__".
Definition CONFIG_KEY_DEDUPE_TASKS : string := "__pregel_dedupe_tasks".

End Constants.

(** ** [func/__init__.py]: the [entrypoint] decorator *)

Module Func.
Import Py Constants.

(** What calling a Python function object gives: a plain function (or
    a coroutine function) hands back its return value, a generator
    function hands back the chunks it yields. *)
Inductive FuncBody : Type :=
| PlainBody (f : pyval -> pyval)
| GeneratorBody (g : pyval -> list pyval)
| AsyncGenBody (g : pyval -> list pyval).

(** [types.FunctionType]: the attributes [entrypoint] reads. *)
Record FunctionType : Type := {
  fn_name : string;            (* func.__name__ *)
  fn_body : FuncBody
}.

Definition isgeneratorfunction (func : FunctionType) : bool :=
  match fn_body func with GeneratorBody _ => true | _ => false end.

Definition isasyncgenfunction (func : FunctionType) : bool :=
  match fn_body func with AsyncGenBody _ => true | _ => false end.

Inductive StreamMode : Type := SM_custom | SM_updates.

(** The result of running a runnable on the node input: the value it
    returns and the chunks it passed to the [StreamWriter]. *)
Record RunOut : Type := {
  ro_return : pyval;
  ro_stream : list pyval
}.

Definition Runnable : Type := pyval -> RunOut.

(** The callables [entrypoint] hands to [get_runnable_for_func]: the
    decorated function itself, or one of the two local wrappers. *)
Inductive Callable : Type :=
| UserFunc (func : FunctionType)
| gen_wrapper (func : FunctionType)
| agen_wrapper (func : FunctionType).

(** Calling such a callable.  The wrappers iterate over [func(...)] and
    pass each chunk to [writer]; they return [None]. *)
Definition call_callable (c : Callable) (x : pyval) : RunOut :=
  match c with
  | UserFunc func =>
      match fn_body func with
      | PlainBody f => {| ro_return := f x; ro_stream := [] |}
      | GeneratorBody _ | AsyncGenBody _ =>
          (* a generator object, never iterated *)
          {| ro_return := VNone; ro_stream := [] |}
      end
  | gen_wrapper func | agen_wrapper func =>
      match fn_body func with
      | GeneratorBody g | AsyncGenBody g =>
          {| ro_return := VNone; ro_stream := g x |}
      | PlainBody _ => {| ro_return := VNone; ro_stream := [] |}
      end
  end.

(** Modelled from the spec: [langgraph.pregel.call.get_runnable_for_func]
    is not part of the files embedded here (the spec leaves the
    function-to-graph layer to its collaborators); the runnable it
    builds invokes the callable on the node input. *)
Definition get_runnable_for_func (c : Callable) : Runnable :=
  call_callable c.

(** Modelled from the spec: the classes of [langgraph.pregel.write] are
    not part of the files embedded here, and the spec leaves this layer
    to its collaborators.  An entry names a channel and a value; the
    value defaults to the pass-through marker, which stands for
    whatever the node returned, and [skip_none] defaults to false. *)
Inductive WriteValue : Type :=
| PASSTHROUGH
| Fixed (v : pyval).

Record ChannelWriteEntry : Type := {
  cwe_channel : string;
  cwe_value : WriteValue;
  cwe_skip_none : bool
}.

(** The call [ChannelWriteEntry(END)]: every other field at its default. *)
Definition mkChannelWriteEntry (channel : string) : ChannelWriteEntry :=
  {| cwe_channel := channel; cwe_value := PASSTHROUGH; cwe_skip_none := false |}.

Record ChannelWrite : Type := {
  cw_writes : list ChannelWriteEntry;
  cw_tags : list string
}.

Record PregelNode : Type := {
  pn_bound : Runnable;
  pn_triggers : list string;
  pn_channels : list string;
  pn_writers : list ChannelWrite
}.

Inductive Channel : Type :=
| EphemeralValue
| LastValue (key : string).

(** Handles of the pluggable stores. *)
Definition BaseCheckpointSaver : Type := string.
Definition BaseStore : Type := string.

(** The keyword arguments [entrypoint] passes to [Pregel(...)], and the
    two interrupt lists the orchestrator reads, empty by default. *)
Record Pregel : Type := {
  nodes : gmap string PregelNode;
  channels : gmap string Channel;
  input_channels : string;
  output_channels : string;
  stream_channels : string;
  stream_mode : StreamMode;
  checkpointer : option BaseCheckpointSaver;
  store : option BaseStore;
  interrupt_after_nodes : list string;
  interrupt_before_nodes : list string
}.

(** Modelled from the spec: what a [ChannelWrite] does is not part of
    the files embedded here either; when the node's runnable returned
    [v], a pass-through entry writes [v] itself to its channel, any
    other entry its own value. *)
Definition entry_write (v : pyval) (e : ChannelWriteEntry) : list (string * pyval) :=
  let w := match cwe_value e with PASSTHROUGH => v | Fixed c => c end in
  if cwe_skip_none e && is_none w then [] else [(cwe_channel e, w)].

Definition do_write (v : pyval) (w : ChannelWrite) : list (string * pyval) :=
  concat (map (entry_write v) (cw_writes w)).

(** Running a node on its input: the bound runnable, then each writer
    on what it returned. *)
Definition node_writes (n : PregelNode) (x : pyval) : list (string * pyval) :=
  concat (map (do_write (ro_return (pn_bound n x))) (pn_writers n)).

(** [entrypoint(checkpointer=..., store=...)(func)]. *)
Definition entrypoint (checkpointer0 : option BaseCheckpointSaver)
    (store0 : option BaseStore) (func : FunctionType) : Pregel :=
  let '(bound, stream_mode0) :=
    if isgeneratorfunction func then
      (get_runnable_for_func (gen_wrapper func), SM_custom)
    else if isasyncgenfunction func then
      (get_runnable_for_func (agen_wrapper func), SM_custom)
    else
      (get_runnable_for_func (UserFunc func), SM_updates) in
  {| nodes :=
       {[ fn_name func :=
            {| pn_bound := bound;
               pn_triggers := [START];
               pn_channels := [START];
               pn_writers :=
                 [ {| cw_writes := [mkChannelWriteEntry END];
                      cw_tags := [TAG_HIDDEN] |} ] |} ]};
     channels := <[START := EphemeralValue]> {[ END := LastValue END ]};
     input_channels := START;
     output_channels := END;
     stream_channels := END;
     stream_mode := stream_mode0;
     checkpointer := checkpointer0;
     store := store0;
     interrupt_after_nodes := [];
     interrupt_before_nodes := [] |}.

(** The value a plain function returns on an input. *)
Definition return_value (func : FunctionType) (x : pyval) : pyval :=
  match fn_body func with
  | PlainBody f => f x
  | _ => VNone
  end.

(** A plain function: [def double(x): return x + x]. *)
Definition double : FunctionType :=
  {| fn_name := "double";
     fn_body := PlainBody (fun x => match x with
                                    | VInt z => VInt (z + z)
                                    | _ => VNone
                                    end) |}.

End Func.

(** ** [scheduler/kafka/orchestrator.py]: the orchestrator loop *)

Module Orchestrator.
Import Py Constants.
Export Func.

(** *** Exceptions and results *)

(** The exceptions the module names, and any other subclass of
    [Exception], with the name of its class and the arguments it was
    raised with (none, a message, or several values); the class keeps
    the [__repr__] of [BaseException].  Cancellation, which is a
    [BaseException], is outside the model. *)
Inductive exn : Type :=
| ConsumerStoppedError
| StopAsyncIteration
| KeyError (key : string)
| Error (cls : string) (args : list pyval).

(** [repr(exc)]. *)
Definition repr (exc : exn) : string :=
  match exc with
  | ConsumerStoppedError => exception_repr "ConsumerStoppedError" []
  | StopAsyncIteration => exception_repr "StopAsyncIteration" []
  | KeyError key => exception_repr "KeyError" [VStr key]
  | Error cls args => exception_repr cls args
  end.

Inductive result (A : Type) : Type :=
| Ok (a : A)
| Raise (exc : exn).
Arguments Ok {A} a.
Arguments Raise {A} exc.

(** *** The messages of [langgraph.scheduler.kafka.types] *)

Definition bytes : Type := string.

(** A [RunnableConfig]: its [configurable] entry, when it has one, and
    its other entries. *)
Record RunnableConfig : Type := {
  configurable : option (gmap string pyval);
  other_keys : gmap string pyval
}.

(** What [serde.loads] hands back is used as a dictionary with the keys
    [input] and [config]; a key may be missing from a malformed one. *)
Record MessageToOrchestrator : Type := {
  mto_input : option pyval;
  mto_config : option RunnableConfig
}.

Inductive PathElem : Type :=
| PStr (s : string)
| PInt (z : Z).

Record ExecutorTask : Type := {
  et_id : string;
  et_path : list PathElem
}.

Record MessageToExecutor : Type := {
  mte_config : RunnableConfig;
  mte_task : ExecutorTask
}.

Record ErrorMessage : Type := {
  em_topic : string;
  em_msg : MessageToOrchestrator;
  em_error : string
}.

Record Topics : Type := {
  orchestrator : string;
  executor : string;
  error : string
}.

(** What the producer is asked to publish. *)
Inductive Value : Type :=
| ToExecutor (m : MessageToExecutor)
| ToError (m : ErrorMessage).

(** What [consumer.getmany] returns: per partition, the records read. *)
Record TopicPartition : Type := {
  tp_topic : string;
  tp_partition : Z
}.

Record ConsumerRecord : Type := {
  cr_offset : Z;
  cr_value : bytes
}.

Definition Records : Type := list (TopicPartition * list ConsumerRecord).

(** *** The run context [AsyncPregelLoop], as the orchestrator sees it *)

Record PregelExecutableTask : Type := {
  task_name : string;
  task_id : string;
  task_path : list PathElem;
  task_scheduled : bool
}.

(** The part of a checkpoint that [attempt] reads: per node, the
    version of each channel it has seen.  Versions are integers. *)
Record Checkpoint : Type := {
  versions_seen : gmap string (gmap string Z)
}.

(** A handle of an [asyncio.Future]. *)
Definition Fut : Type := nat.

(** The attributes of the loop object that [attempt] reads.  [tasks] is
    a dictionary, kept in insertion order; [_put_checkpoint_fut] is
    [None] when the object has no such attribute. *)
Record Loop : Type := {
  loop_config : RunnableConfig;
  loop_checkpoint_config : RunnableConfig;
  loop_checkpoint : Checkpoint;
  loop_tasks : list (string * PregelExecutableTask);
  loop_put_checkpoint_fut : option Fut
}.

(** Modelled from the spec: the retry policy of
    [langgraph.pregel.types], which is not part of the files embedded here:
    the spec's Retry Harness has a maximum number of attempts and a
    predicate over the failure; the backoff intervals are real numbers
    and are left out, every sleep between two attempts is recorded. *)
Record RetryPolicy : Type := {
  max_attempts : nat;
  retry_on : exn -> bool
}.

Record KafkaOrchestrator : Type := {
  graph : Pregel;
  topics : Topics;
  group_id : string;
  batch_max_n : Z;
  batch_max_ms : Z;
  retry_policy : option RetryPolicy
}.

(** [KafkaOrchestrator(graph, topics)]: the constructor's defaults. *)
Definition mkKafkaOrchestrator (g : Pregel) (t : Topics) : KafkaOrchestrator :=
  {| graph := g; topics := t; group_id := "orchestrator";
     batch_max_n := 10; batch_max_ms := 1000; retry_policy := None |}.

(** *** The collaborators *)

(** The broker client, the codec, the run context and the event loop's
    clock: each operation acts on the state [W] of the outside world
    and may raise.  The loop object is mutable: [loop_tick] hands back
    the attributes as the tick leaves them.  A checkpoint is immutable
    once written (spec, section 3), so [loop_put_writes] acts on the
    world and leaves the attributes that [attempt] reads as they are.
    The exit of the context is called on the object that was entered. *)
Class Collaborators (W : Type) : Type := {
  consumer_getmany : Z -> Z -> W -> result Records * W;
  consumer_commit : W -> result unit * W;
  producer_send : string -> Value -> W -> result Fut * W;
  producer_send_and_wait : string -> Value -> W -> result unit * W;
  future_wait : Fut -> W -> result unit * W;
  serde_loads : bytes -> result MessageToOrchestrator;
  ensure_config : RunnableConfig -> RunnableConfig;
  loop_aenter : Pregel -> pyval -> RunnableConfig -> W -> result Loop * W;
  loop_tick : Pregel -> Loop -> W -> result (bool * Loop) * W;
  loop_put_writes : Loop -> string -> list (string * pyval) -> W -> result unit * W;
  loop_aexit : Loop -> option exn -> W -> result bool * W;
  asyncio_sleep : W -> W
}.

(** *** The trace *)

(** One event per call to a collaborator, recorded when the call is
    made; [EAck] is recorded when the delivery future of a sent message
    resolves.  [EDispatch] is the dispatch of a message to the engine,
    the call [aretry(self.retry_policy, self.attempt, msg)];
    [EAttempt] is each run of [self.attempt(msg)] the harness makes. *)
Inductive event : Type :=
| EGetMany (timeout_ms max_records : Z)
| ECommit
| EDispatch (msg : MessageToOrchestrator)
| EAttempt (msg : MessageToOrchestrator)
| ESleep
| ELoopEnter (input : pyval) (config : RunnableConfig)
| ETick
| EAwaitCheckpoint (fut : Fut)
| ESend (topic : string) (value : Value)
| EAck (topic : string) (value : Value)
| ESendAndWait (topic : string) (value : Value)
| EPutWrites (id : string) (writes : list (string * pyval))
| ELoopExit (exc : option exn).

Definition is_commit (ev : event) : bool :=
  match ev with ECommit => true | _ => false end.
Definition is_dispatch (ev : event) : bool :=
  match ev with EDispatch _ => true | _ => false end.
Definition is_attempt (ev : event) : bool :=
  match ev with EAttempt _ => true | _ => false end.
Definition is_await_checkpoint (ev : event) : bool :=
  match ev with EAwaitCheckpoint _ => true | _ => false end.
Definition is_send (ev : event) : bool :=
  match ev with ESend _ _ => true | _ => false end.
Definition is_ack (ev : event) : bool :=
  match ev with EAck _ _ => true | _ => false end.
Definition is_error_record (ev : event) : bool :=
  match ev with ESendAndWait _ _ => true | _ => false end.
Definition is_put_writes (ev : event) : bool :=
  match ev with EPutWrites _ _ => true | _ => false end.

(** The events of a trace that satisfy a test, and how many they are. *)
Definition select (p : event -> bool) (tr : list event) : list event :=
  filter (fun ev => p ev = true) tr.

Definition count (p : event -> bool) (tr : list event) : nat :=
  length (select p tr).

(** *** Coroutines *)

(** What running a coroutine from a world gives: its result, the world
    it leaves, and the events it recorded, oldest first. *)
Record Outcome (W A : Type) : Type := {
  res : result A;
  world : W;
  events : list event
}.
Arguments res {W A} _.
Arguments world {W A} _.
Arguments events {W A} _.

Definition M (W A : Type) : Type := W -> Outcome W A.

Definition after {W A} (evs : list event) (o : Outcome W A) : Outcome W A :=
  {| res := res o; world := world o; events := evs ++ events o |}.

Definition ret {W A} (a : A) : M W A :=
  fun w => {| res := Ok a; world := w; events := [] |}.

Definition raise {W A} (exc : exn) : M W A :=
  fun w => {| res := Raise exc; world := w; events := [] |}.

Definition bind {W A B} (m : M W A) (k : A -> M W B) : M W B :=
  fun w =>
    let o := m w in
    match res o with
    | Ok a => after (events o) (k a (world o))
    | Raise exc => {| res := Raise exc; world := world o; events := events o |}
    end.

(** [try: m except Exception as exc: h exc]. *)
Definition try_except {W A} (m : M W A) (h : exn -> M W A) : M W A :=
  fun w =>
    let o := m w in
    match res o with
    | Ok _ => o
    | Raise exc => after (events o) (h exc (world o))
    end.

(** A call to a collaborator, recorded as [ev]. *)
Definition perform {W A} (ev : event) (op : W -> result A * W) : M W A :=
  fun w => let '(r, w') := op w in {| res := r; world := w'; events := [ev] |}.

(** An entry of the trace that touches nothing. *)
Definition log {W} (ev : event) : M W unit :=
  fun w => {| res := Ok tt; world := w; events := [ev] |}.

(** A pure computation that may raise. *)
Definition lift {W A} (r : result A) : M W A :=
  fun w => {| res := r; world := w; events := [] |}.

Declare Scope coro_scope.
Delimit Scope coro_scope with coro.
Notation "x <- m ;; k" := (bind m (fun x => k))
  (at level 100, m at next level, right associativity) : coro_scope.
Open Scope coro_scope.

(** [await asyncio.gather] over the coroutines [cs]: every coroutine
    is started and runs to its end, also when one before it has failed;
    the results come in the order of the arguments, and when a
    coroutine failed the caller sees the first failure.  The event
    loop runs on one thread; the model follows the schedule that
    starts the coroutines in the order of the arguments and lets each
    run to its end before the next: how the coroutines interleave at
    their suspension points is left out. *)
Fixpoint gather {W A} (cs : list (M W A)) : M W (list A) :=
  match cs with
  | [] => ret []
  | c :: cs' =>
      fun w =>
        let o := c w in
        let o' := gather cs' (world o) in
        {| res := match res o, res o' with
                  | Ok a, Ok rest => Ok (a :: rest)
                  | Ok _, Raise exc => Raise exc
                  | Raise exc, _ => Raise exc
                  end;
           world := world o';
           events := events o ++ events o' |}
  end.

(** A list comprehension whose element expression may raise: the
    elements are evaluated in order, up to the first that raises. *)
Fixpoint comprehension {W A B} (f : A -> result B) (l : list A) : M W (list B) :=
  match l with
  | [] => ret []
  | a :: l' => b <- lift (f a) ;; rest <- comprehension f l' ;; ret (b :: rest)
  end.

(** [for x in l: body x]. *)
Fixpoint for_each {W A} (l : list A) (body : A -> M W unit) : M W unit :=
  match l with
  | [] => ret tt
  | x :: l' => _ <- body x ;; for_each l' body
  end.

(** *** Helpers from [langgraph.utils.config] and Python built-ins *)

(** Modelled from the spec: [langgraph.utils.config.patch_configurable]
    is not part of the files embedded here; the spec has the run's config
    patched to include the entries of the patch: the patched config
    keeps every other key, and in its [configurable] entry the patch
    wins over what was there. *)
Definition patch_configurable (config : RunnableConfig)
    (patch : gmap string pyval) : RunnableConfig :=
  match configurable config with
  | None => {| configurable := Some patch; other_keys := other_keys config |}
  | Some c => {| configurable := Some (patch ∪ c); other_keys := other_keys config |}
  end.

(** [max(values, default=None)]: the first greatest element. *)
Definition py_max (values : list Z) : option Z :=
  match values with
  | [] => None
  | x :: rest => Some (fold_left (fun m y => if (m <? y)%Z then y else m) rest x)
  end.

(** [max(checkpoint["versions_seen"].get(INTERRUPT, {}).values(), default=None)]. *)
Definition scheduled_version (ck : Checkpoint) : pyval :=
  match py_max ((map_to_list (default ∅ (versions_seen ck !! INTERRUPT))).*2) with
  | None => VNone
  | Some v => VInt v
  end.

(** The delivery future [producer.send] returns, with what it is the
    delivery of. *)
Record Delivery : Type := {
  d_fut : Fut;
  d_topic : string;
  d_value : Value
}.

Section Program.
Context {W : Type} {E : Collaborators W}.

(** **** The calls to the collaborators *)

Definition getmany (timeout_ms max_records : Z) : M W Records :=
  perform (EGetMany timeout_ms max_records) (consumer_getmany timeout_ms max_records).

Definition commit : M W unit := perform ECommit consumer_commit.

Definition send (topic : string) (value : Value) : M W Delivery :=
  f <- perform (ESend topic value) (producer_send topic value) ;;
  ret {| d_fut := f; d_topic := topic; d_value := value |}.

Definition wait_delivery (d : Delivery) : M W unit :=
  fun w =>
    let '(r, w') := future_wait (d_fut d) w in
    {| res := r; world := w';
       events := match r with
                 | Ok _ => [EAck (d_topic d) (d_value d)]
                 | Raise _ => []
                 end |}.

Definition send_and_wait (topic : string) (value : Value) : M W unit :=
  perform (ESendAndWait topic value) (producer_send_and_wait topic value).

Definition AsyncPregelLoop (g : Pregel) (input : pyval) (config : RunnableConfig)
  : M W Loop :=
  perform (ELoopEnter input config) (loop_aenter g input config).

Definition tick (g : Pregel) (loop : Loop) : M W (bool * Loop) :=
  perform ETick (loop_tick g loop).

Definition await_checkpoint (fut : Fut) : M W unit :=
  perform (EAwaitCheckpoint fut) (future_wait fut).

Definition put_writes (loop : Loop) (id : string) (writes : list (string * pyval))
  : M W unit :=
  perform (EPutWrites id writes) (loop_put_writes loop id writes).

Definition aexit (loop : Loop) (exc : option exn) : M W bool :=
  perform (ELoopExit exc) (loop_aexit loop exc).

Definition sleep : M W unit := perform ESleep (fun w => (Ok tt, asyncio_sleep w)).

(** [d[key]] on a dictionary that may lack the key. *)
Definition getitem {A} (key : string) (field : option A) : M W A :=
  match field with
  | Some v => ret v
  | None => raise (KeyError key)
  end.

(** [async with enter as loop: body loop]: the exit runs on every
    path; when the body raised, a true result of the exit swallows
    the exception. *)
Definition async_with (enter : M W Loop) (body : Loop -> M W unit) : M W unit :=
  loop <- enter ;;
  fun w =>
    let o := body loop w in
    after (events o)
      (match res o with
       | Ok _ => (_ <- aexit loop None ;; ret tt) (world o)
       | Raise exc =>
           (suppress <- aexit loop (Some exc) ;;
            if suppress : bool then ret tt else raise exc) (world o)
       end).

(** **** The Retry Harness *)

Fixpoint retry_loop {A} (policy : RetryPolicy) (retries : nat) (op : M W A)
  : M W A :=
  try_except op (fun exc =>
    match retries with
    | O => raise exc
    | S n =>
        if retry_on policy exc
        then _ <- sleep ;; retry_loop policy n op
        else raise exc
    end).

(** Modelled from the spec: [langgraph.scheduler.kafka.retry.aretry]
    is not part of the files embedded here.  Without a policy a single
    attempt is made; with one, a failed attempt is repeated after a
    sleep while the predicate accepts the failure and fewer than
    [max_attempts] attempts were made; on exhaustion the last failure
    surfaces, on success the result of the operation is returned. *)
Definition aretry {A} (policy : option RetryPolicy)
    (func : MessageToOrchestrator -> M W A) (msg : MessageToOrchestrator) : M W A :=
  _ <- log (EDispatch msg) ;;
  let op := (_ <- log (EAttempt msg) ;; func msg) in
  match policy with
  | None => op
  | Some p => retry_loop p (max_attempts p - 1) op
  end.

(** **** [KafkaOrchestrator] *)

Variable self : KafkaOrchestrator.

(** The value of [MessageToExecutor(config=patch_configurable(...),
    task=ExecutorTask(id=task.id, path=task.path))]. *)
Definition executor_message (loop : Loop) (task : PregelExecutableTask)
  : result Value :=
  match configurable (loop_checkpoint_config loop) with
  | None => Raise (KeyError "configurable")
  | Some c =>
      Ok (ToExecutor
            {| mte_config :=
                 patch_configurable (loop_config loop)
                   (<[CONFIG_KEY_DEDUPE_TASKS := VBool true]> c);
               mte_task := {| et_id := task_id task; et_path := task_path task |} |})
  end.

(** [[t for t in loop.tasks.values() if not t.scheduled]]. *)
Definition unscheduled (loop : Loop) : list PregelExecutableTask :=
  filter (fun t => task_scheduled t = false) ((loop_tasks loop).*2).

(** The write that marks a task as scheduled. *)
Definition scheduled_write (loop : Loop) (task : PregelExecutableTask) : event :=
  EPutWrites (task_id task) [(SCHEDULED, scheduled_version (loop_checkpoint loop))].

(** The block [if new_tasks := [...]] of [attempt]: schedule any new
    tasks. *)
Definition schedule_new_tasks (loop : Loop) : M W unit :=
  let new_tasks := unscheduled loop in
  match new_tasks with
  | [] => ret tt
  | _ :: _ =>
      (* send messages to executor *)
      values <- comprehension (executor_message loop) new_tasks ;;
      futures <- gather (map (send (executor (topics self))) values) ;;
      (* wait for messages to be sent *)
      _ <- gather (map wait_delivery futures) ;;
      (* mark as scheduled *)
      for_each new_tasks (fun task =>
        put_writes loop (task_id task)
          [(SCHEDULED, scheduled_version (loop_checkpoint loop))])
  end.

(** [await loop._put_checkpoint_fut], when the loop has the attribute. *)
Definition wait_for_checkpoint (loop : Loop) : M W unit :=
  match loop_put_checkpoint_fut loop with
  | Some fut => await_checkpoint fut
  | None => ret tt
  end.

(** The body of the [async with] statement of [attempt]. *)
Definition attempt_body (loop0 : Loop) : M W unit :=
  ticked <- tick (graph self) loop0 ;;
  let loop := ticked.2 in
  if ticked.1 then
    (* wait for checkpoint to be saved *)
    _ <- wait_for_checkpoint loop ;;
    (* schedule any new tasks *)
    schedule_new_tasks loop
  else
    ret tt.

Definition attempt (msg : MessageToOrchestrator) : M W unit :=
  input <- getitem "input" (mto_input msg) ;;
  config <- getitem "config" (mto_config msg) ;;
  async_with (AsyncPregelLoop (graph self) input (ensure_config config))
    attempt_body.

Definition error_message (msg : MessageToOrchestrator) (exc : exn) : Value :=
  ToError {| em_topic := orchestrator (topics self);
             em_msg := msg;
             em_error := repr exc |}.

Definition each (msg : MessageToOrchestrator) : M W unit :=
  try_except (aretry (retry_policy self) attempt msg)
    (fun exc => send_and_wait (error (topics self)) (error_message msg exc)).

(** [set(msg.value for msgs in recs.values() for msg in msgs)]. *)
Definition payloads (recs : Records) : gset bytes :=
  list_to_set (cr_value <$> concat (recs.*2)).

(** The [try] block of [__anext__]: wait for the next batch, drop the
    duplicates, deserialize. *)
Definition next_batch : M W (list MessageToOrchestrator) :=
  try_except
    (recs <- getmany (batch_max_ms self) (batch_max_n self) ;;
     let uniq := payloads recs in
     comprehension serde_loads (elements uniq))
    (fun exc =>
       match exc with
       | ConsumerStoppedError => raise StopAsyncIteration
       | _ => raise exc
       end).

Definition anext : M W (list MessageToOrchestrator) :=
  msgs <- next_batch ;;
  (* process batch *)
  _ <- gather (map each msgs) ;;
  (* commit offsets *)
  _ <- commit ;;
  (* return message *)
  ret msgs.

End Program.

(** *** Observations on the traces *)

(** The coroutine [m] records only events that satisfy [P]. *)
Definition emits {W A} (P : event -> Prop) (m : M W A) : Prop :=
  forall w, Forall P (events (m w)).

(** [v] is the greatest version in the map [m]. *)
Definition greatest_version (m : gmap string Z) (v : Z) : Prop :=
  (exists ch, m !! ch = Some v) /\ forall ch x, m !! ch = Some x -> (x <= v)%Z.

Section Observations.
Context {W : Type} {E : Collaborators W}.
Variable self : KafkaOrchestrator.

(** The events of the wait for the checkpoint. *)
Definition await_events (loop : Loop) : list event :=
  match loop_put_checkpoint_fut loop with
  | Some fut => [EAwaitCheckpoint fut]
  | None => []
  end.

(** No event of the dispatch: neither a send, nor an acknowledgment,
    nor a write. *)
Definition quiet (ev : event) : Prop :=
  is_send ev = false /\ is_ack ev = false /\ is_put_writes ev = false.

(** The tick of the attempt on [msg] from the world [w] reported
    progress and left the loop as [loop]. *)
Definition ticked (msg : MessageToOrchestrator) (w : W) (loop : Loop) : Prop :=
  exists input config loop0 w1 w2,
    mto_input msg = Some input /\
    mto_config msg = Some config /\
    loop_aenter (graph self) input (ensure_config config) w = (Ok loop0, w1) /\
    loop_tick (graph self) loop0 w1 = (Ok (true, loop), w2).

(** The events an attempt can record. *)
Definition attempt_event (ev : event) : Prop :=
  match ev with
  | ELoopEnter _ _ | ETick | EAwaitCheckpoint _ | ESend _ _ | EAck _ _
  | EPutWrites _ _ | ELoopExit _ => True
  | _ => False
  end.

(** The events the harness can record around the attempts on [msg]. *)
Definition harness_event (msg : MessageToOrchestrator) (ev : event) : Prop :=
  ev = EAttempt msg \/ ev = ESleep \/ attempt_event ev.

(** The engine under the Retry Harness, as [each] calls it. *)
Definition harness (msg : MessageToOrchestrator) : M W unit :=
  aretry (retry_policy self) (attempt self) msg.

(** How many attempts the harness may make on one message. *)
Definition attempts_allowed : nat :=
  match retry_policy self with
  | None => 1
  | Some policy => Nat.max 1 (max_attempts policy)
  end.

(** The payloads of a batch, in the order of the records. *)
Definition batch_values (recs : Records) : list bytes :=
  cr_value <$> concat (recs.*2).

(** What the [except] clause of [__anext__] makes of an exception. *)
Definition reraised (exc : exn) : exn :=
  match exc with
  | ConsumerStoppedError => StopAsyncIteration
  | _ => exc
  end.

(** The processing of the messages of a batch, one after the other,
    where each message either succeeds under the harness or has its
    failure published on the error topic: the events recorded and the
    world reached. *)
Inductive processed : list MessageToOrchestrator -> W -> list event -> W -> Prop :=
| processed_nil (w : W) : processed [] w [] w
| processed_ok (msg : MessageToOrchestrator) msgs w evs w' :
    res (harness msg w) = Ok tt ->
    processed msgs (world (harness msg w)) evs w' ->
    processed (msg :: msgs) w (events (harness msg w) ++ evs) w'
| processed_routed (msg : MessageToOrchestrator) msgs w exc w1 evs w' :
    res (harness msg w) = Raise exc ->
    producer_send_and_wait (error (topics self)) (error_message self msg exc)
      (world (harness msg w)) = (Ok tt, w1) ->
    processed msgs w1 evs w' ->
    processed (msg :: msgs) w
      (events (harness msg w) ++
       ESendAndWait (error (topics self)) (error_message self msg exc) :: evs) w'.

(** The attempts of a processed batch: for each message in turn, at
    least one and at most as many as the policy allows. *)
Definition attempts_of (ns : list nat) (msgs : list MessageToOrchestrator)
  : list event :=
  concat (zip_with (fun n msg => replicate n (EAttempt msg)) ns msgs).

End Observations.

(** *** A concrete broker, codec and run context *)

Module Scenario.

(** The state of the outside world: the delivery futures handed out so
    far and the loops entered so far. *)
Record World : Type := {
  next_fut : nat;
  entered : nat
}.

Definition start : World := {| next_fut := 1; entered := 0 |}.

Definition thread_config (thread : string) : RunnableConfig :=
  {| configurable := Some {[ "thread_id" := VStr thread ]};
     other_keys := {[ "recursion_limit" := VInt 25 ]} |}.

(** The codec: the payload is the thread to wake; [garbage] does not
    deserialize. *)
Definition loads (payload : bytes) : result MessageToOrchestrator :=
  if String.eqb payload "garbage"
  then Raise (Error "ValueError" [VStr "malformed payload"])
  else Ok {| mto_input := Some (VStr payload);
             mto_config := Some (thread_config payload) |}.

Definition wake (thread : string) : MessageToOrchestrator :=
  {| mto_input := Some (VStr thread); mto_config := Some (thread_config thread) |}.

Definition checkpoint_config (id : string) : RunnableConfig :=
  {| configurable := Some {[ "checkpoint_id" := VStr id ]};
     other_keys := ∅ |}.

(** Entering the loop loads the latest checkpoint; the run [absent]
    has none. *)
Definition aenter (g : Pregel) (input : pyval) (config : RunnableConfig) (w : World)
  : result Loop * World :=
  let w' := {| next_fut := next_fut w; entered := S (entered w) |} in
  match input with
  | VStr "absent" => (Raise (Error "RuntimeError" [VStr "no such run"]), w')
  | _ =>
      (Ok {| loop_config := config;
             loop_checkpoint_config := checkpoint_config "c0";
             loop_checkpoint := {| versions_seen := ∅ |};
             loop_tasks := [];
             loop_put_checkpoint_fut := None |}, w')
  end.

Definition thread_of (loop : Loop) : string :=
  match configurable (loop_config loop) with
  | Some c => match c !! "thread_id" with Some (VStr thread) => thread | _ => "" end
  | None => ""
  end.

Definition task (name id : string) (scheduled : bool) : string * PregelExecutableTask :=
  (id, {| task_name := name; task_id := id; task_path := [PStr "__pregel_pull"; PStr name];
          task_scheduled := scheduled |}).

(** The tick: the run [run] prepares three tasks, one of them already
    scheduled; the run [idle] prepares one that is already scheduled;
    every other run is quiescent. *)
Definition do_tick (g : Pregel) (loop : Loop) (w : World)
  : result (bool * Loop) * World :=
  let ticked tasks :=
    {| loop_config := loop_config loop;
       loop_checkpoint_config := checkpoint_config "c1";
       loop_checkpoint :=
         {| versions_seen := {[ INTERRUPT := {[ "a" := 3%Z; "b" := 7%Z ]} ]} |};
       loop_tasks := tasks;
       loop_put_checkpoint_fut := Some 0 |} in
  if String.eqb (thread_of loop) "run" then
    (Ok (true, ticked [task "n1" "t1" false; task "n2" "t2" true; task "n3" "t3" false]), w)
  else if String.eqb (thread_of loop) "idle" then
    (Ok (true, ticked [task "n1" "t1" true]), w)
  else
    (Ok (false, loop), w).

(** A broker that hands out [batch] and accepts everything. *)
Definition broker (batch : Records) : Collaborators World := {|
  consumer_getmany := fun _ _ w => (Ok batch, w);
  consumer_commit := fun w => (Ok tt, w);
  producer_send := fun _ _ w =>
    (Ok (next_fut w), {| next_fut := S (next_fut w); entered := entered w |});
  producer_send_and_wait := fun _ _ w => (Ok tt, w);
  future_wait := fun _ w => (Ok tt, w);
  serde_loads := loads;
  ensure_config := fun config => config;
  loop_aenter := aenter;
  loop_tick := do_tick;
  loop_put_writes := fun _ _ _ w => (Ok tt, w);
  loop_aexit := fun _ _ w => (Ok false, w);
  asyncio_sleep := fun w => w
|}.

Definition the_topics : Topics :=
  {| orchestrator := "orchestrator"; executor := "executor"; error := "error" |}.

Definition the_graph : Pregel := entrypoint None None double.

Definition orchestrator_default : KafkaOrchestrator :=
  mkKafkaOrchestrator the_graph the_topics.

Definition orchestrator_retrying : KafkaOrchestrator :=
  {| graph := the_graph; topics := the_topics; group_id := "orchestrator";
     batch_max_n := 10; batch_max_ms := 1000;
     retry_policy := Some {| max_attempts := 2; retry_on := fun _ => true |} |}.

Definition partition0 : TopicPartition :=
  {| tp_topic := "orchestrator"; tp_partition := 0 |}.
Definition partition1 : TopicPartition :=
  {| tp_topic := "orchestrator"; tp_partition := 1 |}.

Definition record (offset : Z) (payload : bytes) : ConsumerRecord :=
  {| cr_offset := offset; cr_value := payload |}.

(** **** The runs looked at below *)

Definition run_trace : list event :=
  events (attempt (E := broker []) orchestrator_default (wake "run") start).

(** The loop as the tick on [run] leaves it. *)
Definition run_loop : Loop :=
  {| loop_config := thread_config "run";
     loop_checkpoint_config := checkpoint_config "c1";
     loop_checkpoint :=
       {| versions_seen := {[ INTERRUPT := {[ "a" := 3%Z; "b" := 7%Z ]} ]} |};
     loop_tasks := [task "n1" "t1" false; task "n2" "t2" true; task "n3" "t3" false];
     loop_put_checkpoint_fut := Some 0 |}.

(** The executor message of the task [id] of node [name]. *)
Definition sent (name id : string) : Value :=
  ToExecutor
    {| mte_config :=
         {| configurable :=
              Some {[ "thread_id" := VStr "run";
                      "checkpoint_id" := VStr "c1";
                      CONFIG_KEY_DEDUPE_TASKS := VBool true ]};
            other_keys := {[ "recursion_limit" := VInt 25 ]} |};
       mte_task := {| et_id := id; et_path := [PStr "__pregel_pull"; PStr name] |} |}.

(** Three wake-ups of [run] among five records on two partitions. *)
Definition batch_with_duplicates : Records :=
  [(partition0, [record 0 "run"; record 1 "run"; record 2 "quiet"]);
   (partition1, [record 0 "run"; record 1 "idle"])].

Definition dedup_trace : list event :=
  events (anext (E := broker batch_with_duplicates) orchestrator_default start).

(** A batch with a run that has no checkpoint. *)
Definition batch_with_failure : Records :=
  [(partition0, [record 0 "quiet"; record 1 "absent"; record 2 "run";
                 record 3 "absent"])].

Definition no_such_run : exn := Error "RuntimeError" [VStr "no such run"].

Definition batch_with_garbage : Records :=
  [(partition0, [record 0 "quiet"; record 1 "garbage"; record 2 "idle"])].

End Scenario.

End Orchestrator.

(** ** More observations on the orchestrator *)

Module Outcomes.
Import Py Constants Orchestrator.

Definition is_loop_enter (ev : event) : bool :=
  match ev with ELoopEnter _ _ => true | _ => false end.
Definition is_tick (ev : event) : bool :=
  match ev with ETick => true | _ => false end.
Definition is_loop_exit (ev : event) : bool :=
  match ev with ELoopExit _ => true | _ => false end.

(** The events the body of the [async with] statement can record. *)
Definition body_event (ev : event) : Prop :=
  match ev with
  | ETick | EAwaitCheckpoint _ | ESend _ _ | EAck _ _ | EPutWrites _ _ => True
  | _ => False
  end.

(** The key whose lookup fails first in [attempt]: [msg["input"]] is
    evaluated before [msg["config"]]. *)
Definition missing_key (msg : MessageToOrchestrator) : option string :=
  match mto_input msg with
  | None => Some "input"
  | Some _ =>
      match mto_config msg with
      | None => Some "config"
      | Some _ => None
      end
  end.

(** The exception a result carries, if any. *)
Definition failure_of {A} (r : result A) : option exn :=
  match r with
  | Ok _ => None
  | Raise exc => Some exc
  end.

Section Outcomes.
Context {W : Type} {E : Collaborators W}.
Variable self : KafkaOrchestrator.

(** The attempt on [msg] from the world [w] entered the loop, which
    was then [loop0], and reached the world [w1]. *)
Definition loop_entered (msg : MessageToOrchestrator) (w : W) (loop0 : Loop) (w1 : W)
  : Prop :=
  exists input config,
    mto_input msg = Some input /\
    mto_config msg = Some config /\
    loop_aenter (graph self) input (ensure_config config) w = (Ok loop0, w1).

(** The tick of the attempt on [msg] from the world [w] reported
    progress, left the loop as [loop] and the world as [w2]. *)
Definition ticked_at (msg : MessageToOrchestrator) (w : W) (loop : Loop) (w2 : W)
  : Prop :=
  exists loop0 w1,
    loop_entered msg w loop0 w1 /\
    loop_tick (graph self) loop0 w1 = (Ok (true, loop), w2).

(** The error record [each] publishes for the failure [exc] of [msg]. *)
Definition error_record (msg : MessageToOrchestrator) (exc : exn) : event :=
  ESendAndWait (error (topics self))
    (ToError {| em_topic := orchestrator (topics self);
                em_msg := msg;
                em_error := repr exc |}).

End Outcomes.

(** A broker, a producer and a run context that can fail. *)
Module Faults.
Import Scenario.

Record Faults : Type := {
  consumer_stopped : bool;     (* getmany raises ConsumerStoppedError *)
  commit_stopped : bool;       (* commit raises ConsumerStoppedError *)
  error_topic_down : bool;     (* send_and_wait raises *)
  refused_from : option nat;   (* send refuses once that many futures were handed out *)
  lost_from : option nat       (* the delivery futures from that handle on fail *)
}.

Definition none : Faults :=
  {| consumer_stopped := false; commit_stopped := false; error_topic_down := false;
     refused_from := None; lost_from := None |}.

Definition broker_down : exn := Error "KafkaConnectionError" [VStr "broker down"].
Definition graph_interrupt : exn := Error "GraphInterrupt" [].

(** The tick of [Scenario], and two more runs: the tick of [paused]
    raises an interrupt; the run [bare] has a task to schedule and a
    checkpoint config without [configurable]. *)
Definition faulty_tick (g : Pregel) (loop : Loop) (w : World)
  : result (bool * Loop) * World :=
  if String.eqb (thread_of loop) "paused" then (Raise graph_interrupt, w)
  else if String.eqb (thread_of loop) "bare" then
    (Ok (true, {| loop_config := loop_config loop;
                  loop_checkpoint_config := {| configurable := None; other_keys := ∅ |};
                  loop_checkpoint := {| versions_seen := ∅ |};
                  loop_tasks := [task "n1" "t1" false];
                  loop_put_checkpoint_fut := None |}), w)
  else do_tick g loop w.

(** The exit of the loop swallows an interrupt and nothing else. *)
Definition faulty_aexit (loop : Loop) (exc : option exn) (w : World)
  : result bool * World :=
  match exc with
  | Some (Error "GraphInterrupt" _) => (Ok true, w)
  | _ => (Ok false, w)
  end.

Definition reached (limit : option nat) (n : nat) : bool :=
  match limit with
  | Some k => Nat.leb k n
  | None => false
  end.

Definition faulty (f : Faults) (batch : Records) : Collaborators World := {|
  consumer_getmany := fun _ _ w =>
    if consumer_stopped f then (Raise ConsumerStoppedError, w) else (Ok batch, w);
  consumer_commit := fun w =>
    if commit_stopped f then (Raise ConsumerStoppedError, w) else (Ok tt, w);
  producer_send := fun _ _ w =>
    if reached (refused_from f) (next_fut w) then (Raise broker_down, w)
    else (Ok (next_fut w), {| next_fut := S (next_fut w); entered := entered w |});
  producer_send_and_wait := fun _ _ w =>
    if error_topic_down f then (Raise broker_down, w) else (Ok tt, w);
  future_wait := fun fut w =>
    if reached (lost_from f) fut then (Raise broker_down, w) else (Ok tt, w);
  serde_loads := loads;
  ensure_config := fun config => config;
  loop_aenter := aenter;
  loop_tick := faulty_tick;
  loop_put_writes := fun _ _ _ w => (Ok tt, w);
  loop_aexit := faulty_aexit;
  asyncio_sleep := fun w => w
|}.

(** The world and the loop after the entry of the first attempt. *)
Definition once : World := {| next_fut := 1; entered := 1 |}.

Definition entered_loop (thread : string) : Loop :=
  {| loop_config := thread_config thread;
     loop_checkpoint_config := checkpoint_config "c0";
     loop_checkpoint := {| versions_seen := ∅ |};
     loop_tasks := [];
     loop_put_checkpoint_fut := None |}.

(** The loop as the tick on [bare] leaves it. *)
Definition bare_loop : Loop :=
  {| loop_config := thread_config "bare";
     loop_checkpoint_config := {| configurable := None; other_keys := ∅ |};
     loop_checkpoint := {| versions_seen := ∅ |};
     loop_tasks := [task "n1" "t1" false];
     loop_put_checkpoint_fut := None |}.

(** The second delivery is lost. *)
Definition lossy : Faults :=
  {| consumer_stopped := false; commit_stopped := false; error_topic_down := false;
     refused_from := None; lost_from := Some 2 |}.

(** The write of the checkpoint is lost. *)
Definition checkpoint_lost : Faults :=
  {| consumer_stopped := false; commit_stopped := false; error_topic_down := false;
     refused_from := None; lost_from := Some 0 |}.

(** Every send is refused. *)
Definition refusing : Faults :=
  {| consumer_stopped := false; commit_stopped := false; error_topic_down := false;
     refused_from := Some 1; lost_from := None |}.

Definition stopped : Faults :=
  {| consumer_stopped := true; commit_stopped := false; error_topic_down := false;
     refused_from := None; lost_from := None |}.

Definition commit_fails : Faults :=
  {| consumer_stopped := false; commit_stopped := true; error_topic_down := false;
     refused_from := None; lost_from := None |}.

Definition error_topic_fails : Faults :=
  {| consumer_stopped := false; commit_stopped := false; error_topic_down := true;
     refused_from := None; lost_from := None |}.

(** A message that deserialized to a dictionary without [input]. *)
Definition headless : MessageToOrchestrator :=
  {| mto_input := None; mto_config := Some (thread_config "run") |}.

Definition batch_of (payloads : list bytes) : Records :=
  [(partition0, imap (fun i payload => record (Z.of_nat i) payload) payloads)].

End Faults.

End Outcomes.

(** ** The lifecycle of the orchestrator *)

(** [__init__], [__aenter__] and [__aexit__] of [KafkaOrchestrator],
    with the [AsyncExitStack] of [contextlib] they rest on. *)

Module Lifecycle.
Import Py Constants Orchestrator.

(** The value of a keyword argument: a Python value, or a function
    named by its dotted path, as [serde.dumps]. *)
Inductive kwarg : Type :=
| KwValue (v : pyval)
| KwFunction (path : string).

(** [**kwargs]: a dictionary, in insertion order. *)
Definition Kwargs : Type := list (string * kwarg).

(** The instance as [__init__] leaves it: the attributes held by the
    record [KafkaOrchestrator], and [self.kwargs]. *)
Record Instance : Type := {
  this : KafkaOrchestrator;
  kwargs : Kwargs
}.

(** The parameters of [__init__]. *)
Definition parameters : list string :=
  ["self"; "graph"; "topics"; "group_id"; "batch_max_n"; "batch_max_ms";
   "retry_policy"].

(** The [TypeError] of a call that gives a parameter twice.  The text
    is the interpreter's; how it qualifies the callee is not modelled. *)
Definition repeated_argument (callee param : string) : exn :=
  Error "TypeError"
    [VStr (callee +:+ "() got multiple values for argument '" +:+ param +:+ "'")].

(** The call of [KafkaOrchestrator] on [graph], [topics], [group_id],
    [batch_max_n], [batch_max_ms] and [retry_policy], each given in its
    place (by position or by its name, a default written out), and on
    the unpacked dictionary [extra].  Python binds a keyword that names
    a parameter to that parameter, never to the extra keyword
    arguments: a key of [extra] that names a parameter gives it a
    second value, which is a [TypeError] of the call.  Otherwise the
    arguments are stored, [extra] as [self.kwargs]; no client is built
    yet. *)
Definition init (g : Pregel) (t : Topics) (group : string) (n ms : Z)
    (policy : option RetryPolicy) (extra : Kwargs) : result Instance :=
  match filter (fun kv => kv.1 ∈ parameters) extra with
  | [] =>
      Ok {| this := {| graph := g; topics := t; group_id := group;
                       batch_max_n := n; batch_max_ms := ms;
                       retry_policy := policy |};
            kwargs := extra |}
  | (key, _) :: _ => Raise (repeated_argument "KafkaOrchestrator.__init__" key)
  end.

Inductive ClientClass : Type := AIOKafkaConsumer | AIOKafkaProducer.

#[global] Instance ClientClass_eq_dec : EqDecision ClientClass.
Proof. solve_decision. Defined.

Definition class_name (cls : ClientClass) : string :=
  match cls with
  | AIOKafkaConsumer => "AIOKafkaConsumer"
  | AIOKafkaProducer => "AIOKafkaProducer"
  end.

(** The [TypeError] of a call that gives a keyword twice.  The text is
    the interpreter's; how it qualifies the callee is not modelled. *)
Definition multiple_values (callee key : string) : exn :=
  Error "TypeError"
    [VStr (callee +:+ "() got multiple values for keyword argument '" +:+ key +:+ "'")].

(** The keyword arguments of the call [callee(k1=v1, ..., **extra)]:
    a key of [extra] that repeats one of the explicit keywords is a
    [TypeError], raised before the callee runs. *)
Definition keywords (callee : string) (explicit extra : Kwargs) : result Kwargs :=
  match filter (fun kv => kv.1 ∈ explicit.*1) extra with
  | [] => Ok (explicit ++ extra)
  | (key, _) :: _ => Raise (multiple_values callee key)
  end.

(** The two client classes of [aiokafka], over the state [W] of the
    outside world and the type [C] of the client objects: the
    constructor, on its positional and keyword arguments, and the two
    methods of the asynchronous context manager protocol;
    [client_aexit] tells whether the exception it was given is
    swallowed. *)
Class Clients (W C : Type) : Type := {
  client_new : ClientClass -> list string -> Kwargs -> W -> result C * W;
  client_aenter : C -> W -> result C * W;
  client_aexit : C -> option exn -> W -> result bool * W
}.

(** The calls made on the clients, oldest first in a trace. *)
Inductive call (C : Type) : Type :=
| CNew (cls : ClientClass) (args : list string) (kw : Kwargs)
| CEnter (cm : C)
| CExit (cm : C) (exc : option exn).
Arguments CNew {C} cls args kw.
Arguments CEnter {C} cm.
Arguments CExit {C} cm exc.

Definition is_exit {C} (c : call C) : bool :=
  match c with CExit _ _ => true | _ => false end.

(** The mutable attributes of the instance, the outside world and the
    calls made so far.  [stack] holds the context managers whose exit
    is registered on [self.stack], the last one first; [consumer] and
    [producer] are [None] as long as the attribute is not set. *)
Record State (W C : Type) : Type := {
  stack : list C;
  consumer : option C;
  producer : option C;
  outside : W;
  calls : list (call C)
}.
Arguments stack {W C} s.
Arguments consumer {W C} s.
Arguments producer {W C} s.
Arguments outside {W C} s.
Arguments calls {W C} s.

(** The state after [__init__]: [self.stack = AsyncExitStack()]. *)
Definition fresh {W C} (w : W) : State W C :=
  {| stack := []; consumer := None; producer := None; outside := w; calls := [] |}.

(** The state of an exit stack that unwinds. *)
Record Unwinding : Type := {
  exc_details : option exn;
  suppressed_exc : bool;
  pending_raise : bool
}.

(** What one exit callback makes of the state of the unwinding: a true
    result swallows the exception and clears a pending one, a failure
    replaces the exception and is pending. *)
Definition after_callback (u : Unwinding) (r : result bool) : Unwinding :=
  match r with
  | Ok true => {| exc_details := None; suppressed_exc := true; pending_raise := false |}
  | Ok false => u
  | Raise exc =>
      {| exc_details := Some exc; suppressed_exc := suppressed_exc u;
         pending_raise := true |}
  end.

Declare Scope life_scope.
Delimit Scope life_scope with life.

Section Lifecycle.
Context {W C : Type} {K : Clients W C}.

(** A computation on the state that may raise. *)
Definition L (A : Type) : Type := State W C -> result A * State W C.

Definition lret {A} (a : A) : L A := fun s => (Ok a, s).

Definition lbind {A B} (m : L A) (k : A -> L B) : L B :=
  fun s =>
    match m s with
    | (Ok a, s') => k a s'
    | (Raise exc, s') => (Raise exc, s')
    end.

Notation "x <- m ;; k" := (lbind m (fun x => k))
  (at level 100, m at next level, right associativity) : life_scope.
Local Open Scope life_scope.

Definition llift {A} (r : result A) : L A := fun s => (r, s).

Definition record_call (c : call C) : L unit :=
  fun s =>
    (Ok tt, {| stack := stack s; consumer := consumer s; producer := producer s;
               outside := outside s; calls := calls s ++ [c] |}).

Definition on_world {A} (op : W -> result A * W) : L A :=
  fun s =>
    let '(r, w') := op (outside s) in
    (r, {| stack := stack s; consumer := consumer s; producer := producer s;
           outside := w'; calls := calls s |}).

Definition push (cm : C) : L unit :=
  fun s =>
    (Ok tt, {| stack := cm :: stack s; consumer := consumer s; producer := producer s;
               outside := outside s; calls := calls s |}).

Definition set_consumer (c : C) : L unit :=
  fun s =>
    (Ok tt, {| stack := stack s; consumer := Some c; producer := producer s;
               outside := outside s; calls := calls s |}).

Definition set_producer (p : C) : L unit :=
  fun s =>
    (Ok tt, {| stack := stack s; consumer := consumer s; producer := Some p;
               outside := outside s; calls := calls s |}).

(** The call of the class [cls] on the positional arguments [args],
    the explicit keywords and the unpacked dictionary [extra]. *)
Definition new (cls : ClientClass) (args : list string) (explicit extra : Kwargs)
  : L C :=
  kw <- llift (keywords (class_name cls) explicit extra) ;;
  _ <- record_call (CNew cls args kw) ;;
  on_world (client_new cls args kw).

(** [await self.stack.enter_async_context(cm)]: the manager is
    entered, and its exit is registered only when that returned. *)
Definition enter_async_context (cm : C) : L C :=
  _ <- record_call (CEnter cm) ;;
  result <- on_world (client_aenter cm) ;;
  _ <- push cm ;;
  lret result.

Definition aenter (self : Instance) : L unit :=
  cm <- new AIOKafkaConsumer [orchestrator (topics (this self))]
          [("auto_offset_reset", KwValue (VStr "earliest"));
           ("group_id", KwValue (VStr (group_id (this self))));
           ("enable_auto_commit", KwValue (VBool false))]
          (kwargs self) ;;
  c <- enter_async_context cm ;;
  _ <- set_consumer c ;;
  cm' <- new AIOKafkaProducer []
           [("value_serializer", KwFunction "serde.dumps")]
           (kwargs self) ;;
  p <- enter_async_context cm' ;;
  _ <- set_producer p ;;
  (* return self *)
  lret tt.

(** The loop of [AsyncExitStack.__aexit__]: the callbacks are popped,
    the last registered first, and each is called with the exception
    as the callbacks before it left it; the loop goes on when a
    callback raises. *)
Fixpoint run_callbacks (callbacks : list C) (u : Unwinding) (s : State W C)
  : Unwinding * State W C :=
  match callbacks with
  | [] => (u, s)
  | cb :: rest =>
      let '(r, w') := client_aexit cb (exc_details u) (outside s) in
      run_callbacks rest (after_callback u r)
        {| stack := rest; consumer := consumer s; producer := producer s;
           outside := w'; calls := calls s ++ [CExit cb (exc_details u)] |}
  end.

(** [await self.stack.__aexit__] on the exception details: after the loop, the
    pending exception is raised, if any; otherwise the result tells
    whether an exception was received and swallowed. *)
Definition stack_aexit (exc : option exn) : L bool :=
  fun s =>
    let received_exc := bool_decide (is_Some exc) in
    let '(u, s') :=
      run_callbacks (stack s)
        {| exc_details := exc; suppressed_exc := false; pending_raise := false |} s in
    if pending_raise u then
      match exc_details u with
      | Some e => (Raise e, s')
      | None => (Raise (Error "TypeError" [VStr "exceptions must derive from BaseException"]), s')
      end
    else (Ok (received_exc && suppressed_exc u), s').

Definition aexit (exc : option exn) : L bool := stack_aexit exc.

(** What the exit of [cm], called with [exc] from the world [w],
    leaves of the exception. *)
Definition left_by (cm : C) (exc : option exn) (w : W) : option exn :=
  exc_details
    (after_callback
       {| exc_details := exc; suppressed_exc := false; pending_raise := false |}
       (client_aexit cm exc w).1).

End Lifecycle.

(** *** Two clients that start and stop, or do not *)

Module Stage.

(** The outside world: the clients that are running. *)
Definition World : Type := list ClientClass.

Definition unreachable : exn := Error "KafkaConnectionError" [VStr "unable to bootstrap"].
Definition stop_failed : exn := Error "KafkaError" [VStr "stop failed"].

(** The parameters of the two constructors that the runs below use,
    among those of [aiokafka]; a constructor refuses any other
    keyword. *)
Definition accepted (cls : ClientClass) : list string :=
  match cls with
  | AIOKafkaConsumer =>
      ["bootstrap_servers"; "client_id"; "group_id"; "auto_offset_reset";
       "enable_auto_commit"; "value_deserializer"]
  | AIOKafkaProducer => ["bootstrap_servers"; "client_id"; "value_serializer"]
  end.

Definition unexpected (cls : ClientClass) (key : string) : exn :=
  Error "TypeError"
    [VStr (class_name cls +:+ ".__init__() got an unexpected keyword argument '"
           +:+ key +:+ "'")].

(** The producer starts or not; stopping the producer fails or not. *)
Definition clients (producer_starts producer_stops : bool)
  : Clients World ClientClass := {|
  client_new := fun cls _ kw w =>
    match filter (fun kv => kv.1 ∉ accepted cls) kw with
    | [] => (Ok cls, w)
    | (key, _) :: _ => (Raise (unexpected cls key), w)
    end;
  client_aenter := fun cm w =>
    match cm with
    | AIOKafkaProducer =>
        if producer_starts then (Ok cm, cm :: w) else (Raise unreachable, w)
    | AIOKafkaConsumer => (Ok cm, cm :: w)
    end;
  client_aexit := fun cm _ w =>
    match cm with
    | AIOKafkaProducer =>
        if producer_stops then (Ok false, filter (fun c => c <> cm) w)
        else (Raise stop_failed, w)
    | AIOKafkaConsumer => (Ok false, filter (fun c => c <> cm) w)
    end
|}.

Definition topics0 : Topics :=
  {| orchestrator := "orchestrator"; executor := "executor"; error := "error" |}.

(** The instance of [KafkaOrchestrator(graph, topics0,
    group_id="workers", **extra)], the other parameters at their
    defaults. *)
Definition instance_with (extra : Kwargs) : Instance :=
  {| this := {| graph := entrypoint None None double; topics := topics0;
                group_id := "workers"; batch_max_n := 10; batch_max_ms := 1000;
                retry_policy := None |};
     kwargs := extra |}.

Definition servers : string * kwarg :=
  ("bootstrap_servers", KwValue (VStr "localhost:9092")).

Definition plain : Instance := instance_with [servers].

Definition recommitting : Kwargs :=
  [servers; ("enable_auto_commit", KwValue (VBool true))].

Definition reserialized : Instance :=
  instance_with [("value_serializer", KwFunction "json.dumps")].

End Stage.

End Lifecycle.

(** ** Tasks *)

(** [task], [call] and [get_store] of [langgraph.func]. *)

Module Tasks.
Import Py Constants Orchestrator.

(** An argument of a call: a Python value or a retry policy. *)
Inductive obj : Type :=
| OValue (v : pyval)
| OPolicy (p : RetryPolicy).

(** The keyword arguments of a call, a dictionary. *)
Abbreviation Keywords := (gmap string obj) (only parsing).

(** [(args, kwargs)], the pair that [call] hands on. *)
Definition AllArgs : Type := (list obj * Keywords)%type.

(** A function given to [task]: its name, whether it is a coroutine
    function, and what calling it (and awaiting the result, for a
    coroutine function) gives. *)
Record TaskFunction : Type := {
  tf_name : string;
  tf_coroutine : bool;
  tf_apply : list obj -> Keywords -> result obj
}.

(** The local function [_tick] of [decorator]: the synchronous or the
    asynchronous one, wrapping [func]. *)
Record Tick : Type := {
  tick_wrapped : TaskFunction;
  tick_async : bool
}.

(** [_tick(__allargs__)], awaited when it is the asynchronous one:
    [func] applied to the positional arguments [__allargs__[0]] and the
    keyword arguments [__allargs__[1]]. *)
Definition run_tick (t : Tick) (allargs : AllArgs) : result obj :=
  tf_apply (tick_wrapped t) allargs.1 allargs.2.

(** What [decorator] returns: the partial application
    [functools.partial(call, _tick, retry=retry)], updated with the
    name of [func]. *)
Record Task : Type := {
  task_tick : Tick;
  task_retry : obj;
  task_wrapper_name : string
}.

Definition decorator (retry : obj) (func : TaskFunction) : Task :=
  {| task_tick := {| tick_wrapped := func; tick_async := tf_coroutine func |};
     task_retry := retry;
     task_wrapper_name := tf_name func |}.

(** [task(__func_or_none__, retry=retry)]: the decorated function when
    one is given, the decorator otherwise. *)
Definition task (func_or_none : option TaskFunction) (retry : obj)
  : Task + (TaskFunction -> Task) :=
  match func_or_none with
  | Some func => inl (decorator retry func)
  | None => inr (decorator retry)
  end.

Section RunContext.
(** The type of the futures, the two keys of [langgraph.constants]
    that the module reads (the constants are not part of the files
    embedded here; only their identity as keys matters), and
    [get_configurable], which reads the configuration of the run in
    progress and fails outside of one. *)
Variable Future : Type.
Variables CONFIG_KEY_CALL CONFIG_KEY_STORE : string.

(** An entry of the [configurable] dictionary: the implementation of
    [call], the store, or any other value. *)
Inductive entry : Type :=
| EImpl (impl : Tick -> AllArgs -> obj -> result Future)
| EStore (s : BaseStore)
| EValue (v : pyval).

Variable get_configurable : result (gmap string entry).

Definition not_callable : exn := Error "TypeError" [VStr "object is not callable"].

(** The body of [call(func, *args, retry=retry, **kwargs)]. *)
Definition call (func : Tick) (args : list obj) (retry : obj) (kwargs : Keywords)
  : result Future :=
  match get_configurable with
  | Raise exc => Raise exc
  | Ok conf =>
      match conf !! CONFIG_KEY_CALL with
      | None => Raise (KeyError CONFIG_KEY_CALL)
      | Some (EImpl impl) => impl func (args, kwargs) retry
      | Some _ => Raise not_callable
      end
  end.

Definition multiple_values (callee param : string) : exn :=
  Error "TypeError"
    [VStr (callee +:+ "() got multiple values for argument '" +:+ param +:+ "'")].

(** Binding the arguments of [call(func, *args, **keywords)] to the
    signature [(func, *args, retry=None, **kwargs)], the function being
    given by position: a keyword [func] is a [TypeError], a keyword
    [retry] binds the parameter, the other keywords go to [kwargs]. *)
Definition apply_call (func : Tick) (args : list obj) (keywords : Keywords)
  : result Future :=
  match keywords !! "func" with
  | Some _ => Raise (multiple_values "call" "func")
  | None =>
      call func args (default (OValue VNone) (keywords !! "retry"))
        (delete "retry" keywords)
  end.

(** Calling the partial application with [*args, **keywords]: the
    keywords of the call override those the partial holds. *)
Definition call_task (t : Task) (args : list obj) (keywords : Keywords)
  : result Future :=
  apply_call (task_tick t) args (keywords ∪ {[ "retry" := task_retry t ]}).

Definition get_store : result entry :=
  match get_configurable with
  | Raise exc => Raise exc
  | Ok conf =>
      match conf !! CONFIG_KEY_STORE with
      | None => Raise (KeyError CONFIG_KEY_STORE)
      | Some s => Ok s
      end
  end.

End RunContext.

(** *** A run context that records the submissions *)

Module Desk.

(** A future that holds what was submitted. *)
Record Submission : Type := {
  sub_name : string;
  sub_allargs : AllArgs;
  sub_retry : obj;
  sub_result : result obj
}.

Definition submit (t : Tick) (allargs : AllArgs) (retry : obj) : result Submission :=
  Ok {| sub_name := tf_name (tick_wrapped t); sub_allargs := allargs;
        sub_retry := retry; sub_result := run_tick t allargs |}.

Definition in_run : result (gmap string (entry Submission)) :=
  Ok {[ "call" := EImpl Submission submit; "store" := EStore Submission "memory" ]}.

Definition bare_run : result (gmap string (entry Submission)) := Ok ∅.

(** [def add(a, b=1): return a + b]. *)
Definition add : TaskFunction :=
  {| tf_name := "add";
     tf_coroutine := false;
     tf_apply := fun args kw =>
       match args, kw !! "b" with
       | [OValue (VInt a)], Some (OValue (VInt b)) => Ok (OValue (VInt (a + b)))
       | [OValue (VInt a)], None => Ok (OValue (VInt (a + 1)))
       | _, _ => Raise (Error "TypeError" [VStr "unsupported operand"])
       end |}.

Definition twice : RetryPolicy := {| max_attempts := 2; retry_on := fun _ => true |}.

End Desk.

End Tasks.

(** ** A generator function *)

Module Generators.
Import Py Func.

(** [def countdown(n): yield n; yield n - 1]. *)
Definition countdown : FunctionType :=
  {| fn_name := "countdown";
     fn_body := GeneratorBody (fun x => match x with
                                        | VInt z => [VInt z; VInt (z - 1)]
                                        | _ => []
                                        end) |}.

End Generators.

(** * Theorems *)

(** ** The graph of [entrypoint] *)

Module FuncSpec.
Import Py Constants Func.

(** *** The graph built for a plain function *)

Section EntrypointFacts.
Variables (cp : option BaseCheckpointSaver) (st : option BaseStore).

Lemma entrypoint_nodes_dom (func : FunctionType) :
  dom (nodes (entrypoint cp st func)) = {[ fn_name func ]}.
Proof.
  unfold entrypoint.
  destruct (isgeneratorfunction func), (isasyncgenfunction func);
    cbn [nodes]; apply dom_singleton_L.
Qed.

Lemma entrypoint_plain_node (func : FunctionType) :
  isgeneratorfunction func = false ->
  isasyncgenfunction func = false ->
  nodes (entrypoint cp st func) !! fn_name func =
    Some {| pn_bound := get_runnable_for_func (UserFunc func);
            pn_triggers := [START];
            pn_channels := [START];
            pn_writers := [ {| cw_writes := [mkChannelWriteEntry END];
                               cw_tags := [TAG_HIDDEN] |} ] |}.
Proof.
  intros Hg Ha. unfold entrypoint. rewrite Hg, Ha. cbn [nodes].
  apply lookup_singleton_eq.
Qed.

Lemma plain_runnable_returns (func : FunctionType) (x : pyval) :
  isgeneratorfunction func = false ->
  isasyncgenfunction func = false ->
  ro_return (get_runnable_for_func (UserFunc func) x) = return_value func x.
Proof.
  unfold isgeneratorfunction, isasyncgenfunction, get_runnable_for_func,
    call_callable, return_value.
  destruct (fn_body func); intros; simplify_eq; reflexivity.
Qed.

End EntrypointFacts.

(** C10. For a plain (non-generator) function [func], the graph that
    [entrypoint] returns has exactly one node; it is named
    [func.__name__], its only trigger and its only input channel are
    START, and running it writes exactly one value, the return value of
    [func], to END.  The graph reads its input from START and both its
    output and its stream channel are END. *)
Theorem entrypoint_plain_function_graph
    (cp : option BaseCheckpointSaver) (st : option BaseStore)
    (func : FunctionType) :
  isgeneratorfunction func = false ->
  isasyncgenfunction func = false ->
  let g := entrypoint cp st func in
  size (nodes g) = 1 /\
  (forall name, is_Some (nodes g !! name) <-> name = fn_name func) /\
  (exists n, nodes g !! fn_name func = Some n /\
     pn_triggers n = [START] /\
     pn_channels n = [START] /\
     (forall x, node_writes n x = [(END, return_value func x)])) /\
  input_channels g = START /\
  output_channels g = END /\
  stream_channels g = END.
Proof.
  intros Hg Ha g. subst g. repeat split.
  - rewrite <- size_dom, entrypoint_nodes_dom. apply size_singleton.
  - intros Hs. apply elem_of_dom in Hs.
    rewrite entrypoint_nodes_dom in Hs. set_solver.
  - intros ->. apply elem_of_dom. rewrite entrypoint_nodes_dom. set_solver.
  - eexists. split; [apply entrypoint_plain_node; assumption |].
    repeat split. intros x. unfold node_writes.
    cbn [pn_bound pn_writers map concat app].
    rewrite plain_runnable_returns by assumption. reflexivity.
  - unfold entrypoint.
    destruct (isgeneratorfunction func), (isasyncgenfunction func); reflexivity.
  - unfold entrypoint.
    destruct (isgeneratorfunction func), (isasyncgenfunction func); reflexivity.
  - unfold entrypoint.
    destruct (isgeneratorfunction func), (isasyncgenfunction func); reflexivity.
Qed.

Lemma entrypoint_plain_function_graph_witness :
  isgeneratorfunction double = false /\
  isasyncgenfunction double = false /\
  size (nodes (entrypoint None None double)) = 1.
Proof.
  split; [reflexivity | split; [reflexivity |]].
  exact (proj1 (entrypoint_plain_function_graph None None double
                  eq_refl eq_refl)).
Defined.

End FuncSpec.

(** ** The orchestrator loop *)

Module OrchestratorSpec.
Import Py Constants Orchestrator.

(** *** Reasoning about coroutines *)

Section Coroutines.
Context {W : Type}.

Lemma bind_ok {A B} (m : M W A) (k : A -> M W B) w a :
  res (m w) = Ok a ->
  bind m k w = after (events (m w)) (k a (world (m w))).
Proof. intros H. unfold bind. rewrite H. reflexivity. Qed.

Lemma bind_raise {A B} (m : M W A) (k : A -> M W B) w exc :
  res (m w) = Raise exc ->
  bind m k w = {| res := Raise exc; world := world (m w); events := events (m w) |}.
Proof. intros H. unfold bind. rewrite H. reflexivity. Qed.

Lemma try_except_ok {A} (m : M W A) (h : exn -> M W A) w a :
  res (m w) = Ok a -> try_except m h w = m w.
Proof. intros H. unfold try_except. rewrite H. reflexivity. Qed.

Lemma try_except_raise {A} (m : M W A) (h : exn -> M W A) w exc :
  res (m w) = Raise exc ->
  try_except m h w = after (events (m w)) (h exc (world (m w))).
Proof. intros H. unfold try_except. rewrite H. reflexivity. Qed.

Lemma perform_unfold {A} (ev : event) (op : W -> result A * W) w :
  perform ev op w = {| res := (op w).1; world := (op w).2; events := [ev] |}.
Proof. unfold perform. destruct (op w). reflexivity. Qed.

Lemma bind_ret_l {A B} (a : A) (k : A -> M W B) w :
  bind (ret a) k w = k a w.
Proof. unfold bind, ret, after. cbn. destruct (k a w). reflexivity. Qed.

Lemma events_bind {A B} (m : M W A) (k : A -> M W B) w :
  events (bind m k w) =
    events (m w) ++ match res (m w) with
                    | Ok a => events (k a (world (m w)))
                    | Raise _ => []
                    end.
Proof.
  unfold bind. destruct (res (m w)); cbn; rewrite ?app_nil_r; reflexivity.
Qed.

Lemma res_bind {A B} (m : M W A) (k : A -> M W B) w :
  res (bind m k w) =
    match res (m w) with
    | Ok a => res (k a (world (m w)))
    | Raise exc => Raise exc
    end.
Proof. unfold bind. destruct (res (m w)); reflexivity. Qed.

Lemma world_bind {A B} (m : M W A) (k : A -> M W B) w :
  world (bind m k w) =
    match res (m w) with
    | Ok a => world (k a (world (m w)))
    | Raise _ => world (m w)
    end.
Proof. unfold bind. destruct (res (m w)); reflexivity. Qed.

Lemma events_try_except {A} (m : M W A) (h : exn -> M W A) w :
  events (try_except m h w) =
    events (m w) ++ match res (m w) with
                    | Ok _ => []
                    | Raise exc => events (h exc (world (m w)))
                    end.
Proof.
  unfold try_except. destruct (res (m w)); cbn; rewrite ?app_nil_r; reflexivity.
Qed.

Lemma res_try_except {A} (m : M W A) (h : exn -> M W A) w :
  res (try_except m h w) =
    match res (m w) with
    | Ok a => Ok a
    | Raise exc => res (h exc (world (m w)))
    end.
Proof. unfold try_except. destruct (res (m w)) eqn:H; [exact H | reflexivity]. Qed.

Lemma world_try_except {A} (m : M W A) (h : exn -> M W A) w :
  world (try_except m h w) =
    match res (m w) with
    | Ok _ => world (m w)
    | Raise exc => world (h exc (world (m w)))
    end.
Proof. unfold try_except. destruct (res (m w)); reflexivity. Qed.

(** A bind can only succeed when its first part did. *)
Lemma bind_ok_inv {A B} (m : M W A) (k : A -> M W B) w b :
  res (bind m k w) = Ok b ->
  exists a, res (m w) = Ok a /\ res (k a (world (m w))) = Ok b.
Proof.
  unfold bind. destruct (res (m w)) as [a | exc] eqn:Hm; cbn; [| discriminate].
  intros H. exists a. split; [reflexivity | exact H].
Qed.

(** **** Counting *)

Lemma select_app (p : event -> bool) (l1 l2 : list event) :
  select p (l1 ++ l2) = select p l1 ++ select p l2.
Proof. apply filter_app. Qed.

Lemma select_cons (p : event -> bool) (ev : event) (l : list event) :
  select p (ev :: l) = if p ev then ev :: select p l else select p l.
Proof.
  unfold select. rewrite filter_cons.
  destruct (p ev) eqn:Hp.
  - rewrite decide_True by reflexivity. reflexivity.
  - rewrite decide_False by discriminate. reflexivity.
Qed.

Lemma select_none (p : event -> bool) (l : list event) :
  Forall (fun ev => p ev = false) l -> select p l = [].
Proof.
  induction 1 as [| ev l Hev _ IH]; [reflexivity |].
  rewrite select_cons, Hev. exact IH.
Qed.

Lemma count_app (p : event -> bool) (l1 l2 : list event) :
  count p (l1 ++ l2) = count p l1 + count p l2.
Proof. unfold count. rewrite select_app, length_app. reflexivity. Qed.

Lemma count_cons (p : event -> bool) (ev : event) (l : list event) :
  count p (ev :: l) = (if p ev then 1 else 0) + count p l.
Proof. unfold count. rewrite select_cons. destruct (p ev); reflexivity. Qed.

Lemma count_nil (p : event -> bool) : count p [] = 0.
Proof. reflexivity. Qed.

Lemma count_none (p : event -> bool) (l : list event) :
  Forall (fun ev => p ev = false) l -> count p l = 0.
Proof.
  induction 1 as [| ev l Hev _ IH]; [reflexivity |].
  rewrite count_cons, Hev, IH. reflexivity.
Qed.

(** **** Which events a coroutine can record *)

Lemma emits_ret {A} P (a : A) : emits P (ret a : M W A).
Proof. intros w. constructor. Qed.

Lemma emits_raise {A} P exc : emits P (raise exc : M W A).
Proof. intros w. constructor. Qed.

Lemma emits_lift {A} P (r : result A) : emits P (lift r : M W A).
Proof. intros w. constructor. Qed.

Lemma emits_log P ev : P ev -> emits P (log ev : M W unit).
Proof. intros H w. repeat constructor. exact H. Qed.

Lemma emits_perform {A} P ev (op : W -> result A * W) : P ev -> emits P (perform ev op).
Proof. intros H w. rewrite perform_unfold. repeat constructor. exact H. Qed.

Lemma emits_bind {A B} P (m : M W A) (k : A -> M W B) :
  emits P m -> (forall a, emits P (k a)) -> emits P (bind m k).
Proof.
  intros Hm Hk w. unfold bind.
  destruct (res (m w)); cbn; [| apply Hm].
  apply Forall_app. split; [apply Hm | apply Hk].
Qed.

Lemma emits_try_except {A} P (m : M W A) (h : exn -> M W A) :
  emits P m -> (forall exc, emits P (h exc)) -> emits P (try_except m h).
Proof.
  intros Hm Hh w. unfold try_except.
  destruct (res (m w)); cbn; [apply Hm |].
  apply Forall_app. split; [apply Hm | apply Hh].
Qed.

Lemma emits_gather {A} P (cs : list (M W A)) :
  Forall (emits P) cs -> emits P (gather cs).
Proof.
  induction 1 as [| c cs Hc _ IH]; intros w; cbn [gather]; [apply emits_ret |].
  cbn [events]. apply Forall_app. split; [apply Hc | apply IH].
Qed.

Lemma emits_for_each {A} P (l : list A) (body : A -> M W unit) :
  (forall x, emits P (body x)) -> emits P (for_each l body).
Proof.
  intros Hb. induction l as [| x l IH]; cbn [for_each]; [apply emits_ret |].
  apply emits_bind; [apply Hb | intros _; exact IH].
Qed.

Lemma emits_comprehension {A B} P (f : A -> result B) (l : list A) :
  emits P (comprehension f l : M W (list B)).
Proof.
  induction l as [| a l IH]; cbn [comprehension]; [apply emits_ret |].
  apply emits_bind; [apply emits_lift | intros b].
  apply emits_bind; [exact IH | intros rest; apply emits_ret].
Qed.

(** **** List comprehensions *)

Lemma comprehension_pure {A B} (f : A -> result B) (l : list A) (w : W) :
  events (comprehension f l w) = [] /\ world (comprehension f l w) = w.
Proof.
  revert w.
  induction l as [| a l IH]; intros w; cbn [comprehension]; [split; reflexivity |].
  unfold bind at 1. cbn [lift res world events].
  destruct (f a) as [b | exc]; cbn; [| split; reflexivity].
  destruct (IH w) as [Hev Hw].
  unfold bind. destruct (res (comprehension f l w)); cbn; rewrite ?Hev, ?Hw;
    split; reflexivity.
Qed.

Lemma comprehension_ok {A B} (f : A -> result B) (l : list A) (w : W) bs :
  res (comprehension f l w) = Ok bs <-> map f l = map Ok bs.
Proof.
  revert bs.
  induction l as [| a l IH]; intros bs; cbn [map comprehension].
  - cbn. split.
    + intros [= <-]. reflexivity.
    + destruct bs; [reflexivity | discriminate].
  - unfold bind at 1. cbn [lift res world events].
    destruct (f a) as [b | exc] eqn:Hfa; cbn.
    + unfold bind. destruct (res (comprehension f l w)) as [rest | exc] eqn:Hrest; cbn.
      * split.
        -- intros [= <-]. cbn. f_equal. apply IH. reflexivity.
        -- destruct bs as [| b' bs']; cbn; [discriminate |].
           intros [= <- Hl]. apply IH in Hl. congruence.
      * split; [discriminate |].
        destruct bs as [| b' bs']; cbn; [discriminate |].
        intros [= <- Hl]. apply IH in Hl. congruence.
    + split; [discriminate |].
      destruct bs; cbn; [discriminate | intros [= ? ?]; discriminate].
Qed.

Lemma comprehension_raise {A B} (f : A -> result B) (l : list A) (w : W) exc :
  res (comprehension f l w) = Raise exc -> exists a, a ∈ l /\ f a = Raise exc.
Proof.
  induction l as [| a l IH]; cbn [comprehension]; [discriminate |].
  unfold bind at 1. cbn [lift res world events].
  destruct (f a) as [b | exc'] eqn:Hfa; cbn.
  - unfold bind. destruct (res (comprehension f l w)) as [rest | exc'] eqn:Hrest; cbn;
      [discriminate |].
    intros [= ->]. destruct (IH eq_refl) as (a' & Hin & Ha').
    exists a'. split; [right; exact Hin | exact Ha'].
  - intros [= ->]. exists a. split; [left | exact Hfa].
Qed.

Lemma comprehension_fails {A B} (f : A -> result B) (l : list A) (w : W) a exc :
  a ∈ l -> f a = Raise exc ->
  exists exc', res (comprehension f l w) = Raise exc'.
Proof.
  intros Hin Hfa.
  destruct (res (comprehension f l w)) as [bs | exc'] eqn:Hr; [| eauto].
  apply comprehension_ok in Hr.
  apply list_elem_of_In, (in_map f) in Hin. rewrite Hr, Hfa in Hin.
  apply in_map_iff in Hin as (b & Hb & _). discriminate.
Qed.

End Coroutines.

(** *** The version of a SCHEDULED write and the patched config *)

Section Values.

Lemma py_max_fold (rest : list Z) (x : Z) :
  let m := fold_left (fun m y => if (m <? y)%Z then y else m) rest x in
  m ∈ x :: rest /\ forall y, y ∈ x :: rest -> (y <= m)%Z.
Proof.
  revert x. induction rest as [| y rest IH]; intros x; cbn.
  - split; [left |]. intros z Hz. apply list_elem_of_singleton in Hz. lia.
  - destruct (IH (if (x <? y)%Z then y else x)) as [Hin Hmax]. split.
    + apply elem_of_cons in Hin as [-> | Hin].
      * destruct (x <? y)%Z; [right; left | left].
      * right; right; exact Hin.
    + intros z Hz.
      assert (Hstep : (x <= if (x <? y)%Z then y else x)%Z /\
                      (y <= if (x <? y)%Z then y else x)%Z).
      { destruct (Z.ltb_spec x y); lia. }
      assert (Hhead : ((if (x <? y)%Z then y else x) <=
                       fold_left (fun m y => if (m <? y)%Z then y else m) rest
                         (if (x <? y)%Z then y else x))%Z).
      { apply Hmax. left. }
      apply elem_of_cons in Hz as [-> | Hz]; [lia |].
      apply elem_of_cons in Hz as [-> | Hz]; [lia |].
      apply Hmax. right. exact Hz.
Qed.

Lemma py_max_Some (values : list Z) (v : Z) :
  py_max values = Some v -> v ∈ values /\ forall y, y ∈ values -> (y <= v)%Z.
Proof.
  destruct values as [| x rest]; [discriminate |].
  intros [= <-]. apply py_max_fold.
Qed.

Lemma py_max_None (values : list Z) : py_max values = None <-> values = [].
Proof. destruct values; cbn; split; congruence. Qed.

Lemma elem_of_map_values (m : gmap string Z) (x : Z) :
  x ∈ (map_to_list m).*2 <-> exists ch, m !! ch = Some x.
Proof.
  rewrite list_elem_of_fmap. split.
  - intros ([ch y] & -> & Hin). exists ch. apply elem_of_map_to_list in Hin. exact Hin.
  - intros (ch & Hch). exists (ch, x). split; [reflexivity |].
    apply elem_of_map_to_list. exact Hch.
Qed.

Lemma scheduled_version_absent (ck : Checkpoint) :
  versions_seen ck !! INTERRUPT = None -> scheduled_version ck = VNone.
Proof.
  intros H. unfold scheduled_version. rewrite H. cbn [default].
  rewrite map_to_list_empty. reflexivity.
Qed.

Lemma scheduled_version_present (ck : Checkpoint) (m : gmap string Z) :
  versions_seen ck !! INTERRUPT = Some m ->
  (m = ∅ /\ scheduled_version ck = VNone) \/
  (exists v, scheduled_version ck = VInt v /\ greatest_version m v).
Proof.
  intros H. unfold scheduled_version. rewrite H.
  change (default ∅ (Some m)) with m.
  destruct (py_max (map_to_list m).*2) as [v |] eqn:Hmax.
  - right. exists v. split; [reflexivity |].
    apply py_max_Some in Hmax as [Hin Hle]. split.
    + apply elem_of_map_values. exact Hin.
    + intros ch x Hx. apply Hle, elem_of_map_values. eauto.
  - left. split; [| reflexivity].
    apply py_max_None, fmap_nil_inv, map_to_list_empty_iff in Hmax. exact Hmax.
Qed.

Lemma patch_configurable_lookup (config : RunnableConfig)
    (patch : gmap string pyval) :
  exists pc,
    configurable (patch_configurable config patch) = Some pc /\
    (forall key v, patch !! key = Some v -> pc !! key = Some v) /\
    (forall key, patch !! key = None ->
       pc !! key = default ∅ (configurable config) !! key) /\
    other_keys (patch_configurable config patch) = other_keys config.
Proof.
  unfold patch_configurable. destruct (configurable config) as [c |]; cbn.
  - exists (patch ∪ c). repeat split.
    + intros key v Hk. apply lookup_union_Some_l. exact Hk.
    + intros key Hk. apply lookup_union_r. exact Hk.
  - exists patch. repeat split.
    + auto.
    + intros key Hk. rewrite Hk, lookup_empty. reflexivity.
Qed.

End Values.

(** *** The phases of one tick *)

Section Dispatch.
Context {W : Type} {E : Collaborators W}.

Lemma gather_cons {A} (c : M W A) (cs : list (M W A)) (w : W) :
  gather (c :: cs) w =
    let o := gather cs (world (c w)) in
    {| res := match res (c w), res o with
              | Ok a, Ok rest => Ok (a :: rest)
              | Ok _, Raise exc => Raise exc
              | Raise exc, _ => Raise exc
              end;
       world := world o;
       events := events (c w) ++ events o |}.
Proof. reflexivity. Qed.

Lemma for_each_cons {A} (x : A) (l : list A) (body : A -> M W unit) (w : W) :
  for_each (x :: l) body w =
    match res (body x w) with
    | Ok _ => after (events (body x w)) (for_each l body (world (body x w)))
    | Raise exc =>
        {| res := Raise exc; world := world (body x w); events := events (body x w) |}
    end.
Proof. reflexivity. Qed.

Lemma send_unfold (topic : string) (value : Value) (w : W) :
  send topic value w =
    {| res := match (producer_send topic value w).1 with
              | Ok f => Ok {| d_fut := f; d_topic := topic; d_value := value |}
              | Raise exc => Raise exc
              end;
       world := (producer_send topic value w).2;
       events := [ESend topic value] |}.
Proof.
  unfold send, bind. rewrite perform_unfold. cbn [res world events].
  destruct (producer_send topic value w) as [[f | exc] w1]; reflexivity.
Qed.

Lemma wait_delivery_unfold (d : Delivery) (w : W) :
  wait_delivery d w =
    {| res := (future_wait (d_fut d) w).1;
       world := (future_wait (d_fut d) w).2;
       events := match (future_wait (d_fut d) w).1 with
                 | Ok _ => [EAck (d_topic d) (d_value d)]
                 | Raise _ => []
                 end |}.
Proof. unfold wait_delivery. destruct (future_wait (d_fut d) w). reflexivity. Qed.

Lemma put_writes_unfold (loop : Loop) (id : string)
    (writes : list (string * pyval)) (w : W) :
  put_writes loop id writes w =
    {| res := (loop_put_writes loop id writes w).1;
       world := (loop_put_writes loop id writes w).2;
       events := [EPutWrites id writes] |}.
Proof. apply perform_unfold. Qed.

(** The sends of one super-step: a send is recorded for every value,
    in order, also after one the producer refused; when all were
    accepted the delivery futures are those of the values, in order. *)
Lemma gather_send_spec (topic : string) (values : list Value) (w : W) :
  events (gather (map (send topic) values) w) = map (ESend topic) values /\
  (forall ds, res (gather (map (send topic) values) w) = Ok ds ->
     Forall (fun d => d_topic d = topic) ds /\ map d_value ds = values).
Proof.
  revert w. induction values as [| v values IH]; intros w.
  - split; [reflexivity |]. cbn. intros ds [= <-]. split; [constructor | reflexivity].
  - cbn [map]. rewrite gather_cons. cbn zeta. rewrite send_unfold.
    cbn [res world events].
    destruct (IH (producer_send topic v w).2) as (Hev & Hok). rewrite Hev.
    split; [reflexivity |].
    destruct (producer_send topic v w) as [[f | exc] w1]; cbn [fst snd] in *;
      [| discriminate].
    destruct (res (gather (map (send topic) values) w1)) as [ds | exc];
      [| discriminate].
    intros ds' [= <-]. destruct (Hok ds eq_refl) as [Ht Hd].
    split; [constructor; [reflexivity | exact Ht] | cbn; rewrite Hd; reflexivity].
Qed.

(** Waiting for the deliveries: an acknowledgment is recorded for each
    future that settles without a failure; when none failed, for all. *)
Lemma gather_wait_spec (ds : list Delivery) (w : W) :
  exists acked,
    events (gather (map wait_delivery ds) w) =
      map (fun d => EAck (d_topic d) (d_value d)) acked /\
    sublist acked ds /\
    (forall r, res (gather (map wait_delivery ds) w) = Ok r -> acked = ds).
Proof.
  revert w. induction ds as [| d ds IH]; intros w.
  - exists []. split; [reflexivity |]. split; [constructor | reflexivity].
  - cbn [map]. rewrite gather_cons. cbn zeta. rewrite wait_delivery_unfold.
    cbn [res world events].
    destruct (IH (future_wait (d_fut d) w).2) as (acked & Hev & Hsub & Hok).
    rewrite Hev.
    destruct (future_wait (d_fut d) w) as [[[] | exc] w1]; cbn [fst snd] in *.
    + exists (d :: acked). split; [reflexivity |].
      split; [apply sublist_skip, Hsub |].
      destruct (res (gather (map wait_delivery ds) w1)) as [r | exc];
        [| discriminate].
      intros _ _. f_equal. eauto.
    + exists acked. split; [reflexivity |].
      split; [apply sublist_cons, Hsub | discriminate].
Qed.

(** Marking the tasks: a write is recorded for the tasks up to the
    first for which [put_writes] fails, that one included. *)
Lemma for_each_put_spec (loop : Loop) (writes : list (string * pyval))
    (tasks : list PregelExecutableTask) (w : W) :
  exists k,
    events (for_each tasks (fun task => put_writes loop (task_id task) writes) w) =
      map (fun task => EPutWrites (task_id task) writes) (take k tasks) /\
    (res (for_each tasks (fun task => put_writes loop (task_id task) writes) w) = Ok tt ->
       take k tasks = tasks).
Proof.
  revert w. induction tasks as [| t tasks IH]; intros w.
  - exists 0. split; reflexivity.
  - rewrite for_each_cons, !(put_writes_unfold loop (task_id t) writes w).
    cbn [res world events].
    destruct (loop_put_writes loop (task_id t) writes w) as [[[] | exc] w1];
      cbn [fst snd res world events after].
    + destruct (IH w1) as (k & Hev & Hok). exists (S k). rewrite Hev.
      split; [reflexivity |]. intros Hr. cbn. f_equal. auto.
    + exists 1. split; [rewrite firstn_cons, take_0; reflexivity | discriminate].
Qed.

End Dispatch.

Section Tick.
Context {W : Type} {E : Collaborators W}.
Variable self : KafkaOrchestrator.

Lemma wait_for_checkpoint_events (loop : Loop) (w : W) :
  events (wait_for_checkpoint loop w) = await_events loop.
Proof.
  unfold wait_for_checkpoint, await_events, await_checkpoint.
  destruct (loop_put_checkpoint_fut loop); [rewrite perform_unfold |]; reflexivity.
Qed.

(** The acknowledgments of the deliveries of values sent to [topic]. *)
Lemma acks_of_deliveries (topic : string) (ds acked : list Delivery) :
  Forall (fun d => d_topic d = topic) ds ->
  sublist acked ds ->
  map (fun d => EAck (d_topic d) (d_value d)) acked =
    map (EAck topic) (map d_value acked).
Proof.
  intros Hds Hsub. rewrite map_map. apply map_ext_in. intros d Hin.
  rewrite Forall_forall in Hds. rewrite (Hds d); [reflexivity |].
  eapply elem_of_sublist; [apply list_elem_of_In, Hin | exact Hsub].
Qed.

(** The trace of the scheduling block: sends, then acknowledgments,
    then writes; a write is only recorded when every value was sent
    and acknowledged. *)
Lemma schedule_new_tasks_shape (loop : Loop) (w : W) :
  exists values k1 acked k3,
    events (schedule_new_tasks self loop w) =
      map (ESend (executor (topics self))) (take k1 values) ++
      map (EAck (executor (topics self))) acked ++
      map (scheduled_write loop) (take k3 (unscheduled loop)) /\
    (values = [] \/
     map (executor_message loop) (unscheduled loop) = map Ok values) /\
    (take k3 (unscheduled loop) <> [] ->
     acked = values /\
     map (executor_message loop) (unscheduled loop) = map Ok values).
Proof.
  unfold schedule_new_tasks.
  destruct (unscheduled loop) as [| t ts] eqn:Hu.
  { exists [], 0, [], 0. cbn. split; [reflexivity | split; [left; reflexivity | tauto]]. }
  rewrite <- Hu.
  set (new_tasks := unscheduled loop).
  rewrite events_bind.
  destruct (comprehension_pure (executor_message loop) new_tasks w) as [Hev0 Hw0].
  rewrite Hev0, Hw0. cbn [app].
  destruct (res (comprehension (executor_message loop) new_tasks w))
    as [values | exc] eqn:Hvals.
  2:{ exists [], 0, [], 0. cbn. split; [reflexivity | split; [left; reflexivity | tauto]]. }
  apply comprehension_ok in Hvals.
  rewrite events_bind.
  destruct (gather_send_spec (executor (topics self)) values w) as (Hev1 & Hok1).
  rewrite Hev1.
  destruct (res (gather (map (send (executor (topics self))) values) w))
    as [ds | exc] eqn:Hsend.
  2:{ exists values, (length values), [], 0. rewrite firstn_all, take_0. cbn [map].
      split; [reflexivity | split; [right; exact Hvals | tauto]]. }
  destruct (Hok1 ds eq_refl) as [Htopic Hds].
  set (w1 := world (gather (map (send (executor (topics self))) values) w)).
  rewrite events_bind.
  destruct (gather_wait_spec ds w1) as (acked & Hev2 & Hsub & Hok2).
  rewrite Hev2, (acks_of_deliveries _ ds acked Htopic Hsub).
  destruct (res (gather (map wait_delivery ds) w1)) as [r | exc] eqn:Hwait.
  2:{ exists values, (length values), (map d_value acked), 0.
      rewrite firstn_all, take_0. cbn [map].
      split; [reflexivity | split; [right; exact Hvals | tauto]]. }
  assert (Hall : map d_value acked = values).
  { rewrite (Hok2 r eq_refl). exact Hds. }
  set (w2 := world (gather (map wait_delivery ds) w1)).
  destruct (for_each_put_spec loop
              [(SCHEDULED, scheduled_version (loop_checkpoint loop))] new_tasks w2)
    as (k3 & Hev3 & _).
  rewrite Hev3.
  exists values, (length values), (map d_value acked), k3. rewrite firstn_all.
  split; [reflexivity | split; [right; exact Hvals |]].
  intros _. split; [exact Hall | exact Hvals].
Qed.

Lemma tick_unfold (loop0 : Loop) (w : W) :
  tick (graph self) loop0 w =
    {| res := (loop_tick (graph self) loop0 w).1;
       world := (loop_tick (graph self) loop0 w).2;
       events := [ETick] |}.
Proof. apply perform_unfold. Qed.

Lemma attempt_body_events (loop0 : Loop) (w : W) :
  events (attempt_body self loop0 w) =
    ETick ::
    match loop_tick (graph self) loop0 w with
    | (Ok (true, loop), w2) =>
        await_events loop ++
        match res (wait_for_checkpoint loop w2) with
        | Ok _ => events (schedule_new_tasks self loop
                            (world (wait_for_checkpoint loop w2)))
        | Raise _ => []
        end
    | _ => []
    end.
Proof.
  unfold attempt_body. rewrite events_bind, tick_unfold. cbn [res world events app].
  destruct (loop_tick (graph self) loop0 w) as [[[[] loop] | exc] w2];
    cbn [fst snd]; [| reflexivity | reflexivity].
  rewrite events_bind, wait_for_checkpoint_events. reflexivity.
Qed.

Lemma attempt_unfold (msg : MessageToOrchestrator) (w : W) input config :
  mto_input msg = Some input ->
  mto_config msg = Some config ->
  attempt self msg w =
    async_with (AsyncPregelLoop (graph self) input (ensure_config config))
      (attempt_body self) w.
Proof.
  intros Hi Hc. unfold attempt. rewrite Hi, Hc. cbn [getitem].
  rewrite !bind_ret_l. reflexivity.
Qed.

Lemma async_with_events (enter : M W Loop) (body : Loop -> M W unit) (w : W) loop0 :
  res (enter w) = Ok loop0 ->
  events (async_with enter body w) =
    events (enter w) ++
    events (body loop0 (world (enter w))) ++
    [ELoopExit match res (body loop0 (world (enter w))) with
               | Ok _ => None
               | Raise exc => Some exc
               end].
Proof.
  intros He. unfold async_with. rewrite events_bind, He. cbn [after events].
  f_equal. f_equal.
  destruct (res (body loop0 (world (enter w)))); rewrite events_bind;
    unfold aexit; rewrite perform_unfold; cbn [res world events];
    destruct (loop_aexit _ _ _) as [[b | exc'] w']; cbn [fst snd];
    try destruct b; reflexivity.
Qed.

Lemma attempt_events (msg : MessageToOrchestrator) (w : W) input config loop0 w1 :
  mto_input msg = Some input ->
  mto_config msg = Some config ->
  loop_aenter (graph self) input (ensure_config config) w = (Ok loop0, w1) ->
  events (attempt self msg w) =
    ELoopEnter input (ensure_config config) ::
    events (attempt_body self loop0 w1) ++
    [ELoopExit match res (attempt_body self loop0 w1) with
               | Ok _ => None
               | Raise exc => Some exc
               end].
Proof.
  intros Hi Hc He. rewrite (attempt_unfold msg w input config Hi Hc).
  rewrite (async_with_events _ _ _ loop0);
    unfold AsyncPregelLoop; rewrite perform_unfold, He; reflexivity.
Qed.

(** When the loop cannot be entered, the attempt records at most the
    entry. *)
Lemma attempt_events_not_entered (msg : MessageToOrchestrator) (w : W) :
  (forall input config loop0 w1,
     mto_input msg = Some input -> mto_config msg = Some config ->
     loop_aenter (graph self) input (ensure_config config) w <> (Ok loop0, w1)) ->
  Forall quiet (events (attempt self msg w)).
Proof.
  intros Hno. unfold attempt.
  destruct (mto_input msg) as [input |] eqn:Hi; cbn [getitem];
    [| rewrite events_bind; constructor].
  destruct (mto_config msg) as [config |] eqn:Hc; cbn [getitem];
    [| rewrite !bind_ret_l, events_bind; constructor].
  rewrite !bind_ret_l.
  unfold async_with. rewrite events_bind. unfold AsyncPregelLoop.
  rewrite perform_unfold. cbn [res world events].
  destruct (loop_aenter (graph self) input (ensure_config config) w)
    as [[loop0 | exc] w1] eqn:He; cbn [fst snd].
  - exfalso. eapply Hno; eauto.
  - repeat constructor.
Qed.

(** The trace of an attempt: either it has no event of the dispatch,
    or the tick reported progress and the trace is the entry, the
    tick, the wait for the checkpoint, the sends, the acknowledgments,
    the writes and the exit, in this order. *)
Lemma attempt_shape (msg : MessageToOrchestrator) (w : W) :
  Forall quiet (events (attempt self msg w)) \/
  exists loop values k1 acked k3 before exit,
    ticked self msg w loop /\
    events (attempt self msg w) =
      before ++
      map (ESend (executor (topics self))) (take k1 values) ++
      map (EAck (executor (topics self))) acked ++
      map (scheduled_write loop) (take k3 (unscheduled loop)) ++ [ELoopExit exit] /\
    Forall quiet before /\
    (values = [] \/
     map (executor_message loop) (unscheduled loop) = map Ok values) /\
    (take k3 (unscheduled loop) <> [] ->
     acked = values /\
     map (executor_message loop) (unscheduled loop) = map Ok values).
Proof.
  destruct (mto_input msg) as [input |] eqn:Hi.
  2:{ left. apply attempt_events_not_entered. intros; congruence. }
  destruct (mto_config msg) as [config |] eqn:Hc.
  2:{ left. apply attempt_events_not_entered. intros; congruence. }
  destruct (loop_aenter (graph self) input (ensure_config config) w)
    as [[loop0 | exc] w1] eqn:He.
  2:{ left. apply attempt_events_not_entered. intros; congruence. }
  rewrite (attempt_events msg w input config loop0 w1 Hi Hc He).
  rewrite attempt_body_events.
  destruct (loop_tick (graph self) loop0 w1) as [[[[] loop] | exc] w2] eqn:Ht.
  2,3: left; repeat constructor.
  destruct (res (wait_for_checkpoint loop w2)) as [[] | exc] eqn:Hw.
  2:{ left. rewrite app_nil_r. constructor; [repeat constructor |].
      constructor; [repeat constructor |].
      apply Forall_app. split; [| repeat constructor].
      unfold await_events. destruct (loop_put_checkpoint_fut loop); repeat constructor. }
  right.
  destruct (schedule_new_tasks_shape loop (world (wait_for_checkpoint loop w2)))
    as (values & k1 & k2 & k3 & Hev & Hvals & Hpw).
  rewrite Hev.
  exists loop, values, k1, k2, k3,
    (ELoopEnter input (ensure_config config) :: ETick :: await_events loop).
  eexists. split; [exists input, config, loop0, w1, w2; auto |].
  split; [cbn; rewrite <- !app_assoc; reflexivity |].
  split; [| split; assumption].
  constructor; [repeat constructor |]. constructor; [repeat constructor |].
  unfold await_events. destruct (loop_put_checkpoint_fut loop); repeat constructor.
Qed.

Lemma app_split_at (p : event -> bool) (l1 l2 pre suf : list event) (x : event) :
  Forall (fun ev => p ev = false) l1 ->
  p x = true ->
  l1 ++ l2 = pre ++ x :: suf ->
  exists mid, pre = l1 ++ mid /\ l2 = mid ++ x :: suf.
Proof.
  intros Hl1 Hx. revert pre.
  induction Hl1 as [| y l1 Hy _ IH]; intros pre Heq.
  - exists pre. split; [reflexivity | exact Heq].
  - destruct pre as [| z pre]; cbn in Heq.
    + injection Heq as -> _. congruence.
    + injection Heq as -> Heq. destruct (IH pre Heq) as (mid & -> & ->).
      exists mid. split; reflexivity.
Qed.

Lemma map_Ok_elem {A B} (f : A -> result B) (l : list A) (values : list B) (a : A) :
  map f l = map Ok values -> a ∈ l -> exists b, f a = Ok b /\ b ∈ values.
Proof.
  intros Heq Hin. apply list_elem_of_In, (in_map f) in Hin. rewrite Heq in Hin.
  apply in_map_iff in Hin as (b & Hb & Hin). exists b.
  split; [symmetry; exact Hb | apply list_elem_of_In; exact Hin].
Qed.

Lemma map_Ok_source {A B} (f : A -> result B) (l : list A) (values : list B) (b : B) :
  map f l = map Ok values -> b ∈ values -> exists a, a ∈ l /\ f a = Ok b.
Proof.
  intros Heq Hin. apply list_elem_of_In, (in_map Ok) in Hin. rewrite <- Heq in Hin.
  apply in_map_iff in Hin as (a & Ha & Hin). exists a.
  split; [apply list_elem_of_In; exact Hin | exact Ha].
Qed.

Lemma quiet_not_put_writes (l : list event) :
  Forall quiet l -> Forall (fun ev => is_put_writes ev = false) l.
Proof. intros H. eapply Forall_impl; [exact H |]. intros ev (_ & _ & Hp). exact Hp. Qed.

Lemma quiet_not_send (l : list event) :
  Forall quiet l -> Forall (fun ev => is_send ev = false) l.
Proof. intros H. eapply Forall_impl; [exact H |]. intros ev (Hp & _ & _). exact Hp. Qed.

(** A write that an attempt records marks one of the unscheduled tasks
    of its tick, and by then every value was acknowledged. *)
Lemma put_writes_of_attempt (msg : MessageToOrchestrator) (w : W)
    (pre suf : list event) (id : string) (writes : list (string * pyval)) :
  events (attempt self msg w) = pre ++ EPutWrites id writes :: suf ->
  exists loop values task,
    ticked self msg w loop /\
    task ∈ unscheduled loop /\
    EPutWrites id writes = scheduled_write loop task /\
    map (executor_message loop) (unscheduled loop) = map Ok values /\
    forall value, value ∈ values -> EAck (executor (topics self)) value ∈ pre.
Proof.
  intros Htr.
  destruct (attempt_shape msg w) as
    [Hq | (loop & values & k1 & k2 & k3 & before & exit & Ht & Hev & Hb & _ & Hpw)].
  { rewrite Htr in Hq. apply Forall_app in Hq as [_ Hq].
    apply Forall_cons in Hq as [(_ & _ & Hq) _]. discriminate. }
  rewrite Htr in Hev. symmetry in Hev. rewrite !app_assoc in Hev.
  rewrite <- (app_assoc _ _ [ELoopExit exit]) in Hev.
  apply (app_split_at is_put_writes) in Hev as (mid & Hpre & Hrest); [| | reflexivity].
  2:{ rewrite !Forall_app. repeat split.
      - apply quiet_not_put_writes, Hb.
      - apply Forall_map, Forall_forall. reflexivity.
      - apply Forall_map, Forall_forall. reflexivity. }
  assert (Hin : EPutWrites id writes ∈
                map (scheduled_write loop) (take k3 (unscheduled loop))).
  { assert (Hin : EPutWrites id writes ∈
                  map (scheduled_write loop) (take k3 (unscheduled loop)) ++
                  [ELoopExit exit]).
    { rewrite Hrest. apply elem_of_app. right. left. }
    apply elem_of_app in Hin as [Hin | Hin]; [exact Hin |].
    apply list_elem_of_singleton in Hin. discriminate. }
  apply list_elem_of_fmap in Hin as (task & Htask & Hin).
  assert (Hne : take k3 (unscheduled loop) <> []).
  { intros Hnil. rewrite Hnil in Hin. inversion Hin. }
  destruct (Hpw Hne) as [Hack Hvals].
  exists loop, values, task. repeat split; try assumption.
  - eapply subseteq_take, Hin.
  - intros value Hvalue. rewrite Hpre, Hack.
    apply elem_of_app. left. apply elem_of_app. right.
    apply list_elem_of_fmap. exists value. split; [reflexivity | exact Hvalue].
Qed.

(** C1. Send before mark: whenever an attempt records the SCHEDULED
    write of a task, the tick of that attempt reported progress, the
    task is one of its unscheduled tasks, and for every unscheduled task
    of the tick the acknowledgment of its executor message is already in
    the trace, before that write. *)
Theorem send_before_mark (msg : MessageToOrchestrator) (w : W)
    (pre suf : list event) (id : string) (writes : list (string * pyval)) :
  events (attempt self msg w) = pre ++ EPutWrites id writes :: suf ->
  exists loop,
    ticked self msg w loop /\
    (exists task, task ∈ unscheduled loop /\ task_id task = id) /\
    forall task, task ∈ unscheduled loop ->
      exists value,
        executor_message loop task = Ok value /\
        EAck (executor (topics self)) value ∈ pre.
Proof.
  intros Htr.
  destruct (put_writes_of_attempt msg w pre suf id writes Htr)
    as (loop & values & task & Ht & Hin & Hev & Hvals & Hack).
  exists loop. split; [exact Ht |]. split.
  - exists task. split; [exact Hin |]. injection Hev as -> _. reflexivity.
  - intros task' Hin'.
    destruct (map_Ok_elem _ _ _ _ Hvals Hin') as (value & Hvalue & Hmem).
    exists value. split; [exact Hvalue | apply Hack, Hmem].
Qed.

(** C6. The SCHEDULED write of a task carries the greatest version of
    [versions_seen[INTERRUPT]] of the checkpoint the tick left, and
    [None] when that entry is absent (or empty). *)
Theorem scheduled_write_version (msg : MessageToOrchestrator) (w : W)
    (id : string) (writes : list (string * pyval)) :
  EPutWrites id writes ∈ events (attempt self msg w) ->
  exists loop value,
    ticked self msg w loop /\
    (exists task, task ∈ unscheduled loop /\ task_id task = id) /\
    writes = [(SCHEDULED, value)] /\
    match versions_seen (loop_checkpoint loop) !! INTERRUPT with
    | None => value = VNone
    | Some seen =>
        (seen = ∅ /\ value = VNone) \/
        (exists v, value = VInt v /\ greatest_version seen v)
    end.
Proof.
  intros Hin. apply list_elem_of_split in Hin as (pre & suf & Htr).
  destruct (put_writes_of_attempt msg w pre suf id writes Htr)
    as (loop & values & task & Ht & Hin & Hev & _ & _).
  exists loop, (scheduled_version (loop_checkpoint loop)).
  injection Hev as -> ->.
  split; [exact Ht |]. split; [exists task; auto |]. split; [reflexivity |].
  destruct (versions_seen (loop_checkpoint loop) !! INTERRUPT) as [seen |] eqn:Hseen.
  - apply scheduled_version_present, Hseen.
  - apply scheduled_version_absent, Hseen.
Qed.

(** A send that an attempt records carries the executor message of one
    of the unscheduled tasks of its tick. *)
Lemma send_of_attempt (msg : MessageToOrchestrator) (w : W)
    (topic : string) (value : Value) :
  ESend topic value ∈ events (attempt self msg w) ->
  exists loop task,
    ticked self msg w loop /\
    task ∈ unscheduled loop /\
    topic = executor (topics self) /\
    executor_message loop task = Ok value.
Proof.
  intros Hin.
  destruct (attempt_shape msg w) as
    [Hq | (loop & values & k1 & k2 & k3 & before & exit & Ht & Hev & Hb & Hvals & _)].
  { apply quiet_not_send in Hq. rewrite Forall_forall in Hq.
    specialize (Hq _ Hin). discriminate. }
  rewrite Hev in Hin. rewrite !elem_of_app in Hin.
  destruct Hin as [Hin | [Hin | [Hin | [Hin | Hin]]]].
  - apply quiet_not_send in Hb. rewrite Forall_forall in Hb.
    specialize (Hb _ Hin). discriminate.
  - apply list_elem_of_fmap in Hin as (value' & [= -> <-] & Hin).
    apply subseteq_take in Hin.
    destruct Hvals as [-> | Hvals]; [inversion Hin |].
    destruct (map_Ok_source _ _ _ _ Hvals Hin) as (task & Htask & Hm).
    exists loop, task. auto.
  - apply list_elem_of_fmap in Hin as (? & [=] & _).
  - apply list_elem_of_fmap in Hin as (? & [=] & _).
  - apply list_elem_of_singleton in Hin. discriminate.
Qed.

(** C7. Every message an attempt sends goes to the executor topic and is
    the [MessageToExecutor] of one unscheduled task of the tick: its
    task record holds that task's id and path, and its config is the
    config of the run patched with the [configurable] entries of the
    checkpoint config the tick left, plus the dedupe key set to true.
    In the patched [configurable] the dedupe key is true, the keys of
    the checkpoint config have the checkpoint's values, the remaining
    keys have the values of the run's config; the keys outside
    [configurable] are those of the run's config. *)
Theorem executor_message_config (msg : MessageToOrchestrator) (w : W)
    (topic : string) (value : Value) :
  ESend topic value ∈ events (attempt self msg w) ->
  exists loop task checkpoint_ids m,
    ticked self msg w loop /\
    task ∈ unscheduled loop /\
    configurable (loop_checkpoint_config loop) = Some checkpoint_ids /\
    topic = executor (topics self) /\
    value = ToExecutor m /\
    mte_task m = {| et_id := task_id task; et_path := task_path task |} /\
    mte_config m =
      patch_configurable (loop_config loop)
        (<[CONFIG_KEY_DEDUPE_TASKS := VBool true]> checkpoint_ids) /\
    exists patched,
      configurable (mte_config m) = Some patched /\
      patched !! CONFIG_KEY_DEDUPE_TASKS = Some (VBool true) /\
      (forall key v, key <> CONFIG_KEY_DEDUPE_TASKS ->
         checkpoint_ids !! key = Some v -> patched !! key = Some v) /\
      (forall key, key <> CONFIG_KEY_DEDUPE_TASKS ->
         checkpoint_ids !! key = None ->
         patched !! key = default ∅ (configurable (loop_config loop)) !! key) /\
      other_keys (mte_config m) = other_keys (loop_config loop).
Proof.
  intros Hin.
  destruct (send_of_attempt msg w topic value Hin) as (loop & task & Ht & Htask & -> & Hm).
  unfold executor_message in Hm.
  destruct (configurable (loop_checkpoint_config loop)) as [c |] eqn:Hc; [| discriminate].
  injection Hm as <-.
  eexists loop, task, c, _.
  split; [exact Ht |]. split; [exact Htask |]. split; [exact Hc |].
  split; [reflexivity |]. split; [reflexivity |]. split; [reflexivity |].
  split; [reflexivity |]. cbn [mte_config].
  destruct (patch_configurable_lookup (loop_config loop)
              (<[CONFIG_KEY_DEDUPE_TASKS := VBool true]> c))
    as (pc & Hpc & Hpatch & Hkeep & Hother).
  exists pc. split; [exact Hpc |]. split; [| split; [| split]].
  - apply Hpatch, lookup_insert_eq.
  - intros key v Hne Hv. apply Hpatch. rewrite lookup_insert_ne by congruence. exact Hv.
  - intros key Hne Hv. apply Hkeep. rewrite lookup_insert_ne by congruence. exact Hv.
  - exact Hother.
Qed.

Lemma await_events_quiet (loop : Loop) : Forall quiet (await_events loop).
Proof.
  unfold await_events. destruct (loop_put_checkpoint_fut loop); repeat constructor.
Qed.

Lemma await_events_count (loop : Loop) :
  count is_await_checkpoint (await_events loop) = length (await_events loop).
Proof. unfold await_events. destruct (loop_put_checkpoint_fut loop); reflexivity. Qed.

Lemma schedule_nothing (loop : Loop) (w : W) :
  unscheduled loop = [] ->
  schedule_new_tasks self loop w = ret tt w.
Proof. intros Hu. unfold schedule_new_tasks. rewrite Hu. reflexivity. Qed.

(** C8. When the tick of an attempt reports no progress, the attempt
    enters the loop, ticks and leaves: it waits for no checkpoint, sends
    nothing and writes nothing.  When the tick reports progress and no
    task is unscheduled, the attempt still waits for the checkpoint
    (on the future the loop exposes, when it exposes one) before it
    leaves, and again sends nothing and writes nothing. *)
Theorem attempt_without_new_tasks (msg : MessageToOrchestrator) (w : W)
    input config loop0 w1 (progress : bool) loop w2 :
  mto_input msg = Some input ->
  mto_config msg = Some config ->
  loop_aenter (graph self) input (ensure_config config) w = (Ok loop0, w1) ->
  loop_tick (graph self) loop0 w1 = (Ok (progress, loop), w2) ->
  progress = false \/ unscheduled loop = [] ->
  let tr := events (attempt self msg w) in
  (exists exit,
     tr = [ELoopEnter input (ensure_config config); ETick] ++
          (if progress then await_events loop else []) ++
          [ELoopExit exit] /\
     (progress = false -> exit = None)) /\
  count is_await_checkpoint tr =
    (if progress then length (await_events loop) else 0) /\
  count is_send tr = 0 /\
  count is_ack tr = 0 /\
  count is_put_writes tr = 0.
Proof.
  intros Hi Hc He Ht Hcase tr.
  assert (Hshape : exists exit,
     tr = [ELoopEnter input (ensure_config config); ETick] ++
          (if progress then await_events loop else []) ++
          [ELoopExit exit] /\
     (progress = false -> exit = None)).
  { subst tr. rewrite (attempt_events msg w input config loop0 w1 Hi Hc He).
    rewrite attempt_body_events.
    unfold attempt_body. rewrite res_bind, tick_unfold, Ht. cbn [res world fst snd].
    destruct progress.
    - destruct Hcase as [Hp | Hu]; [discriminate |].
      rewrite res_bind.
      destruct (res (wait_for_checkpoint loop w2)) as [[] | exc].
      + rewrite (schedule_nothing loop _ Hu). cbn [ret res events].
        eexists. split; [cbn; rewrite app_nil_r; reflexivity | discriminate].
      + eexists. split; [cbn; rewrite app_nil_r; reflexivity | discriminate].
    - eexists. split; [reflexivity | reflexivity]. }
  split; [exact Hshape |].
  destruct Hshape as (exit & -> & _).
  set (mid := if progress then await_events loop else []).
  assert (Hmid : Forall quiet mid).
  { subst mid. destruct progress; [apply await_events_quiet | constructor]. }
  assert (Hq : Forall quiet
                 ([ELoopEnter input (ensure_config config); ETick] ++ mid ++
                  [ELoopExit exit])).
  { apply Forall_app. split; [repeat constructor |].
    apply Forall_app. split; [exact Hmid | repeat constructor]. }
  split; [| repeat split; apply count_none].
  - rewrite !count_app, !count_cons, !count_nil. cbn [is_await_checkpoint].
    subst mid. destruct progress; [rewrite await_events_count; lia | reflexivity].
  - apply quiet_not_send, Hq.
  - eapply Forall_impl; [exact Hq |]. intros ev (_ & Hp & _). exact Hp.
  - apply quiet_not_put_writes, Hq.
Qed.

End Tick.

(** *** One message under the Retry Harness *)

Section Harness.
Context {W : Type} {E : Collaborators W}.
Variable self : KafkaOrchestrator.

Lemma emits_weaken {A} (P Q : event -> Prop) (m : M W A) :
  (forall ev, P ev -> Q ev) -> emits P m -> emits Q m.
Proof. intros HPQ Hm w. eapply Forall_impl; [apply Hm | exact HPQ]. Qed.

Lemma emits_wait_delivery (d : Delivery) : emits attempt_event (wait_delivery d).
Proof.
  intros w. rewrite wait_delivery_unfold. cbn [events].
  destruct (future_wait (d_fut d) w).1; repeat constructor.
Qed.

Lemma emits_send (topic : string) (value : Value) : emits attempt_event (send topic value).
Proof. intros w. rewrite send_unfold. repeat constructor. Qed.

Lemma emits_schedule_new_tasks (loop : Loop) :
  emits attempt_event (schedule_new_tasks self loop).
Proof.
  unfold schedule_new_tasks. destruct (unscheduled loop); [apply emits_ret |].
  apply emits_bind; [apply emits_comprehension | intros values].
  apply emits_bind.
  { apply emits_gather, Forall_map, Forall_forall. intros v _. apply emits_send. }
  intros futures. apply emits_bind.
  { apply emits_gather, Forall_map, Forall_forall. intros d _. apply emits_wait_delivery. }
  intros _. apply emits_for_each. intros task. apply emits_perform. exact I.
Qed.

Lemma emits_attempt_body (loop0 : Loop) : emits attempt_event (attempt_body self loop0).
Proof.
  unfold attempt_body. apply emits_bind; [apply emits_perform; exact I |].
  intros [[] loop]; cbn [fst snd]; [| apply emits_ret].
  apply emits_bind; [| intros _; apply emits_schedule_new_tasks].
  unfold wait_for_checkpoint. destruct (loop_put_checkpoint_fut loop);
    [apply emits_perform; exact I | apply emits_ret].
Qed.

Lemma emits_async_with (enter : M W Loop) (body : Loop -> M W unit) :
  emits attempt_event enter ->
  (forall loop, emits attempt_event (body loop)) ->
  emits attempt_event (async_with enter body).
Proof.
  intros He Hb. unfold async_with. apply emits_bind; [exact He |].
  intros loop w. cbn [after events]. apply Forall_app. split; [apply Hb |].
  destruct (res (body loop w)).
  - apply emits_bind; [apply emits_perform; exact I | intros _; apply emits_ret].
  - apply emits_bind; [apply emits_perform; exact I |].
    intros []; [apply emits_ret | apply emits_raise].
Qed.

Lemma emits_attempt (msg : MessageToOrchestrator) : emits attempt_event (attempt self msg).
Proof.
  unfold attempt.
  apply emits_bind.
  { unfold getitem. destruct (mto_input msg); [apply emits_ret | apply emits_raise]. }
  intros input. apply emits_bind.
  { unfold getitem. destruct (mto_config msg); [apply emits_ret | apply emits_raise]. }
  intros config. apply emits_async_with.
  - apply emits_perform. exact I.
  - apply emits_attempt_body.
Qed.

Lemma emits_retry_loop {A} (P : event -> Prop) (policy : RetryPolicy) (retries : nat)
    (op : M W A) :
  P ESleep -> emits P op -> emits P (retry_loop policy retries op).
Proof.
  intros Hs Hop. induction retries as [| n IH]; cbn [retry_loop].
  - apply emits_try_except; [exact Hop | intros exc; apply emits_raise].
  - apply emits_try_except; [exact Hop | intros exc].
    destruct (retry_on policy exc); [| apply emits_raise].
    apply emits_bind; [apply emits_perform; exact Hs | intros _; exact IH].
Qed.

(** The harness records its own call first; what follows are attempts
    on the same message, sleeps, and the events of the attempts. *)
Lemma harness_events (msg : MessageToOrchestrator) (w : W) :
  exists rest,
    events (harness self msg w) = EDispatch msg :: rest /\
    Forall (harness_event msg) rest.
Proof.
  unfold harness, aretry. rewrite events_bind. cbn [log res world events app].
  eexists. split; [reflexivity |].
  assert (Hop : emits (harness_event msg) (_ <- log (EAttempt msg) ;; attempt self msg)).
  { apply emits_bind; [apply emits_log; left; reflexivity | intros _].
    eapply emits_weaken; [| apply emits_attempt].
    intros ev Hev. right. right. exact Hev. }
  destruct (retry_policy self) as [policy |]; [| apply Hop].
  apply emits_retry_loop; [right; left; reflexivity | exact Hop].
Qed.

(** Without a policy the harness makes a single attempt. *)
Lemma harness_events_no_policy (msg : MessageToOrchestrator) (w : W) :
  retry_policy self = None ->
  events (harness self msg w) = EDispatch msg :: EAttempt msg :: events (attempt self msg w).
Proof.
  intros Hp. unfold harness, aretry. rewrite Hp.
  rewrite !events_bind. reflexivity.
Qed.

Lemma attempt_select_attempt (msg : MessageToOrchestrator) (w : W) :
  select is_attempt (events (attempt self msg w)) = [].
Proof.
  apply select_none. eapply Forall_impl; [apply emits_attempt |].
  intros ev Hev. destruct ev; try reflexivity; contradiction.
Qed.

Lemma retry_loop_select_attempt (policy : RetryPolicy) (retries : nat)
    (msg : MessageToOrchestrator) (w : W) :
  exists n,
    1 <= n <= S retries /\
    select is_attempt
      (events (retry_loop policy retries
                 (_ <- log (EAttempt msg) ;; attempt self msg) w)) =
      replicate n (EAttempt msg).
Proof.
  set (op := _ <- log (EAttempt msg) ;; attempt self msg).
  assert (Hop : forall w0, select is_attempt (events (op w0)) = [EAttempt msg]).
  { intros w0. unfold op. rewrite events_bind. cbn [log res world events app].
    rewrite select_cons, attempt_select_attempt. reflexivity. }
  revert w. induction retries as [| k IH]; intros w; cbn [retry_loop];
    rewrite events_try_except, select_app, Hop;
    destruct (res (op w)) as [a | exc].
  - exists 1. split; [lia | reflexivity].
  - exists 1. split; [lia | reflexivity].
  - exists 1. split; [lia | reflexivity].
  - destruct (retry_on policy exc); [| exists 1; split; [lia | reflexivity]].
    rewrite events_bind. unfold sleep at 1 2. rewrite perform_unfold.
    cbn [res world events fst snd app]. rewrite select_cons. cbn [is_attempt].
    destruct (IH (world (sleep (world (op w))))) as (n & Hn & ->).
    exists (S n). split; [lia | reflexivity].
Qed.

(** The attempts of one call of the harness: at least one, at most as
    many as the policy allows, all on the same message. *)
Lemma harness_select_attempt (msg : MessageToOrchestrator) (w : W) :
  exists n,
    1 <= n <= attempts_allowed self /\
    select is_attempt (events (harness self msg w)) = replicate n (EAttempt msg).
Proof.
  unfold harness, aretry, attempts_allowed.
  rewrite events_bind. cbn [log res world events app]. rewrite select_cons.
  cbn [is_attempt].
  destruct (retry_policy self) as [policy |].
  - destruct (retry_loop_select_attempt policy (max_attempts policy - 1) msg w)
      as (n & Hn & ->).
    exists n. split; [lia | reflexivity].
  - exists 1. split; [lia |].
    rewrite events_bind. cbn [log res world events app].
    rewrite select_cons, attempt_select_attempt. reflexivity.
Qed.

(** When the harness gives up, the failure it surfaces is the failure
    of an attempt. *)
Lemma retry_loop_raise {A} (policy : RetryPolicy) (retries : nat) (op : M W A)
    (w : W) (exc : exn) :
  res (retry_loop policy retries op w) = Raise exc ->
  exists w', res (op w') = Raise exc.
Proof.
  revert w. induction retries as [| n IH]; intros w; cbn [retry_loop];
    rewrite res_try_except; destruct (res (op w)) as [a | exc'] eqn:Hop;
    try discriminate.
  - cbn. intros [= <-]. eauto.
  - destruct (retry_on policy exc'); [| cbn; intros [= <-]; eauto].
    rewrite res_bind. unfold sleep. rewrite perform_unfold. cbn [res world fst snd].
    apply IH.
Qed.

Lemma harness_raise (msg : MessageToOrchestrator) (w : W) (exc : exn) :
  res (harness self msg w) = Raise exc ->
  exists w', res (attempt self msg w') = Raise exc.
Proof.
  unfold harness, aretry. rewrite res_bind. cbn [log res world].
  destruct (retry_policy self) as [policy |].
  - intros H. apply retry_loop_raise in H as (w' & H).
    rewrite res_bind in H. cbn [log res world] in H. eauto.
  - rewrite res_bind. cbn [log res world]. eauto.
Qed.

End Harness.

(** *** One iteration of the loop *)

Section Batch.
Context {W : Type} {E : Collaborators W}.
Variable self : KafkaOrchestrator.

Lemma each_events (msg : MessageToOrchestrator) (w : W) :
  events (each self msg w) =
    events (harness self msg w) ++
    match res (harness self msg w) with
    | Ok _ => []
    | Raise exc => [ESendAndWait (error (topics self)) (error_message self msg exc)]
    end.
Proof.
  unfold each. fold (harness self msg). rewrite events_try_except.
  destruct (res (harness self msg w)); [reflexivity |].
  unfold send_and_wait. rewrite perform_unfold. reflexivity.
Qed.

Lemma each_res (msg : MessageToOrchestrator) (w : W) :
  res (each self msg w) =
    match res (harness self msg w) with
    | Ok a => Ok a
    | Raise exc =>
        (producer_send_and_wait (error (topics self)) (error_message self msg exc)
           (world (harness self msg w))).1
    end.
Proof.
  unfold each. fold (harness self msg). rewrite res_try_except.
  destruct (res (harness self msg w)); [reflexivity |].
  unfold send_and_wait. rewrite perform_unfold. reflexivity.
Qed.

Lemma each_world (msg : MessageToOrchestrator) (w : W) :
  world (each self msg w) =
    match res (harness self msg w) with
    | Ok _ => world (harness self msg w)
    | Raise exc =>
        (producer_send_and_wait (error (topics self)) (error_message self msg exc)
           (world (harness self msg w))).2
    end.
Proof.
  unfold each. fold (harness self msg). rewrite world_try_except.
  destruct (res (harness self msg w)); [reflexivity |].
  unfold send_and_wait. rewrite perform_unfold. reflexivity.
Qed.

(** A gather over [each] that returns has processed every message. *)
Lemma gather_each_processed (msgs : list MessageToOrchestrator) (w : W) rs :
  res (gather (map (each self) msgs) w) = Ok rs ->
  processed self msgs w (events (gather (map (each self) msgs) w))
    (world (gather (map (each self) msgs) w)).
Proof.
  revert w rs. induction msgs as [| msg msgs IH]; intros w rs; cbn [map].
  - intros _. constructor.
  - rewrite gather_cons.
    destruct (res (each self msg w)) as [[] | exc] eqn:Heach; [| discriminate].
    cbn [res world events].
    destruct (res (gather (map (each self) msgs) (world (each self msg w))))
      as [rest | exc] eqn:Hrest; [| discriminate].
    intros _. specialize (IH _ _ Hrest).
    rewrite each_res in Heach. rewrite each_events. rewrite each_world in IH |- *.
    destruct (res (harness self msg w)) as [[] | exc] eqn:Hh.
    + rewrite app_nil_r. apply processed_ok; assumption.
    + rewrite <- app_assoc. cbn [app].
      destruct (producer_send_and_wait _ _ _) as [r w1] eqn:Hsend.
      cbn [fst snd] in *. subst r.
      eapply processed_routed; eassumption.
Qed.

(** Conversely, such a processing is what the gather does. *)
Lemma processed_gather (msgs : list MessageToOrchestrator) (w : W) evs w' :
  processed self msgs w evs w' ->
  exists rs,
    res (gather (map (each self) msgs) w) = Ok rs /\
    events (gather (map (each self) msgs) w) = evs /\
    world (gather (map (each self) msgs) w) = w'.
Proof.
  induction 1 as [w | msg msgs w evs w' Hh _ (rs & Hr & Hev & Hw)
                  | msg msgs w exc w1 evs w' Hh Hsend _ (rs & Hr & Hev & Hw)];
    cbn [map].
  - exists []. repeat split.
  - rewrite gather_cons, each_res, each_events, each_world, Hh.
    cbn [res world events]. rewrite Hr, Hev, Hw, app_nil_r. eauto.
  - rewrite gather_cons, each_res, each_events, each_world, Hh, Hsend.
    cbn [fst snd res world events]. rewrite Hr, Hev, Hw, <- app_assoc. eauto.
Qed.

(** If the error topic accepts every record, every message of a batch
    gets processed. *)
Lemma processed_total (msgs : list MessageToOrchestrator) (w : W) :
  (forall value w', (producer_send_and_wait (error (topics self)) value w').1 = Ok tt) ->
  exists evs w', processed self msgs w evs w'.
Proof.
  intros Hrel. revert w. induction msgs as [| msg msgs IH]; intros w.
  - exists [], w. constructor.
  - destruct (res (harness self msg w)) as [[] | exc] eqn:Hh.
    + destruct (IH (world (harness self msg w))) as (evs & w' & Hp).
      eexists _, w'. apply processed_ok; eassumption.
    + destruct (producer_send_and_wait (error (topics self))
                  (error_message self msg exc) (world (harness self msg w)))
        as [r w1] eqn:Hsend.
      assert (r = Ok tt) as -> by (rewrite <- (Hrel (error_message self msg exc)
                                              (world (harness self msg w))), Hsend;
                                    reflexivity).
      destruct (IH w1) as (evs & w' & Hp).
      eexists _, w'. eapply processed_routed; eassumption.
Qed.

Lemma processed_app msgs1 msgs2 w evs1 w' evs2 w'' :
  processed self msgs1 w evs1 w' ->
  processed self msgs2 w' evs2 w'' ->
  processed self (msgs1 ++ msgs2) w (evs1 ++ evs2) w''.
Proof.
  intros H1 H2.
  induction H1 as [w | msg msgs w evs w' Hh _ IH
                   | msg msgs w exc w1 evs w' Hh Hsend _ IH].
  - exact H2.
  - rewrite <- app_assoc. cbn [app]. apply processed_ok; auto.
  - rewrite <- app_assoc. cbn [app]. eapply processed_routed; eauto.
Qed.

Lemma harness_select_dispatch (msg : MessageToOrchestrator) (w : W) :
  select is_dispatch (events (harness self msg w)) = [EDispatch msg].
Proof.
  destruct (harness_events self msg w) as (rest & -> & Hrest).
  rewrite select_cons. cbn [is_dispatch]. f_equal. apply select_none.
  eapply Forall_impl; [exact Hrest |].
  intros ev [-> | [-> | Hev]]; [reflexivity | reflexivity |].
  destruct ev; try reflexivity; contradiction.
Qed.

Lemma harness_no_commit (msg : MessageToOrchestrator) (w : W) :
  Forall (fun ev => is_commit ev = false /\ is_error_record ev = false)
    (events (harness self msg w)).
Proof.
  destruct (harness_events self msg w) as (rest & -> & Hrest).
  constructor; [split; reflexivity |].
  eapply Forall_impl; [exact Hrest |].
  intros ev [-> | [-> | Hev]]; [split; reflexivity | split; reflexivity |].
  destruct ev; try (split; reflexivity); contradiction.
Qed.

Lemma processed_select_dispatch msgs w evs w' :
  processed self msgs w evs w' -> select is_dispatch evs = map EDispatch msgs.
Proof.
  induction 1 as [w | msg msgs w evs w' Hh _ IH
                  | msg msgs w exc w1 evs w' Hh Hsend _ IH]; [reflexivity | |].
  - rewrite select_app, harness_select_dispatch, IH. reflexivity.
  - rewrite select_app, harness_select_dispatch, select_cons, IH. reflexivity.
Qed.

Lemma processed_no_commit msgs w evs w' :
  processed self msgs w evs w' -> Forall (fun ev => is_commit ev = false) evs.
Proof.
  induction 1 as [w | msg msgs w evs w' Hh _ IH
                  | msg msgs w exc w1 evs w' Hh Hsend _ IH]; [constructor | |].
  - apply Forall_app. split; [| exact IH].
    eapply Forall_impl; [apply harness_no_commit |]. intros ev [Hc _]. exact Hc.
  - apply Forall_app. split; [| constructor; [reflexivity | exact IH]].
    eapply Forall_impl; [apply harness_no_commit |]. intros ev [Hc _]. exact Hc.
Qed.

Lemma processed_select_attempt msgs w evs w' :
  processed self msgs w evs w' ->
  exists ns,
    length ns = length msgs /\
    Forall (fun n => 1 <= n <= attempts_allowed self) ns /\
    select is_attempt evs = attempts_of ns msgs.
Proof.
  induction 1 as [w | msg msgs w evs w' Hh _ (ns & Hlen & Hns & IH)
                  | msg msgs w exc w1 evs w' Hh Hsend _ (ns & Hlen & Hns & IH)].
  - exists []. repeat split. constructor.
  - destruct (harness_select_attempt self msg w) as (n & Hn & Hsel).
    exists (n :: ns). split; [cbn; congruence |]. split; [constructor; assumption |].
    rewrite select_app, Hsel, IH. reflexivity.
  - destruct (harness_select_attempt self msg w) as (n & Hn & Hsel).
    exists (n :: ns). split; [cbn; congruence |]. split; [constructor; assumption |].
    rewrite select_app, Hsel, select_cons, IH. reflexivity.
Qed.

(** With a single attempt allowed, one attempt per message. *)
Lemma attempts_of_once (ns : list nat) (msgs : list MessageToOrchestrator) :
  length ns = length msgs ->
  Forall (fun n => 1 <= n <= 1) ns ->
  attempts_of ns msgs = map EAttempt msgs.
Proof.
  unfold attempts_of. revert msgs.
  induction ns as [| n ns IH]; intros [| msg msgs] Hlen Hns; try discriminate;
    [reflexivity |].
  apply Forall_cons in Hns as [Hn Hns]. assert (n = 1) as -> by lia.
  cbn. f_equal. apply IH; [cbn in Hlen; lia | exact Hns].
Qed.

Lemma each_no_commit (msg : MessageToOrchestrator) :
  emits (fun ev => is_commit ev = false) (each self msg).
Proof.
  intros w. rewrite each_events. apply Forall_app. split.
  - eapply Forall_impl; [apply harness_no_commit |]. intros ev [Hc _]. exact Hc.
  - destruct (res (harness self msg w)); repeat constructor.
Qed.

(** The [try] block of [__anext__]: one call to [getmany], then the
    payloads are deserialized without any further call. *)
Lemma next_batch_spec (w : W) :
  let g := consumer_getmany (batch_max_ms self) (batch_max_n self) w in
  events (next_batch self w) = [EGetMany (batch_max_ms self) (batch_max_n self)] /\
  world (next_batch self w) = g.2 /\
  res (next_batch self w) =
    match g.1 with
    | Ok recs =>
        match res (comprehension serde_loads (elements (payloads recs)) g.2) with
        | Ok msgs => Ok msgs
        | Raise exc => Raise (reraised exc)
        end
    | Raise exc => Raise (reraised exc)
    end.
Proof.
  intros g. unfold next_batch.
  rewrite events_try_except, world_try_except, res_try_except.
  rewrite !events_bind, !res_bind, !world_bind.
  unfold getmany. rewrite perform_unfold. fold g. cbn [res world events].
  destruct g.1 as [recs | exc] eqn:Hg.
  - destruct (comprehension_pure serde_loads (elements (payloads recs)) g.2)
      as [Hev Hw].
    rewrite Hev, Hw.
    destruct (res (comprehension serde_loads (elements (payloads recs)) g.2))
      as [msgs | exc]; [repeat split |].
    destruct exc; repeat split.
  - destruct exc; repeat split.
Qed.

Lemma anext_events (w : W) :
  events (anext self w) =
    events (next_batch self w) ++
    match res (next_batch self w) with
    | Ok msgs =>
        let o := gather (map (each self) msgs) (world (next_batch self w)) in
        events o ++ match res o with Ok _ => [ECommit] | Raise _ => [] end
    | Raise _ => []
    end.
Proof.
  unfold anext. rewrite events_bind.
  destruct (res (next_batch self w)) as [msgs | exc]; [| reflexivity].
  rewrite events_bind. cbn zeta.
  destruct (res (gather (map (each self) msgs) (world (next_batch self w))));
    [| reflexivity].
  rewrite events_bind. unfold commit. rewrite perform_unfold. cbn [res world events].
  destruct (consumer_commit _).1; reflexivity.
Qed.

Lemma anext_res (w : W) :
  res (anext self w) =
    match res (next_batch self w) with
    | Ok msgs =>
        let o := gather (map (each self) msgs) (world (next_batch self w)) in
        match res o with
        | Ok _ =>
            match (consumer_commit (world o)).1 with
            | Ok _ => Ok msgs
            | Raise exc => Raise exc
            end
        | Raise exc => Raise exc
        end
    | Raise exc => Raise exc
    end.
Proof.
  unfold anext. rewrite res_bind.
  destruct (res (next_batch self w)) as [msgs | exc]; [| reflexivity].
  rewrite res_bind. cbn zeta.
  destruct (res (gather (map (each self) msgs) (world (next_batch self w))));
    [| reflexivity].
  rewrite res_bind. unfold commit. rewrite perform_unfold. cbn [res world events].
  destruct (consumer_commit _).1; reflexivity.
Qed.

(** What an iteration that returns has done. *)
Lemma anext_returns (w : W) (msgs : list MessageToOrchestrator) :
  res (anext self w) = Ok msgs ->
  exists recs w1 evs w2,
    consumer_getmany (batch_max_ms self) (batch_max_n self) w = (Ok recs, w1) /\
    map serde_loads (elements (payloads recs)) = map Ok msgs /\
    processed self msgs w1 evs w2 /\
    events (anext self w) =
      EGetMany (batch_max_ms self) (batch_max_n self) :: evs ++ [ECommit].
Proof.
  intros Hres. rewrite anext_res in Hres. rewrite anext_events.
  destruct (next_batch_spec w) as (Hev & Hw & Hr).
  destruct (consumer_getmany (batch_max_ms self) (batch_max_n self) w)
    as [r w1] eqn:Hg. cbn [fst snd] in Hw, Hr.
  rewrite Hev, Hw. rewrite Hw in Hres.
  destruct (res (next_batch self w)) as [msgs' | exc]; [| discriminate].
  cbn zeta in Hres |- *.
  destruct (res (gather (map (each self) msgs') w1)) as [rs |] eqn:Hgather;
    [| discriminate].
  assert (msgs' = msgs) as ->.
  { destruct (consumer_commit _).1; congruence. }
  destruct r as [recs | exc]; [| discriminate].
  destruct (res (comprehension serde_loads (elements (payloads recs)) w1))
    as [msgs' | exc] eqn:Hload; [| discriminate].
  injection Hr as <-. apply comprehension_ok in Hload.
  exists recs, w1, (events (gather (map (each self) msgs) w1)),
    (world (gather (map (each self) msgs) w1)).
  split; [reflexivity |]. split; [exact Hload |].
  split; [eapply gather_each_processed, Hgather | reflexivity].
Qed.

Lemma elem_of_payloads (recs : Records) (payload : bytes) :
  payload ∈ elements (payloads recs) <-> payload ∈ batch_values recs.
Proof. unfold payloads, batch_values. rewrite elem_of_elements. apply elem_of_list_to_set. Qed.

(** C2, as the code has it.  When [getmany] returns a batch without
    records, the iteration deserializes nothing, hands no message to
    the harness and publishes no error record; it still calls
    [consumer.commit()], once, and returns the empty list when that
    call returns. *)
Theorem empty_batch_iteration (w : W) (recs : Records) (w1 : W) :
  consumer_getmany (batch_max_ms self) (batch_max_n self) w = (Ok recs, w1) ->
  batch_values recs = [] ->
  events (anext self w) =
    [EGetMany (batch_max_ms self) (batch_max_n self); ECommit] /\
  res (anext self w) =
    match (consumer_commit w1).1 with
    | Ok _ => Ok []
    | Raise exc => Raise exc
    end /\
  count is_commit (events (anext self w)) = 1 /\
  count is_error_record (events (anext self w)) = 0 /\
  count is_dispatch (events (anext self w)) = 0.
Proof.
  intros Hg Hempty.
  assert (Hnil : elements (payloads recs) = []).
  { unfold payloads. fold (batch_values recs). rewrite Hempty. apply elements_empty. }
  destruct (next_batch_spec w) as (Hev & Hw & Hr).
  rewrite Hg in Hw, Hr. cbn [fst snd] in Hw, Hr. rewrite Hnil in Hr. cbn in Hr.
  assert (Htr : events (anext self w) =
                [EGetMany (batch_max_ms self) (batch_max_n self); ECommit]).
  { rewrite anext_events, Hev, Hr. reflexivity. }
  split; [exact Htr |]. split.
  - rewrite anext_res, Hr, Hw. reflexivity.
  - rewrite Htr. repeat split.
Qed.

(** C3, as the code has it.  The payloads are deserialized in
    [__anext__] itself, before any message is processed: when
    [serde.loads] fails on a payload of the batch, the exception leaves
    the iteration ([StopAsyncIteration] in place of a
    [ConsumerStoppedError]).  The only call made is [getmany]: no
    message is handed to the harness, no error record is published and
    no offsets are committed. *)
Theorem deserialization_failure_propagates (w : W) (recs : Records) (w1 : W)
    (payload : bytes) (exc : exn) :
  consumer_getmany (batch_max_ms self) (batch_max_n self) w = (Ok recs, w1) ->
  payload ∈ batch_values recs ->
  serde_loads payload = Raise exc ->
  (exists payload' exc',
     payload' ∈ batch_values recs /\
     serde_loads payload' = Raise exc' /\
     res (anext self w) = Raise (reraised exc')) /\
  events (anext self w) = [EGetMany (batch_max_ms self) (batch_max_n self)] /\
  count is_dispatch (events (anext self w)) = 0 /\
  count is_error_record (events (anext self w)) = 0 /\
  count is_commit (events (anext self w)) = 0.
Proof.
  intros Hg Hin Hload.
  destruct (next_batch_spec w) as (Hev & Hw & Hr).
  rewrite Hg in Hw, Hr. cbn [fst snd] in Hw, Hr.
  apply elem_of_payloads in Hin.
  destruct (comprehension_fails serde_loads _ w1 _ _ Hin Hload) as (exc' & Hfail).
  rewrite Hfail in Hr.
  assert (Htr : events (anext self w) =
                [EGetMany (batch_max_ms self) (batch_max_n self)]).
  { rewrite anext_events, Hev, Hr. reflexivity. }
  split; [| rewrite Htr; repeat split].
  apply comprehension_raise in Hfail as (payload' & Hin' & Hload').
  exists payload', exc'. split; [apply elem_of_payloads, Hin' |].
  split; [exact Hload' |]. rewrite anext_res, Hr. reflexivity.
Qed.

(** C4. For a batch that was received and deserialized, the iteration
    commits the offsets at most once; it commits only when every
    message of the batch was processed, each one either succeeding
    under the harness or having its failure published on the error
    topic; and when every message was so processed it commits exactly
    once: the trace is the call to [getmany], the events of that
    processing, and then [commit], the last event. *)
Theorem commit_once_after_processing (w : W) (recs : Records) (w1 : W)
    (msgs : list MessageToOrchestrator) :
  consumer_getmany (batch_max_ms self) (batch_max_n self) w = (Ok recs, w1) ->
  map serde_loads (elements (payloads recs)) = map Ok msgs ->
  let tr := events (anext self w) in
  count is_commit tr <= 1 /\
  (ECommit ∈ tr -> exists evs w2, processed self msgs w1 evs w2) /\
  (forall evs w2, processed self msgs w1 evs w2 ->
     tr = EGetMany (batch_max_ms self) (batch_max_n self) :: evs ++ [ECommit] /\
     count is_commit evs = 0 /\
     count is_commit tr = 1).
Proof.
  intros Hg Hl tr.
  destruct (next_batch_spec w) as (Hev & Hw & Hr).
  rewrite Hg in Hw, Hr. cbn [fst snd] in Hw, Hr.
  apply (comprehension_ok _ _ w1) in Hl. rewrite Hl in Hr.
  assert (Htr : tr = EGetMany (batch_max_ms self) (batch_max_n self) ::
                     events (gather (map (each self) msgs) w1) ++
                     match res (gather (map (each self) msgs) w1) with
                     | Ok _ => [ECommit]
                     | Raise _ => []
                     end).
  { subst tr. rewrite anext_events, Hev, Hr, Hw. reflexivity. }
  assert (Hnone : count is_commit (events (gather (map (each self) msgs) w1)) = 0).
  { apply count_none. apply emits_gather, Forall_map, Forall_forall.
    intros msg _. apply each_no_commit. }
  split; [| split].
  - rewrite Htr, count_cons, count_app, Hnone. cbn [is_commit].
    destruct (res (gather (map (each self) msgs) w1));
      rewrite ?count_cons, ?count_nil; cbn [is_commit]; lia.
  - intros Hin.
    destruct (res (gather (map (each self) msgs) w1)) as [rs | exc] eqn:Hgather.
    + eexists _, _. eapply gather_each_processed, Hgather.
    + exfalso. rewrite Htr, app_nil_r in Hin.
      apply elem_of_cons in Hin as [Hin | Hin]; [discriminate |].
      assert (Hc : count is_commit (events (gather (map (each self) msgs) w1)) <> 0).
      { apply list_elem_of_split in Hin as (l1 & l2 & ->).
        rewrite count_app, count_cons. cbn [is_commit]. lia. }
      contradiction.
  - intros evs w2 Hp.
    destruct (processed_gather _ _ _ _ Hp) as (rs & Hrs & Hevs & _).
    rewrite Hrs, Hevs in Htr. rewrite Hevs in Hnone.
    split; [exact Htr |]. split; [exact Hnone |].
    rewrite Htr, count_cons, count_app, Hnone. reflexivity.
Qed.

(** C5. In an iteration that returns its list, the list holds one
    message per distinct payload of the batch, whatever the number of
    records that carry the payload, and each of them was dispatched to
    the engine exactly once, in the order of the list.  Inside one
    dispatch the Retry Harness runs the engine at least once and at
    most as often as the retry policy allows: exactly once when no
    retry policy is configured. *)
Theorem dedup_within_batch (w : W) (msgs : list MessageToOrchestrator) :
  res (anext self w) = Ok msgs ->
  exists recs w1,
    consumer_getmany (batch_max_ms self) (batch_max_n self) w = (Ok recs, w1) /\
    let uniq := elements (payloads recs) in
    NoDup uniq /\
    (forall payload, payload ∈ uniq <-> payload ∈ batch_values recs) /\
    Forall2 (fun payload msg => serde_loads payload = Ok msg) uniq msgs /\
    select is_dispatch (events (anext self w)) = map EDispatch msgs /\
    (exists ns,
       length ns = length msgs /\
       Forall (fun n => 1 <= n <= attempts_allowed self) ns /\
       select is_attempt (events (anext self w)) = attempts_of ns msgs) /\
    (retry_policy self = None ->
     select is_attempt (events (anext self w)) = map EAttempt msgs).
Proof.
  intros Hres.
  destruct (anext_returns w msgs Hres) as (recs & w1 & evs & w2 & Hg & Hl & Hp & Hev).
  exists recs, w1. split; [exact Hg |]. cbn zeta.
  split; [apply NoDup_elements |].
  split; [apply elem_of_payloads |].
  split.
  { clear -Hl. revert msgs Hl.
    induction (elements (payloads recs)) as [| payload l IH]; intros [| msg msgs] Hl;
      try discriminate; constructor.
    - injection Hl as Hl _. exact Hl.
    - injection Hl as _ Hl. apply IH, Hl. }
  assert (Hsel : select is_attempt (events (anext self w)) = select is_attempt evs).
  { rewrite Hev, select_cons, select_app. cbn [is_attempt select filter app].
    apply app_nil_r. }
  destruct (processed_select_attempt _ _ _ _ Hp) as (ns & Hlen & Hns & Hatt).
  split; [| split].
  - rewrite Hev, select_cons, select_app. cbn [is_dispatch select filter app].
    rewrite (processed_select_dispatch _ _ _ _ Hp), app_nil_r. reflexivity.
  - exists ns. rewrite Hsel. auto.
  - intros Hpol. rewrite Hsel, Hatt. apply attempts_of_once; [exact Hlen |].
    unfold attempts_allowed in Hns. rewrite Hpol in Hns. exact Hns.
Qed.

Lemma gather_each_no_commit (msgs : list MessageToOrchestrator) (w : W) :
  count is_commit (events (gather (map (each self) msgs) w)) = 0.
Proof.
  apply count_none. apply emits_gather, Forall_map, Forall_forall.
  intros msg _. apply each_no_commit.
Qed.

(** Every message handed to the gather is dispatched to the harness,
    whatever becomes of the messages before it. *)
Lemma gather_each_dispatches (msgs : list MessageToOrchestrator) (w : W)
    (msg : MessageToOrchestrator) :
  msg ∈ msgs -> EDispatch msg ∈ events (gather (map (each self) msgs) w).
Proof.
  revert w. induction msgs as [| m msgs IH]; intros w Hin; [inversion Hin |].
  cbn [map]. rewrite gather_cons. cbn zeta. cbn [events].
  apply elem_of_app. apply elem_of_cons in Hin as [-> | Hin].
  - left. rewrite each_events. apply elem_of_app. left.
    destruct (harness_events self m w) as (rest & -> & _). left.
  - right. apply IH, Hin.
Qed.

(** C9. When the error topic accepts the records sent to it and the
    harness gives up on a message of the batch with the failure [exc],
    processing that message publishes exactly one record on the error
    topic, made of the name of the orchestrator topic, the message and
    [repr(exc)], where [exc] is the failure of an attempt.  The batch
    is not aborted: that record is in the trace of the iteration, every
    message of the batch, before and after this one, is dispatched, and
    the iteration commits, once, as its last call; it returns the
    messages of the batch unless [commit] itself fails. *)
Theorem exhausted_message_is_routed (w : W)
    (before rest : list MessageToOrchestrator) (msg : MessageToOrchestrator)
    (exc : exn) :
  (forall value w', (producer_send_and_wait (error (topics self)) value w').1 = Ok tt) ->
  res (next_batch self w) = Ok (before ++ msg :: rest) ->
  let w1 := world (next_batch self w) in
  let wb := world (gather (map (each self) before) w1) in
  res (harness self msg wb) = Raise exc ->
  let record :=
    ESendAndWait (error (topics self))
      (ToError {| em_topic := orchestrator (topics self);
                  em_msg := msg;
                  em_error := repr exc |}) in
  (exists w', res (attempt self msg w') = Raise exc) /\
  events (each self msg wb) = events (harness self msg wb) ++ [record] /\
  count is_error_record (events (each self msg wb)) = 1 /\
  res (each self msg wb) = Ok tt /\
  record ∈ events (anext self w) /\
  (forall m, m ∈ before ++ msg :: rest -> EDispatch m ∈ events (anext self w)) /\
  count is_commit (events (anext self w)) = 1 /\
  last (events (anext self w)) = Some ECommit /\
  (res (anext self w) = Ok (before ++ msg :: rest) \/
   exists w2 exc',
     (consumer_commit w2).1 = Raise exc' /\ res (anext self w) = Raise exc').
Proof.
  intros Hrel Hbatch w1 wb Hh record.
  split; [eapply harness_raise, Hh |].
  assert (Hev : events (each self msg wb) = events (harness self msg wb) ++ [record]).
  { rewrite each_events, Hh. reflexivity. }
  assert (Hres : res (each self msg wb) = Ok tt).
  { rewrite each_res, Hh. apply Hrel. }
  split; [exact Hev |]. split.
  { rewrite Hev, count_app, count_cons, count_nil. cbn [is_error_record record].
    rewrite count_none; [reflexivity |].
    eapply Forall_impl; [apply harness_no_commit |]. intros ev [_ He]. exact He. }
  split; [exact Hres |].
  destruct (processed_total before w1 Hrel) as (evs_before & wb' & Hpb).
  destruct (processed_gather _ _ _ _ Hpb) as (rsb & Hrb & Heb & Hwb).
  fold wb in Hwb. subst wb'.
  destruct (processed_total rest (world (each self msg wb)) Hrel)
    as (evs_rest & w2 & Hpr).
  assert (Hpm : processed self (msg :: rest) wb (events (each self msg wb) ++ evs_rest) w2).
  { rewrite Hev, <- app_assoc. cbn [app].
    eapply processed_routed; [exact Hh | | exact Hpr | ..].
    rewrite each_world, Hh.
    destruct (producer_send_and_wait (error (topics self))
                (error_message self msg exc) (world (harness self msg wb)))
      as [r w'] eqn:Hsend.
    rewrite <- (Hrel (error_message self msg exc) (world (harness self msg wb))), Hsend.
    reflexivity. }
  pose proof (processed_app _ _ _ _ _ _ _ Hpb Hpm) as Hpall.
  destruct (processed_gather _ _ _ _ Hpall) as (rs & Hr & He & _).
  destruct (next_batch_spec w) as (Hev0 & _ & _).
  assert (Htr : events (anext self w) =
                EGetMany (batch_max_ms self) (batch_max_n self) ::
                events (gather (map (each self) (before ++ msg :: rest)) w1) ++
                [ECommit]).
  { rewrite anext_events, Hbatch, Hev0. cbn zeta. fold w1. rewrite Hr. reflexivity. }
  rewrite Htr. split; [| split; [| split; [| split]]].
  - right. apply elem_of_app. left. rewrite He.
    apply elem_of_app. right. apply elem_of_app. left.
    rewrite Hev. apply elem_of_app. right. left.
  - intros m Hm. right. apply elem_of_app. left. apply gather_each_dispatches, Hm.
  - rewrite count_cons, count_app, gather_each_no_commit, count_cons, count_nil.
    reflexivity.
  - rewrite app_comm_cons. apply last_snoc.
  - rewrite anext_res, Hbatch. cbn zeta. fold w1. rewrite Hr.
    destruct (consumer_commit (world (gather (map (each self)
                                               (before ++ msg :: rest)) w1))).1
      as [[] | exc'] eqn:Hcommit; [left; reflexivity | right].
    eexists _, exc'. split; [exact Hcommit | reflexivity].
Qed.

End Batch.

(** *** The theorems at concrete runs *)

Module Runs.
Import Scenario.

(** **** One tick with new tasks *)

Example run_trace_is :
  run_trace =
    [ELoopEnter (VStr "run") (thread_config "run"); ETick; EAwaitCheckpoint 0;
     ESend "executor" (sent "n1" "t1"); ESend "executor" (sent "n3" "t3");
     EAck "executor" (sent "n1" "t1"); EAck "executor" (sent "n3" "t3");
     EPutWrites "t1" [(SCHEDULED, VInt 7)]; EPutWrites "t3" [(SCHEDULED, VInt 7)];
     ELoopExit None].
Proof. vm_compute. reflexivity. Qed.

Lemma send_before_mark_witness :
  run_trace = take 8 run_trace ++ EPutWrites "t3" [(SCHEDULED, VInt 7)] :: drop 9 run_trace /\
  exists loop,
    ticked (E := broker []) orchestrator_default (wake "run") start loop /\
    (exists t, t ∈ unscheduled loop /\ task_id t = "t3") /\
    forall t, t ∈ unscheduled loop ->
      exists value,
        executor_message loop t = Ok value /\
        EAck (executor (topics orchestrator_default)) value ∈ take 8 run_trace.
Proof.
  split; [vm_compute; reflexivity |].
  apply (send_before_mark (E := broker []) orchestrator_default (wake "run") start
           (take 8 run_trace) (drop 9 run_trace) "t3" [(SCHEDULED, VInt 7)]).
  vm_compute. reflexivity.
Defined.

Lemma scheduled_write_version_witness :
  EPutWrites "t1" [(SCHEDULED, VInt 7)] ∈ run_trace /\
  exists loop value,
    ticked (E := broker []) orchestrator_default (wake "run") start loop /\
    (exists t, t ∈ unscheduled loop /\ task_id t = "t1") /\
    [(SCHEDULED, VInt 7)] = [(SCHEDULED, value)] /\
    match versions_seen (loop_checkpoint loop) !! INTERRUPT with
    | None => value = VNone
    | Some seen =>
        (seen = ∅ /\ value = VNone) \/
        (exists v, value = VInt v /\ greatest_version seen v)
    end.
Proof.
  assert (Hin : EPutWrites "t1" [(SCHEDULED, VInt 7)] ∈ run_trace).
  { apply (list_elem_of_lookup_2 _ 7). vm_compute. reflexivity. }
  split; [exact Hin |].
  exact (scheduled_write_version (E := broker []) orchestrator_default (wake "run")
           start "t1" [(SCHEDULED, VInt 7)] Hin).
Defined.

Lemma executor_message_config_witness :
  ESend "executor" (sent "n3" "t3") ∈ run_trace /\
  exists loop t checkpoint_ids m,
    ticked (E := broker []) orchestrator_default (wake "run") start loop /\
    t ∈ unscheduled loop /\
    configurable (loop_checkpoint_config loop) = Some checkpoint_ids /\
    "executor" = executor (topics orchestrator_default) /\
    sent "n3" "t3" = ToExecutor m /\
    mte_task m = {| et_id := task_id t; et_path := task_path t |} /\
    mte_config m =
      patch_configurable (loop_config loop)
        (<[CONFIG_KEY_DEDUPE_TASKS := VBool true]> checkpoint_ids) /\
    exists patched,
      configurable (mte_config m) = Some patched /\
      patched !! CONFIG_KEY_DEDUPE_TASKS = Some (VBool true) /\
      (forall key v, key <> CONFIG_KEY_DEDUPE_TASKS ->
         checkpoint_ids !! key = Some v -> patched !! key = Some v) /\
      (forall key, key <> CONFIG_KEY_DEDUPE_TASKS ->
         checkpoint_ids !! key = None ->
         patched !! key = default ∅ (configurable (loop_config loop)) !! key) /\
      other_keys (mte_config m) = other_keys (loop_config loop).
Proof.
  assert (Hin : ESend "executor" (sent "n3" "t3") ∈ run_trace).
  { apply (list_elem_of_lookup_2 _ 4). vm_compute. reflexivity. }
  split; [exact Hin |].
  exact (executor_message_config (E := broker []) orchestrator_default (wake "run")
           start "executor" (sent "n3" "t3") Hin).
Defined.

(** **** Ticks without new tasks *)

Lemma attempt_without_new_tasks_witness :
  let tr := events (attempt (E := broker []) orchestrator_default (wake "idle") start) in
  count is_await_checkpoint tr = 1 /\
  count is_send tr = 0 /\
  count is_ack tr = 0 /\
  count is_put_writes tr = 0.
Proof.
  intros tr.
  refine (proj2 (attempt_without_new_tasks (E := broker []) orchestrator_default
                   (wake "idle") start (VStr "idle") (thread_config "idle")
                   _ _ true _ _ eq_refl eq_refl eq_refl eq_refl (or_intror eq_refl))).
Defined.

Example quiescent_tick :
  events (attempt (E := broker []) orchestrator_default (wake "quiet") start) =
    [ELoopEnter (VStr "quiet") (thread_config "quiet"); ETick; ELoopExit None].
Proof. vm_compute. reflexivity. Qed.

(** **** Batches *)

Example dedup_attempts :
  select is_attempt dedup_trace =
    [EAttempt (wake "idle"); EAttempt (wake "quiet"); EAttempt (wake "run")] /\
  select is_send dedup_trace =
    [ESend "executor" (sent "n1" "t1"); ESend "executor" (sent "n3" "t3")] /\
  count is_commit dedup_trace = 1.
Proof. vm_compute. repeat split. Qed.

Lemma commit_once_after_processing_witness :
  map loads (elements (payloads batch_with_duplicates)) =
    map Ok [wake "idle"; wake "quiet"; wake "run"] /\
  ECommit ∈ dedup_trace /\
  count is_commit dedup_trace = 1.
Proof.
  assert (Hloads : map loads (elements (payloads batch_with_duplicates)) =
                   map Ok [wake "idle"; wake "quiet"; wake "run"]).
  { vm_compute. reflexivity. }
  split; [exact Hloads |].
  split; [apply (list_elem_of_lookup_2 _ 24); vm_compute; reflexivity |].
  assert (Hgather : res (gather (map (each (E := broker batch_with_duplicates)
                                        orchestrator_default)
                                   [wake "idle"; wake "quiet"; wake "run"]) start) =
                    Ok [tt; tt; tt]).
  { vm_compute. reflexivity. }
  destruct (commit_once_after_processing (E := broker batch_with_duplicates)
              orchestrator_default start batch_with_duplicates start
              [wake "idle"; wake "quiet"; wake "run"] eq_refl Hloads)
    as (_ & _ & Hprocessed).
  destruct (Hprocessed _ _ (gather_each_processed (E := broker batch_with_duplicates)
                              orchestrator_default _ start _ Hgather))
    as (_ & _ & Hone).
  exact Hone.
Defined.

Lemma dedup_within_batch_witness :
  res (anext (E := broker batch_with_duplicates) orchestrator_default start) =
    Ok [wake "idle"; wake "quiet"; wake "run"] /\
  select is_dispatch dedup_trace =
    [EDispatch (wake "idle"); EDispatch (wake "quiet"); EDispatch (wake "run")] /\
  select is_attempt dedup_trace =
    [EAttempt (wake "idle"); EAttempt (wake "quiet"); EAttempt (wake "run")].
Proof.
  assert (Hres : res (anext (E := broker batch_with_duplicates)
                        orchestrator_default start) =
                 Ok [wake "idle"; wake "quiet"; wake "run"]).
  { vm_compute. reflexivity. }
  split; [exact Hres |].
  destruct (dedup_within_batch (E := broker batch_with_duplicates)
              orchestrator_default start _ Hres)
    as (recs & w1 & _ & _ & _ & _ & Hdispatch & _ & Hattempt).
  split; [exact Hdispatch | exact (Hattempt eq_refl)].
Defined.

Example failure_trace :
  let tr := events (anext (E := broker batch_with_failure) orchestrator_retrying start) in
  select is_attempt tr =
    [EAttempt (wake "quiet"); EAttempt (wake "absent"); EAttempt (wake "absent");
     EAttempt (wake "run")] /\
  select is_error_record tr =
    [ESendAndWait "error"
       (ToError {| em_topic := "orchestrator"; em_msg := wake "absent";
                   em_error := "RuntimeError('no such run')" |})] /\
  count is_commit tr = 1.
Proof. vm_compute. repeat split. Qed.

Lemma exhausted_message_is_routed_witness :
  let self := orchestrator_retrying in
  let w1 := world (next_batch (E := broker batch_with_failure) self start) in
  let wb := world (gather (map (each (E := broker batch_with_failure) self)
                             [wake "quiet"]) w1) in
  res (harness (E := broker batch_with_failure) self (wake "absent") wb) =
    Raise no_such_run /\
  count is_error_record
    (events (each (E := broker batch_with_failure) self (wake "absent") wb)) = 1 /\
  res (each (E := broker batch_with_failure) self (wake "absent") wb) = Ok tt /\
  ESendAndWait "error"
    (ToError {| em_topic := "orchestrator"; em_msg := wake "absent";
                em_error := repr no_such_run |})
    ∈ events (anext (E := broker batch_with_failure) self start) /\
  last (events (anext (E := broker batch_with_failure) self start)) = Some ECommit.
Proof.
  intros self w1 wb.
  assert (Hh : res (harness (E := broker batch_with_failure) self (wake "absent") wb) =
               Raise no_such_run).
  { vm_compute. reflexivity. }
  split; [exact Hh |].
  destruct (exhausted_message_is_routed (E := broker batch_with_failure) self start
              [wake "quiet"] [wake "run"] (wake "absent") no_such_run
              (fun _ _ => eq_refl) eq_refl Hh)
    as (_ & _ & Hone & Hok & Hrec & _ & _ & Hlast & _).
  split; [exact Hone |]. split; [exact Hok |]. split; [exact Hrec | exact Hlast].
Defined.

(** **** An empty batch *)

Lemma empty_batch_iteration_witness :
  events (anext (E := broker []) orchestrator_default start) = [EGetMany 1000 10; ECommit] /\
  count is_commit (events (anext (E := broker []) orchestrator_default start)) = 1.
Proof.
  destruct (empty_batch_iteration (E := broker []) orchestrator_default start [] start
              eq_refl eq_refl) as (Hev & _ & Hcommit & _).
  split; [exact Hev | exact Hcommit].
Defined.

(** The iteration over an empty batch returns the empty list and routes
    no error, but it does call [commit]. *)
Lemma empty_batch_commits :
  ~ (res (anext (E := broker []) orchestrator_default start) = Ok [] /\
     count is_commit (events (anext (E := broker []) orchestrator_default start)) = 0 /\
     count is_error_record (events (anext (E := broker []) orchestrator_default start)) = 0).
Proof. intros (_ & Hcommit & _). vm_compute in Hcommit. discriminate. Qed.

(** **** A payload that does not deserialize *)

Lemma deserialization_failure_propagates_witness :
  let tr := events (anext (E := broker batch_with_garbage) orchestrator_retrying start) in
  tr = [EGetMany 1000 10] /\
  count is_dispatch tr = 0 /\
  count is_error_record tr = 0 /\
  count is_commit tr = 0.
Proof.
  intros tr.
  refine (proj2 (deserialization_failure_propagates (E := broker batch_with_garbage)
                   orchestrator_retrying start batch_with_garbage start "garbage"
                   (Error "ValueError" [VStr "malformed payload"]) eq_refl _ eq_refl)).
  apply (list_elem_of_lookup_2 _ 1). reflexivity.
Defined.

(** With two attempts configured, the batch holding a payload that does
    not deserialize gets neither its error record nor its commit: the
    iteration raises what [serde.loads] raised. *)
Lemma deserialization_failure_not_routed :
  let o := anext (E := broker batch_with_garbage) orchestrator_retrying start in
  ~ (count is_error_record (events o) = 1 /\
     count is_commit (events o) = 1).
Proof. intros o (Hrecord & _). vm_compute in Hrecord. discriminate. Qed.

Example deserialization_failure_result :
  res (anext (E := broker batch_with_garbage) orchestrator_retrying start) =
    Raise (Error "ValueError" [VStr "malformed payload"]).
Proof. vm_compute. reflexivity. Qed.

End Runs.

End OrchestratorSpec.

(** ** More on one attempt *)

Module AttemptSpec.
Import Py Constants Orchestrator OrchestratorSpec Outcomes.

Section Attempt.
Context {W : Type} {E : Collaborators W}.
Variable self : KafkaOrchestrator.

Lemma emits_body_send (topic : string) (value : Value) :
  emits body_event (send topic value).
Proof. intros w. rewrite send_unfold. repeat constructor. Qed.

Lemma emits_body_wait (d : Delivery) : emits body_event (wait_delivery d).
Proof.
  intros w. rewrite wait_delivery_unfold. cbn [events].
  destruct (future_wait (d_fut d) w).1; repeat constructor.
Qed.

Lemma emits_body_schedule (loop : Loop) :
  emits body_event (schedule_new_tasks self loop).
Proof.
  unfold schedule_new_tasks. destruct (unscheduled loop); [apply emits_ret |].
  apply emits_bind; [apply emits_comprehension | intros values].
  apply emits_bind.
  { apply emits_gather, Forall_map, Forall_forall. intros v _. apply emits_body_send. }
  intros futures. apply emits_bind.
  { apply emits_gather, Forall_map, Forall_forall. intros d _. apply emits_body_wait. }
  intros _. apply emits_for_each. intros task. apply emits_perform. exact I.
Qed.

(** The body of the [async with] statement never enters or leaves a
    loop. *)
Lemma emits_body (loop0 : Loop) : emits body_event (attempt_body self loop0).
Proof.
  unfold attempt_body. apply emits_bind; [apply emits_perform; exact I |].
  intros [[] loop]; cbn [fst snd]; [| apply emits_ret].
  apply emits_bind; [| intros _; apply emits_body_schedule].
  unfold wait_for_checkpoint. destruct (loop_put_checkpoint_fut loop);
    [apply emits_perform; exact I | apply emits_ret].
Qed.

Lemma body_no_exit (loop0 : Loop) (w : W) :
  count is_loop_exit (events (attempt_body self loop0 w)) = 0.
Proof.
  apply count_none. eapply Forall_impl; [apply emits_body |].
  intros ev Hev. destruct ev; try reflexivity; contradiction.
Qed.

Lemma loop_entered_inj msg w loop0 w1 loop0' w1' :
  loop_entered self msg w loop0 w1 -> loop_entered self msg w loop0' w1' ->
  loop0 = loop0' /\ w1 = w1'.
Proof.
  intros (i & c & Hi & Hc & He) (i' & c' & Hi' & Hc' & He').
  rewrite Hi in Hi'. rewrite Hc in Hc'. simplify_eq.
  rewrite He in He'. simplify_eq. split; reflexivity.
Qed.

Lemma ticked_at_inj msg w loop w2 loop' w2' :
  ticked_at self msg w loop w2 -> ticked_at self msg w loop' w2' ->
  loop = loop' /\ w2 = w2'.
Proof.
  intros (l0 & w1 & He & Ht) (l0' & w1' & He' & Ht').
  destruct (loop_entered_inj _ _ _ _ _ _ He He') as [-> ->].
  rewrite Ht in Ht'. simplify_eq. split; reflexivity.
Qed.

Lemma ticked_at_ticked msg w loop w2 :
  ticked_at self msg w loop w2 -> ticked self msg w loop.
Proof.
  intros (l0 & w1 & (i & c & Hi & Hc & He) & Ht). exists i, c, l0, w1, w2. auto.
Qed.

Lemma ticked_ticked_at msg w loop :
  ticked self msg w loop -> exists w2, ticked_at self msg w loop w2.
Proof.
  intros (i & c & l0 & w1 & w2 & Hi & Hc & He & Ht).
  exists w2, l0, w1. split; [exists i, c; auto | exact Ht].
Qed.

Lemma attempt_events_entered msg w loop0 w1 :
  loop_entered self msg w loop0 w1 ->
  exists input config,
    mto_input msg = Some input /\ mto_config msg = Some config /\
    events (attempt self msg w) =
      ELoopEnter input (ensure_config config) ::
      events (attempt_body self loop0 w1) ++
      [ELoopExit (failure_of (res (attempt_body self loop0 w1)))].
Proof.
  intros (i & c & Hi & Hc & He). exists i, c. split; [exact Hi |]. split; [exact Hc |].
  rewrite (attempt_events self msg w i c loop0 w1 Hi Hc He).
  destruct (res (attempt_body self loop0 w1)); reflexivity.
Qed.

(** **** A message without [input] or [config] *)

Lemma attempt_missing_key msg w key :
  missing_key msg = Some key ->
  attempt self msg w = raise (KeyError key) w.
Proof.
  unfold missing_key, attempt. intros Hkey.
  destruct (mto_input msg) as [input |]; cbn [getitem].
  - destruct (mto_config msg) as [config |]; [discriminate |].
    injection Hkey as <-. rewrite bind_ret_l. reflexivity.
  - injection Hkey as <-. reflexivity.
Qed.

Lemma retry_loop_hopeless {A} (policy : RetryPolicy) (retries : nat) (op : M W A)
    (ev : event) (exc : exn) (w : W) :
  (forall w0, op w0 = {| res := Raise exc; world := w0; events := [ev] |}) ->
  res (retry_loop policy retries op w) = Raise exc /\
  Forall (fun e => e = ev \/ e = ESleep) (events (retry_loop policy retries op w)).
Proof.
  intros Hop. revert w. induction retries as [| n IH]; intros w; cbn [retry_loop];
    rewrite res_try_except, events_try_except, Hop; cbn [res world events].
  - split; [reflexivity | repeat constructor; left; reflexivity].
  - destruct (retry_on policy exc).
    + rewrite res_bind, events_bind. unfold sleep at 1 2 3. rewrite perform_unfold.
      cbn [res world events fst snd].
      destruct (IH (world (sleep w))) as [Hres Hev]. split; [exact Hres |].
      constructor; [left; reflexivity |]. constructor; [right; reflexivity | exact Hev].
    + split; [reflexivity | repeat constructor; left; reflexivity].
Qed.

(** X1. A message that deserialized to a dictionary without [input]
    (or, with [input], without [config]) is never ticked: the attempt
    raises the [KeyError] of the missing key before any call is made,
    whatever the retry policy the harness only repeats that, and [each]
    publishes one error record whose error is the [repr] of that
    [KeyError]. *)
Theorem malformed_message_is_routed (msg : MessageToOrchestrator) (w : W)
    (key : string) :
  missing_key msg = Some key ->
  attempt self msg w = raise (KeyError key) w /\
  res (harness self msg w) = Raise (KeyError key) /\
  exists evs,
    events (each self msg w) =
      EDispatch msg :: evs ++ [error_record self msg (KeyError key)] /\
    Forall (fun ev => ev = EAttempt msg \/ ev = ESleep) evs.
Proof.
  intros Hkey. split; [apply attempt_missing_key, Hkey |].
  assert (Hop : forall w0,
            (_ <- log (EAttempt msg) ;; attempt self msg) w0 =
            {| res := Raise (KeyError key); world := w0; events := [EAttempt msg] |}).
  { intros w0. unfold bind. cbn [log res world events].
    rewrite (attempt_missing_key msg w0 key Hkey). reflexivity. }
  assert (Hh : res (harness self msg w) = Raise (KeyError key) /\
               exists evs, events (harness self msg w) = EDispatch msg :: evs /\
                           Forall (fun ev => ev = EAttempt msg \/ ev = ESleep) evs).
  { unfold harness, aretry. rewrite res_bind, events_bind.
    cbn [log res world events app].
    destruct (retry_policy self) as [policy |].
    - destruct (retry_loop_hopeless policy (max_attempts policy - 1) _ _ _ w Hop)
        as [Hres Hev].
      split; [exact Hres | eexists; split; [reflexivity | exact Hev]].
    - rewrite Hop. cbn [res events].
      split; [reflexivity | eexists; split; [reflexivity |]].
      repeat constructor; left; reflexivity. }
  destruct Hh as (Hres & evs & Hev & Hall).
  split; [exact Hres |]. exists evs. split; [| exact Hall].
  rewrite each_events, Hres, Hev. reflexivity.
Qed.

(** **** The [async with] statement *)

Lemma attempt_res_entered msg w loop0 w1 :
  loop_entered self msg w loop0 w1 ->
  let body := attempt_body self loop0 w1 in
  res (attempt self msg w) =
    match res body with
    | Ok _ =>
        match (loop_aexit loop0 None (world body)).1 with
        | Ok _ => Ok tt
        | Raise exc' => Raise exc'
        end
    | Raise exc =>
        match (loop_aexit loop0 (Some exc) (world body)).1 with
        | Ok true => Ok tt
        | Ok false => Raise exc
        | Raise exc' => Raise exc'
        end
    end.
Proof.
  intros (i & c & Hi & Hc & He) body. subst body.
  rewrite (attempt_unfold self msg w i c Hi Hc).
  assert (Hen : AsyncPregelLoop (graph self) i (ensure_config c) w =
                {| res := Ok loop0; world := w1;
                   events := [ELoopEnter i (ensure_config c)] |}).
  { unfold AsyncPregelLoop. rewrite perform_unfold, He. reflexivity. }
  unfold async_with. rewrite res_bind, Hen. cbn [res world after].
  destruct (res (attempt_body self loop0 w1)); rewrite res_bind;
    unfold aexit; rewrite perform_unfold; cbn [res world];
    destruct (loop_aexit _ _ _) as [[b | exc'] w']; cbn [fst snd];
    try destruct b; reflexivity.
Qed.

(** X2. Once the loop was entered, its exit is called exactly once, as
    the last call of the attempt, with the failure of the body (or
    [None]); the attempt returns when the body returned and the exit
    returned, or when the exit swallowed the failure of the body, and
    otherwise raises the failure of the exit or else that of the body.
    When the loop cannot be entered, the exit is not called and the
    failure of the entry is raised. *)
Theorem attempt_with_statement (msg : MessageToOrchestrator) (w : W)
    (input : pyval) (config : RunnableConfig) :
  mto_input msg = Some input ->
  mto_config msg = Some config ->
  let tr := events (attempt self msg w) in
  match loop_aenter (graph self) input (ensure_config config) w with
  | (Ok loop0, w1) =>
      let body := attempt_body self loop0 w1 in
      tr = ELoopEnter input (ensure_config config) :: events body ++
           [ELoopExit (failure_of (res body))] /\
      count is_loop_exit tr = 1 /\
      count is_loop_enter tr = 1 /\
      res (attempt self msg w) =
        match res body with
        | Ok _ =>
            match (loop_aexit loop0 None (world body)).1 with
            | Ok _ => Ok tt
            | Raise exc' => Raise exc'
            end
        | Raise exc =>
            match (loop_aexit loop0 (Some exc) (world body)).1 with
            | Ok true => Ok tt
            | Ok false => Raise exc
            | Raise exc' => Raise exc'
            end
        end
  | (Raise exc, w1) =>
      tr = [ELoopEnter input (ensure_config config)] /\
      res (attempt self msg w) = Raise exc /\
      world (attempt self msg w) = w1
  end.
Proof.
  intros Hi Hc tr.
  destruct (loop_aenter (graph self) input (ensure_config config) w)
    as [[loop0 | exc] w1] eqn:He.
  - assert (Hentered : loop_entered self msg w loop0 w1) by (exists input, config; auto).
    destruct (attempt_events_entered msg w loop0 w1 Hentered)
      as (i & c & Hi' & Hc' & Hev).
    rewrite Hi in Hi'. rewrite Hc in Hc'. simplify_eq.
    cbn zeta. subst tr. rewrite Hev.
    assert (Hbody : Forall body_event (events (attempt_body self loop0 w1)))
      by apply emits_body.
    split; [reflexivity |]. split; [| split].
    + rewrite count_cons, count_app, body_no_exit, count_cons, count_nil. reflexivity.
    + rewrite count_cons, count_app, count_cons, count_nil. cbn [is_loop_enter].
      rewrite count_none; [reflexivity |].
      eapply Forall_impl; [exact Hbody |].
      intros ev Hev'. destruct ev; try reflexivity; contradiction.
    + apply (attempt_res_entered msg w loop0 w1 Hentered).
  - subst tr. rewrite (attempt_unfold self msg w input config Hi Hc).
    unfold async_with. rewrite events_bind, res_bind, world_bind.
    unfold AsyncPregelLoop. rewrite perform_unfold, He. repeat split.
Qed.

Lemma harness_first_attempt msg w :
  res (attempt self msg w) = Ok tt ->
  res (harness self msg w) = Ok tt /\
  events (harness self msg w) =
    EDispatch msg :: EAttempt msg :: events (attempt self msg w).
Proof.
  intros Hok. unfold harness, aretry. rewrite res_bind, events_bind.
  cbn [log res world events app].
  assert (Hop : res ((_ <- log (EAttempt msg) ;; attempt self msg) w) = Ok tt /\
                events ((_ <- log (EAttempt msg) ;; attempt self msg) w) =
                EAttempt msg :: events (attempt self msg w)).
  { rewrite res_bind, events_bind. cbn [log res world events app]. auto. }
  destruct Hop as [Hr He].
  destruct (retry_policy self) as [policy |]; [| rewrite Hr, He; auto].
  destruct (max_attempts policy - 1); cbn [retry_loop];
    rewrite res_try_except, events_try_except, Hr, He, app_nil_r; auto.
Qed.

(** X3. When the body of the [async with] statement fails and the exit
    of the loop swallows the failure (as it does for a graph
    interrupt), the attempt counts as a success: the harness makes no
    second attempt, whatever the retry policy, and [each] publishes no
    error record. *)
Theorem swallowed_failure_counts_as_success (msg : MessageToOrchestrator)
    (w : W) (loop0 : Loop) (w1 : W) (exc : exn) (w3 : W) :
  loop_entered self msg w loop0 w1 ->
  res (attempt_body self loop0 w1) = Raise exc ->
  loop_aexit loop0 (Some exc) (world (attempt_body self loop0 w1)) = (Ok true, w3) ->
  res (attempt self msg w) = Ok tt /\
  res (each self msg w) = Ok tt /\
  count is_attempt (events (each self msg w)) = 1 /\
  count is_error_record (events (each self msg w)) = 0 /\
  ELoopExit (Some exc) ∈ events (each self msg w).
Proof.
  intros Hentered Hbody Hexit.
  assert (Hok : res (attempt self msg w) = Ok tt).
  { rewrite (attempt_res_entered msg w loop0 w1 Hentered). cbn zeta.
    rewrite Hbody, Hexit. reflexivity. }
  destruct (harness_first_attempt msg w Hok) as [Hres Hev].
  assert (Heach : events (each self msg w) =
                  EDispatch msg :: EAttempt msg :: events (attempt self msg w)).
  { rewrite each_events, Hres, Hev, app_nil_r. reflexivity. }
  split; [exact Hok |]. split; [rewrite each_res, Hres; reflexivity |].
  assert (Hattempt : Forall attempt_event (events (attempt self msg w)))
    by apply emits_attempt.
  rewrite Heach. split; [| split].
  - rewrite !count_cons. cbn [is_attempt]. rewrite count_none; [reflexivity |].
    eapply Forall_impl; [exact Hattempt |].
    intros ev Hev'. destruct ev; try reflexivity; contradiction.
  - rewrite !count_cons. cbn [is_error_record]. rewrite count_none; [reflexivity |].
    eapply Forall_impl; [exact Hattempt |].
    intros ev Hev'. destruct ev; try reflexivity; contradiction.
  - destruct (attempt_events_entered msg w loop0 w1 Hentered)
      as (i & c & _ & _ & Htr).
    rewrite Htr, Hbody. cbn [failure_of].
    do 3 right. apply elem_of_app. right. left.
Qed.

(** **** The phases of the dispatch *)

Lemma count_map {A} (p : event -> bool) (f : A -> event) (l : list A) (b : bool) :
  (forall x, p (f x) = b) -> count p (map f l) = if b then length l else 0.
Proof.
  intros Hp. induction l as [| x l IH]; [destruct b; reflexivity |].
  cbn [map]. rewrite count_cons, Hp, IH. destruct b; reflexivity.
Qed.

(** The scheduling block, phase by phase: every value is sent, also
    after a send that was refused; the acknowledgments are those of
    deliveries that settled; a write is only made when every value was
    acknowledged, and the block returns only when the three phases went
    through. *)
Lemma schedule_phases (loop : Loop) (w : W) :
  exists values acked k3,
    events (schedule_new_tasks self loop w) =
      map (ESend (executor (topics self))) values ++
      map (EAck (executor (topics self))) acked ++
      map (scheduled_write loop) (take k3 (unscheduled loop)) /\
    (values = [] \/
     map (executor_message loop) (unscheduled loop) = map Ok values) /\
    sublist acked values /\
    (take k3 (unscheduled loop) <> [] ->
     acked = values /\
     map (executor_message loop) (unscheduled loop) = map Ok values) /\
    (res (schedule_new_tasks self loop w) = Ok tt ->
     map (executor_message loop) (unscheduled loop) = map Ok values /\
     acked = values /\
     take k3 (unscheduled loop) = unscheduled loop).
Proof.
  unfold schedule_new_tasks.
  destruct (unscheduled loop) as [| t ts] eqn:Hu.
  { exists [], [], 0. cbn. repeat split; try done. left; reflexivity. }
  rewrite <- Hu.
  set (new_tasks := unscheduled loop).
  rewrite events_bind, res_bind.
  destruct (comprehension_pure (executor_message loop) new_tasks w) as [Hev0 Hw0].
  rewrite Hev0, Hw0. cbn [app].
  destruct (res (comprehension (executor_message loop) new_tasks w))
    as [values | exc] eqn:Hvals.
  2:{ exists [], [], 0. cbn. repeat split; try done. left; reflexivity. }
  apply comprehension_ok in Hvals.
  rewrite events_bind, res_bind.
  destruct (gather_send_spec (executor (topics self)) values w) as (Hev1 & Hok1).
  rewrite Hev1.
  destruct (res (gather (map (send (executor (topics self))) values) w))
    as [ds | exc] eqn:Hsend.
  2:{ exists values, [], 0. rewrite take_0. cbn [map].
      repeat split; try done; [right; exact Hvals | apply sublist_nil_l]. }
  destruct (Hok1 ds eq_refl) as [Htopic Hds].
  set (w1 := world (gather (map (send (executor (topics self))) values) w)).
  rewrite events_bind, res_bind.
  destruct (gather_wait_spec ds w1) as (acked & Hev2 & Hsub & Hok2).
  rewrite Hev2, (acks_of_deliveries _ ds acked Htopic Hsub).
  assert (Hsub' : sublist (map d_value acked) values).
  { rewrite <- Hds. apply (fmap_sublist d_value), Hsub. }
  destruct (res (gather (map wait_delivery ds) w1)) as [r | exc] eqn:Hwait.
  2:{ exists values, (map d_value acked), 0. rewrite take_0. cbn [map].
      repeat split; try done. right; exact Hvals. }
  assert (Hall : map d_value acked = values).
  { rewrite (Hok2 r eq_refl). exact Hds. }
  set (w2 := world (gather (map wait_delivery ds) w1)).
  destruct (for_each_put_spec loop
              [(SCHEDULED, scheduled_version (loop_checkpoint loop))] new_tasks w2)
    as (k3 & Hev3 & Hok3).
  rewrite Hev3.
  exists values, (map d_value acked), k3.
  repeat split; try done; [right; exact Hvals | apply Hok3; assumption].
Qed.

Lemma attempt_body_res (loop0 loop : Loop) (w1 w2 : W) :
  loop_tick (graph self) loop0 w1 = (Ok (true, loop), w2) ->
  res (attempt_body self loop0 w1) =
    match res (wait_for_checkpoint loop w2) with
    | Ok _ => res (schedule_new_tasks self loop (world (wait_for_checkpoint loop w2)))
    | Raise exc => Raise exc
    end.
Proof.
  intros Ht. unfold attempt_body. rewrite res_bind, tick_unfold, Ht.
  cbn [res world fst snd]. rewrite res_bind. reflexivity.
Qed.

(** The trace of an attempt whose tick reported progress. *)
Lemma attempt_ticked_trace msg w loop w2 :
  ticked_at self msg w loop w2 ->
  exists input config,
    mto_input msg = Some input /\ mto_config msg = Some config /\
    events (attempt self msg w) =
      ELoopEnter input (ensure_config config) :: ETick :: await_events loop ++
      match res (wait_for_checkpoint loop w2) with
      | Ok _ =>
          events (schedule_new_tasks self loop (world (wait_for_checkpoint loop w2))) ++
          [ELoopExit
             (failure_of
                (res (schedule_new_tasks self loop
                        (world (wait_for_checkpoint loop w2)))))]
      | Raise exc => [ELoopExit (Some exc)]
      end.
Proof.
  intros (loop0 & w1 & Hentered & Ht).
  destruct (attempt_events_entered msg w loop0 w1 Hentered)
    as (input & config & Hi & Hc & Hev).
  exists input, config. split; [exact Hi |]. split; [exact Hc |].
  rewrite Hev, (attempt_body_res loop0 loop w1 w2 Ht), attempt_body_events, Ht.
  destruct (res (wait_for_checkpoint loop w2)) as [[] | exc]; cbn [failure_of].
  - cbn [app]. rewrite <- !app_assoc. reflexivity.
  - rewrite app_nil_r. cbn [app]. reflexivity.
Qed.

(** Either the attempt records no event of the dispatch, or its tick
    reported progress, the checkpoint wait returned, and the trace is
    made of the entry, the tick, the wait, the three phases and the
    exit. *)
Lemma attempt_phases msg w :
  Forall quiet (events (attempt self msg w)) \/
  exists loop w2 values acked k3 input config,
    ticked_at self msg w loop w2 /\
    res (wait_for_checkpoint loop w2) = Ok tt /\
    let block := schedule_new_tasks self loop (world (wait_for_checkpoint loop w2)) in
    events (attempt self msg w) =
      (ELoopEnter input (ensure_config config) :: ETick :: await_events loop) ++
      map (ESend (executor (topics self))) values ++
      map (EAck (executor (topics self))) acked ++
      map (scheduled_write loop) (take k3 (unscheduled loop)) ++
      [ELoopExit (failure_of (res block))] /\
    (values = [] \/
     map (executor_message loop) (unscheduled loop) = map Ok values) /\
    sublist acked values /\
    (take k3 (unscheduled loop) <> [] ->
     acked = values /\
     map (executor_message loop) (unscheduled loop) = map Ok values) /\
    (res block = Ok tt ->
     map (executor_message loop) (unscheduled loop) = map Ok values /\
     acked = values /\
     take k3 (unscheduled loop) = unscheduled loop).
Proof.
  destruct (mto_input msg) as [input |] eqn:Hi.
  2:{ left. apply attempt_events_not_entered. intros; congruence. }
  destruct (mto_config msg) as [config |] eqn:Hc.
  2:{ left. apply attempt_events_not_entered. intros; congruence. }
  destruct (loop_aenter (graph self) input (ensure_config config) w)
    as [[loop0 | exc] w1] eqn:He.
  2:{ left. apply attempt_events_not_entered. intros; congruence. }
  assert (Hentered : loop_entered self msg w loop0 w1) by (exists input, config; auto).
  destruct (loop_tick (graph self) loop0 w1) as [[[[] loop] | exc] w2] eqn:Ht.
  2,3: left; rewrite (attempt_events self msg w input config loop0 w1 Hi Hc He),
         attempt_body_events, Ht; repeat constructor.
  assert (Hticked : ticked_at self msg w loop w2) by (exists loop0, w1; auto).
  destruct (attempt_ticked_trace msg w loop w2 Hticked)
    as (input' & config' & Hi' & Hc' & Hev).
  rewrite Hi in Hi'. rewrite Hc in Hc'. simplify_eq.
  destruct (res (wait_for_checkpoint loop w2)) as [[] | exc] eqn:Hw.
  2:{ left. rewrite Hev. constructor; [repeat constructor |].
      constructor; [repeat constructor |].
      apply Forall_app. split; [apply await_events_quiet | repeat constructor]. }
  right.
  destruct (schedule_phases loop (world (wait_for_checkpoint loop w2)))
    as (values & acked & k3 & Hblock & Hvals & Hsub & Hpw & Hok).
  exists loop, w2, values, acked, k3, input', config'.
  split; [exact Hticked |]. split; [exact Hw |]. cbn zeta.
  split; [| auto].
  rewrite Hev, Hblock. cbn [app]. rewrite <- !app_assoc. reflexivity.
Qed.

(** X4. An attempt whose loop left without a failure after a tick that
    reported progress made exactly these calls, in this order: the
    entry, the tick, the wait for the checkpoint (when the loop exposes
    the future), one send for every unscheduled task, in the order of
    the tasks, then one acknowledgment for each, then one write for
    each, then the exit. *)
Theorem successful_attempt_trace (msg : MessageToOrchestrator) (w : W)
    (loop : Loop) (w2 : W) :
  ticked_at self msg w loop w2 ->
  ELoopExit None ∈ events (attempt self msg w) ->
  exists values input config,
    mto_input msg = Some input /\ mto_config msg = Some config /\
    map (executor_message loop) (unscheduled loop) = map Ok values /\
    events (attempt self msg w) =
      [ELoopEnter input (ensure_config config); ETick] ++
      await_events loop ++
      map (ESend (executor (topics self))) values ++
      map (EAck (executor (topics self))) values ++
      map (scheduled_write loop) (unscheduled loop) ++
      [ELoopExit None] /\
    count is_send (events (attempt self msg w)) = length (unscheduled loop) /\
    count is_ack (events (attempt self msg w)) = length (unscheduled loop) /\
    count is_put_writes (events (attempt self msg w)) = length (unscheduled loop).
Proof.
  intros Hticked Hexit.
  destruct (attempt_ticked_trace msg w loop w2 Hticked)
    as (input & config & Hi & Hc & Hev).
  set (wait := wait_for_checkpoint loop w2) in *.
  set (block := schedule_new_tasks self loop (world wait)) in *.
  assert (Hbody : Forall body_event (events block)) by apply emits_body_schedule.
  assert (Hok : res wait = Ok tt /\ res block = Ok tt).
  { rewrite Hev in Hexit.
    apply elem_of_cons in Hexit as [Hexit | Hexit]; [discriminate |].
    apply elem_of_cons in Hexit as [Hexit | Hexit]; [discriminate |].
    apply elem_of_app in Hexit as [Hexit | Hexit].
    { unfold await_events in Hexit. destruct (loop_put_checkpoint_fut loop).
      - apply list_elem_of_singleton in Hexit. discriminate.
      - apply elem_of_nil in Hexit. contradiction. }
    destruct (res wait) as [[] | exc].
    2:{ apply list_elem_of_singleton in Hexit. discriminate. }
    split; [reflexivity |].
    apply elem_of_app in Hexit as [Hexit | Hexit].
    { rewrite Forall_forall in Hbody. specialize (Hbody _ Hexit). contradiction. }
    apply list_elem_of_singleton in Hexit.
    destruct (res block) as [[] | exc]; [reflexivity | discriminate]. }
  destruct Hok as [Hwait Hblock].
  destruct (schedule_phases loop (world wait))
    as (values & acked & k3 & Hshape & _ & _ & _ & Hdone).
  destruct (Hdone Hblock) as (Hvals & Hk2 & Hk3).
  rewrite Hk2, Hk3 in Hshape.
  assert (Hlen : length values = length (unscheduled loop)).
  { apply (f_equal length) in Hvals. rewrite !length_map in Hvals. lia. }
  assert (Htr : events (attempt self msg w) =
      [ELoopEnter input (ensure_config config); ETick] ++
      await_events loop ++
      map (ESend (executor (topics self))) values ++
      map (EAck (executor (topics self))) values ++
      map (scheduled_write loop) (unscheduled loop) ++
      [ELoopExit None]).
  { fold block in Hshape. rewrite Hev, Hwait, Hblock, Hshape. cbn [failure_of app].
    rewrite <- !app_assoc. reflexivity. }
  exists values, input, config.
  split; [exact Hi |]. split; [exact Hc |]. split; [exact Hvals |].
  split; [exact Htr |].
  pose proof (await_events_quiet loop) as Hq.
  rewrite Htr, !count_app, !count_cons, !count_nil.
  rewrite !(count_none _ (await_events loop)).
  2:{ apply quiet_not_put_writes, Hq. }
  2:{ eapply Forall_impl; [exact Hq |]. intros ev (_ & Ha & _). exact Ha. }
  2:{ apply quiet_not_send, Hq. }
  rewrite (count_map is_send (ESend _) values true) by reflexivity.
  rewrite (count_map is_send (EAck _) values false) by reflexivity.
  rewrite (count_map is_send (scheduled_write loop) _ false) by reflexivity.
  rewrite (count_map is_ack (ESend _) values false) by reflexivity.
  rewrite (count_map is_ack (EAck _) values true) by reflexivity.
  rewrite (count_map is_ack (scheduled_write loop) _ false) by reflexivity.
  rewrite (count_map is_put_writes (ESend _) values false) by reflexivity.
  rewrite (count_map is_put_writes (EAck _) values false) by reflexivity.
  rewrite (count_map is_put_writes (scheduled_write loop) _ true) by reflexivity.
  cbn [is_send is_ack is_put_writes]. lia.
Qed.

Lemma app_split_before (p : event -> bool) (l1 l2 pre suf : list event) (x : event) :
  Forall (fun ev => p ev = false) l2 ->
  p x = true ->
  l1 ++ l2 = pre ++ x :: suf ->
  exists mid, l1 = pre ++ x :: mid /\ suf = mid ++ l2.
Proof.
  intros Hl2 Hx. revert pre.
  induction l1 as [| y l1 IH]; intros pre Heq.
  - cbn in Heq. rewrite Heq in Hl2. apply Forall_app in Hl2 as [_ Hl2].
    apply Forall_cons in Hl2 as [Hl2 _]. congruence.
  - destruct pre as [| z pre]; cbn in Heq.
    + injection Heq as -> <-. exists l1. split; reflexivity.
    + injection Heq as -> Heq. destruct (IH pre Heq) as (mid & -> & ->).
      exists mid. split; reflexivity.
Qed.

Lemma ticked_inj msg w loop loop' :
  ticked self msg w loop -> ticked self msg w loop' -> loop = loop'.
Proof.
  intros H H'. apply ticked_ticked_at in H as [w2 H], H' as [w2' H'].
  apply (ticked_at_inj msg w loop w2 loop' w2' H H').
Qed.

Lemma quiet_counts (tr : list event) :
  Forall quiet tr ->
  count is_send tr = 0 /\ count is_ack tr = 0 /\ count is_put_writes tr = 0.
Proof.
  intros Hq. repeat split; apply count_none.
  - apply quiet_not_send, Hq.
  - eapply Forall_impl; [exact Hq |]. intros ev (_ & Ha & _). exact Ha.
  - apply quiet_not_put_writes, Hq.
Qed.

(** How many sends, acknowledgments and writes a trace of the shape of
    [attempt_phases] holds. *)
Lemma phases_counts (before : list event) (topic : string) (sends acks : list Value)
    (loop : Loop) (tasks : list PregelExecutableTask) (exit : option exn) :
  Forall quiet before ->
  let tr := before ++ map (ESend topic) sends ++ map (EAck topic) acks ++
            map (scheduled_write loop) tasks ++ [ELoopExit exit] in
  count is_send tr = length sends /\
  count is_ack tr = length acks /\
  count is_put_writes tr = length tasks.
Proof.
  intros Hq tr. subst tr. destruct (quiet_counts before Hq) as (Hs & Ha & Hp).
  rewrite !count_app, !count_cons, !count_nil, Hs, Ha, Hp.
  rewrite (count_map is_send (ESend _) sends true) by reflexivity.
  rewrite (count_map is_send (EAck _) acks false) by reflexivity.
  rewrite (count_map is_send (scheduled_write loop) _ false) by reflexivity.
  rewrite (count_map is_ack (ESend _) sends false) by reflexivity.
  rewrite (count_map is_ack (EAck _) acks true) by reflexivity.
  rewrite (count_map is_ack (scheduled_write loop) _ false) by reflexivity.
  rewrite (count_map is_put_writes (ESend _) sends false) by reflexivity.
  rewrite (count_map is_put_writes (EAck _) acks false) by reflexivity.
  rewrite (count_map is_put_writes (scheduled_write loop) _ true) by reflexivity.
  cbn [is_send is_ack is_put_writes]. lia.
Qed.

Lemma before_quiet (input : pyval) (config : RunnableConfig) (loop : Loop) :
  Forall quiet (ELoopEnter input config :: ETick :: await_events loop).
Proof.
  constructor; [repeat constructor |]. constructor; [repeat constructor |].
  apply await_events_quiet.
Qed.

(** X5. The dispatch of the new tasks of a tick goes by phases.  Once
    the executor messages are built, a send is made for every
    unscheduled task, also after a send that the producer refused; the
    first task is marked only after every send was acknowledged; so in
    every trace, complete or cut short by a failure, the writes are at
    most as many as the acknowledgments, these at most as many as the
    sends, the sends are none or as many as the tasks, no send follows
    an acknowledgment and no write precedes one. *)
Theorem dispatch_phases (msg : MessageToOrchestrator) (w : W) (loop : Loop) :
  ticked self msg w loop ->
  let tr := events (attempt self msg w) in
  count is_put_writes tr <= count is_ack tr /\
  count is_ack tr <= count is_send tr /\
  count is_send tr <= length (unscheduled loop) /\
  (0 < count is_send tr -> count is_send tr = length (unscheduled loop)) /\
  (0 < count is_put_writes tr -> count is_ack tr = length (unscheduled loop)) /\
  (forall pre topic value suf,
     tr = pre ++ EAck topic value :: suf ->
     count is_put_writes pre = 0 /\ count is_send suf = 0).
Proof.
  intros Ht tr. subst tr.
  destruct (attempt_phases msg w) as
    [Hq | (loop' & w2 & values & acked & k3 & input & config & Hticked & _ & Hev &
           Hvals & Hsub & Hpw & _)].
  { destruct (quiet_counts _ Hq) as (-> & -> & ->).
    repeat split; try lia.
    - rewrite H in Hq. apply Forall_app in Hq as [Hq _].
      apply quiet_counts in Hq as (_ & _ & Hq). exact Hq.
    - rewrite H in Hq. apply Forall_app in Hq as [_ Hq].
      apply Forall_cons in Hq as [_ Hq].
      apply quiet_counts in Hq as (Hq & _ & _). exact Hq. }
  cbn zeta in Hev.
  assert (loop' = loop) as ->
    by (apply (ticked_inj msg w); [apply (ticked_at_ticked msg w loop' w2) |]; assumption).
  pose proof (before_quiet input (ensure_config config) loop) as Hb.
  destruct (phases_counts _ (executor (topics self)) values acked
              loop (take k3 (unscheduled loop))
              (failure_of (res (schedule_new_tasks self loop
                                  (world (wait_for_checkpoint loop w2))))) Hb)
    as (Hs & Ha & Hp).
  rewrite <- Hev in Hs, Ha, Hp. rewrite Hs, Ha, Hp.
  assert (Hlen : values = [] \/ length values = length (unscheduled loop)).
  { destruct Hvals as [-> | Hvals]; [left; reflexivity | right].
    apply (f_equal length) in Hvals. rewrite !length_map in Hvals. lia. }
  assert (Hacked : length acked <= length values) by apply sublist_length, Hsub.
  assert (Hpw' : 0 < length (take k3 (unscheduled loop)) ->
                 length acked = length values /\
                 length values = length (unscheduled loop)).
  { intros Hpos. destruct Hpw as (H1 & H3).
    - intros Hnil. rewrite Hnil in Hpos. cbn in Hpos. lia.
    - apply (f_equal length) in H3. rewrite !length_map in H3.
      rewrite H1. lia. }
  pose proof (length_take (unscheduled loop) k3) as Hk3.
  assert (Hsends : length values <= length (unscheduled loop) /\
                   (0 < length values -> length values = length (unscheduled loop))).
  { destruct Hlen as [-> | Hlen]; cbn; lia. }
  split; [lia |]. split; [lia |]. split; [lia |]. split; [lia |]. split; [lia |].
  intros pre topic value suf Htr. rewrite Hev in Htr. split.
    + rewrite !app_assoc in Htr. rewrite <- (app_assoc _ _ [ELoopExit _]) in Htr.
      apply (app_split_before is_ack) in Htr as (mid & Hpre & _); [| | reflexivity].
      2:{ apply Forall_app. split; [apply Forall_map, Forall_forall | repeat constructor].
          intros t _. reflexivity. }
      assert (Hz : count is_put_writes (pre ++ EAck topic value :: mid) = 0).
      { rewrite <- Hpre, !count_app.
        destruct (quiet_counts _ Hb) as (_ & _ & ->).
        rewrite (count_map is_put_writes (ESend _) _ false) by reflexivity.
        rewrite (count_map is_put_writes (EAck _) _ false) by reflexivity.
        reflexivity. }
      rewrite count_app in Hz. lia.
    + rewrite app_assoc in Htr.
      apply (app_split_at is_ack) in Htr as (mid & _ & Hsuf); [| | reflexivity].
      2:{ apply Forall_app. split.
          - eapply Forall_impl; [exact Hb |]. intros ev (_ & Ha' & _). exact Ha'.
          - apply Forall_map, Forall_forall. intros v _. reflexivity. }
      assert (Hz : count is_send (mid ++ EAck topic value :: suf) = 0).
      { rewrite <- Hsuf, !count_app, count_cons, count_nil.
        rewrite (count_map is_send (EAck _) _ false) by reflexivity.
        rewrite (count_map is_send (scheduled_write loop) _ false) by reflexivity.
        reflexivity. }
      rewrite count_app, count_cons in Hz. lia.
Qed.

(** X6. A task that the tick left marked as scheduled is not dispatched
    again: when the tasks of the loop have distinct ids, no message for
    the id of such a task is sent and no write marks it. *)
Theorem scheduled_task_not_redispatched (msg : MessageToOrchestrator) (w : W)
    (loop : Loop) (t : PregelExecutableTask) :
  ticked self msg w loop ->
  NoDup (map task_id (loop_tasks loop).*2) ->
  t ∈ (loop_tasks loop).*2 ->
  task_scheduled t = true ->
  (forall topic m, ESend topic (ToExecutor m) ∈ events (attempt self msg w) ->
                   et_id (mte_task m) <> task_id t) /\
  (forall writes, ~ EPutWrites (task_id t) writes ∈ events (attempt self msg w)).
Proof.
  intros Ht Hnodup Hin Hsched.
  assert (Hfresh : forall t', t' ∈ unscheduled loop -> task_id t' <> task_id t).
  { intros t' Hin' Hid. unfold unscheduled in Hin'.
    apply list_elem_of_filter in Hin' as [Hns Hin'].
    assert (t' = t); [| congruence].
    revert Hnodup Hin Hin' Hid. generalize ((loop_tasks loop).*2). intros l.
    induction l as [| a l IH]; intros Hnd H1 H2 Hid; [inversion H1 |].
    cbn [map] in Hnd. apply NoDup_cons in Hnd as [Ha Hnd].
    apply elem_of_cons in H1 as [-> | H1], H2 as [-> | H2]; auto.
    - exfalso. apply Ha. rewrite <- Hid. apply list_elem_of_In, in_map, list_elem_of_In, H2.
    - exfalso. apply Ha. rewrite Hid. apply list_elem_of_In, in_map, list_elem_of_In, H1. }
  split.
  - intros topic m Hsend.
    destruct (send_of_attempt self msg w topic _ Hsend) as (loop' & t' & Ht' & Hin' & _ & Hmsg).
    assert (loop' = loop) as -> by (apply (ticked_inj msg w); assumption).
    unfold executor_message in Hmsg.
    destruct (configurable (loop_checkpoint_config loop)); [| discriminate].
    injection Hmsg as <-. cbn [mte_task et_id]. apply Hfresh, Hin'.
  - intros writes Hput.
    apply list_elem_of_split in Hput as (pre & suf & Htr).
    destruct (put_writes_of_attempt self msg w pre suf _ _ Htr)
      as (loop' & values & t' & Ht' & Hin' & Heq & _).
    assert (loop' = loop) as -> by (apply (ticked_inj msg w); assumption).
    unfold scheduled_write in Heq. injection Heq as Hid _.
    apply (Hfresh t' Hin'). symmetry. exact Hid.
Qed.

(** X7. Nothing is sent to the executors before the checkpoint is
    durable: every send of an attempt comes after the tick and, when
    the loop exposes the future of the checkpoint write, after the wait
    on that future, which returned without a failure. *)
Theorem durable_before_dispatch (msg : MessageToOrchestrator) (w : W)
    (pre suf : list event) (topic : string) (value : Value) :
  events (attempt self msg w) = pre ++ ESend topic value :: suf ->
  exists loop w2,
    ticked_at self msg w loop w2 /\
    ETick ∈ pre /\
    forall fut, loop_put_checkpoint_fut loop = Some fut ->
      EAwaitCheckpoint fut ∈ pre /\ (future_wait fut w2).1 = Ok tt.
Proof.
  intros Htr.
  destruct (attempt_phases msg w) as
    [Hq | (loop & w2 & values & acked & k3 & input & config & Hticked & Hwait & Hev & _)].
  { rewrite Htr in Hq. apply Forall_app in Hq as [_ Hq].
    apply Forall_cons in Hq as [(Hq & _) _]. discriminate. }
  cbn zeta in Hev. rewrite Hev in Htr.
  apply (app_split_at is_send) in Htr as (mid & -> & _);
    [| apply quiet_not_send, before_quiet | reflexivity].
  exists loop, w2. split; [exact Hticked |].
  split; [apply elem_of_app; left; right; left |].
  intros fut Hfut. split.
  - apply elem_of_app. left. do 2 right. unfold await_events. rewrite Hfut. left.
  - unfold wait_for_checkpoint, await_checkpoint in Hwait. rewrite Hfut in Hwait.
    rewrite perform_unfold in Hwait. exact Hwait.
Qed.

(** X8. When the wait for the checkpoint fails, the attempt goes
    straight to the exit of the loop with that failure: no executor
    message is built, nothing is sent, acknowledged or written, and
    the attempt raises that failure unless the exit swallows it or
    fails itself. *)
Theorem checkpoint_failure_blocks_dispatch (msg : MessageToOrchestrator) (w : W)
    (loop : Loop) (w2 : W) (fut : Fut) (exc : exn) (w3 : W) :
  ticked_at self msg w loop w2 ->
  loop_put_checkpoint_fut loop = Some fut ->
  future_wait fut w2 = (Raise exc, w3) ->
  exists input config loop0,
    mto_input msg = Some input /\ mto_config msg = Some config /\
    events (attempt self msg w) =
      [ELoopEnter input (ensure_config config); ETick; EAwaitCheckpoint fut;
       ELoopExit (Some exc)] /\
    res (attempt self msg w) =
      match (loop_aexit loop0 (Some exc) w3).1 with
      | Ok true => Ok tt
      | Ok false => Raise exc
      | Raise exc' => Raise exc'
      end.
Proof.
  intros Hticked Hfut Hwait.
  destruct (attempt_ticked_trace msg w loop w2 Hticked)
    as (input & config & Hi & Hc & Hev).
  destruct Hticked as (loop0 & w1 & Hentered & Ht).
  assert (Hw : wait_for_checkpoint loop w2 =
               {| res := Raise exc; world := w3; events := [EAwaitCheckpoint fut] |}).
  { unfold wait_for_checkpoint, await_checkpoint. rewrite Hfut, perform_unfold, Hwait.
    reflexivity. }
  exists input, config, loop0. split; [exact Hi |]. split; [exact Hc |]. split.
  - rewrite Hev, Hw. unfold await_events. rewrite Hfut. reflexivity.
  - rewrite (attempt_res_entered msg w loop0 w1 Hentered). cbn zeta.
    rewrite (attempt_body_res loop0 loop w1 w2 Ht), Hw. cbn [res].
    unfold attempt_body. rewrite world_bind, tick_unfold, Ht. cbn [res world fst snd].
    rewrite world_bind, Hw. reflexivity.
Qed.

Lemma schedule_unconfigured (loop : Loop) (w : W) :
  unscheduled loop <> [] ->
  configurable (loop_checkpoint_config loop) = None ->
  res (schedule_new_tasks self loop w) = Raise (KeyError "configurable") /\
  events (schedule_new_tasks self loop w) = [].
Proof.
  intros Hnew Hconf. unfold schedule_new_tasks.
  destruct (unscheduled loop) as [| t ts] eqn:Hu; [contradiction |].
  rewrite res_bind, events_bind.
  destruct (comprehension_pure (executor_message loop) (t :: ts) w) as [-> _].
  destruct (res (comprehension (executor_message loop) (t :: ts) w))
    as [values | exc] eqn:Hvals.
  - apply comprehension_ok in Hvals. destruct values; [discriminate |].
    cbn [map] in Hvals. injection Hvals as Hvals _.
    unfold executor_message in Hvals. rewrite Hconf in Hvals. discriminate.
  - apply comprehension_raise in Hvals as (a & _ & Ha).
    unfold executor_message in Ha. rewrite Hconf in Ha. injection Ha as <-.
    split; reflexivity.
Qed.

(** X9. When the tick leaves new tasks and the checkpoint config of
    the loop has no [configurable] entry, building the first executor
    message raises [KeyError('configurable')]: this happens after the
    wait for the checkpoint, nothing is sent, acknowledged or written,
    and the loop is left with that failure. *)
Theorem unconfigured_checkpoint_fails (msg : MessageToOrchestrator) (w : W)
    (loop : Loop) (w2 : W) :
  ticked_at self msg w loop w2 ->
  unscheduled loop <> [] ->
  configurable (loop_checkpoint_config loop) = None ->
  res (wait_for_checkpoint loop w2) = Ok tt ->
  exists input config,
    mto_input msg = Some input /\ mto_config msg = Some config /\
    events (attempt self msg w) =
      [ELoopEnter input (ensure_config config); ETick] ++
      await_events loop ++ [ELoopExit (Some (KeyError "configurable"))] /\
    count is_send (events (attempt self msg w)) = 0 /\
    count is_ack (events (attempt self msg w)) = 0 /\
    count is_put_writes (events (attempt self msg w)) = 0.
Proof.
  intros Hticked Hnew Hconf Hwait.
  destruct (attempt_ticked_trace msg w loop w2 Hticked)
    as (input & config & Hi & Hc & Hev).
  rewrite Hwait in Hev.
  destruct (schedule_unconfigured loop (world (wait_for_checkpoint loop w2)) Hnew Hconf)
    as [Hres Hnone].
  rewrite Hres, Hnone in Hev. cbn [failure_of app] in Hev.
  exists input, config. split; [exact Hi |]. split; [exact Hc |].
  split; [exact Hev |].
  apply quiet_counts. rewrite Hev.
  constructor; [repeat constructor |]. constructor; [repeat constructor |].
  apply Forall_app. split; [apply await_events_quiet | repeat constructor].
Qed.

End Attempt.

End AttemptSpec.

(** ** The iteration: how [__anext__] and [each] fail *)

Module IterationSpec.
Import Py Constants Orchestrator OrchestratorSpec Outcomes.

Section Iteration.
Context {W : Type} {E : Collaborators W}.
Variable self : KafkaOrchestrator.

(** A gather over [each] that fails: the messages before the first
    one whose [each] failed were processed, and the messages after it
    are run all the same. *)
Lemma gather_each_raise (msgs : list MessageToOrchestrator) (w : W) (exc' : exn) :
  res (gather (map (each self) msgs) w) = Raise exc' ->
  exists before msg rest evs wb,
    msgs = before ++ msg :: rest /\
    processed self before w evs wb /\
    res (each self msg wb) = Raise exc' /\
    events (gather (map (each self) msgs) w) =
      evs ++ events (each self msg wb) ++
      events (gather (map (each self) rest) (world (each self msg wb))).
Proof.
  revert w. induction msgs as [| m msgs IH]; intros w; cbn [map]; [discriminate |].
  rewrite gather_cons. cbn zeta. cbn [res world events].
  destruct (res (each self m w)) as [[] | exc] eqn:Heach.
  - destruct (res (gather (map (each self) msgs) (world (each self m w))))
      as [rs | exc] eqn:Hrest; [discriminate |].
    intros [= ->].
    destruct (IH _ Hrest) as (before & msg & rest & evs & wb & -> & Hp & Hr & Hev).
    assert (H1 : processed self [m] w (events (each self m w)) (world (each self m w))).
    { pose proof (gather_each_processed self [m] w [tt]) as H. cbn [map] in H.
      rewrite gather_cons in H. cbn zeta in H. cbn [res world events gather ret] in H.
      rewrite Heach, app_nil_r in H. apply H. reflexivity. }
    exists (m :: before), msg, rest, (events (each self m w) ++ evs), wb.
    split; [reflexivity |].
    split; [apply (processed_app self [m] before _ _ _ _ _ H1 Hp) |].
    split; [exact Hr |]. rewrite Hev, <- app_assoc. reflexivity.
  - intros [= ->]. exists [], m, msgs, [], w.
    split; [reflexivity |]. split; [constructor |]. split; [exact Heach | reflexivity].
Qed.

(** X10. An iteration fails in one of three ways only: [getmany] or the
    deserialization failed (nothing was processed or committed); the
    publication of the error record of a message the harness gave up on
    failed (the failure of that publication is raised and nothing is
    committed); or every message was processed and [commit], the last
    call, failed.  A failure of the engine alone never makes the
    iteration fail.  Once the batch is deserialized every message of
    it is dispatched, also when the publication for a message before it
    failed. *)
Theorem iteration_failure_causes (w : W) (exc' : exn) :
  res (anext self w) = Raise exc' ->
  (res (next_batch self w) = Raise exc' /\
   events (anext self w) = [EGetMany (batch_max_ms self) (batch_max_n self)]) \/
  (exists msgs,
     res (next_batch self w) = Ok msgs /\
     (forall msg, msg ∈ msgs -> EDispatch msg ∈ events (anext self w)) /\
     ((exists msg exc w',
         msg ∈ msgs /\
         res (harness self msg w') = Raise exc /\
         (producer_send_and_wait (error (topics self)) (error_message self msg exc)
            (world (harness self msg w'))).1 = Raise exc' /\
         error_record self msg exc ∈ events (anext self w) /\
         count is_commit (events (anext self w)) = 0) \/
      (exists evs w2,
         processed self msgs (world (next_batch self w)) evs w2 /\
         (consumer_commit w2).1 = Raise exc' /\
         count is_commit (events (anext self w)) = 1 /\
         last (events (anext self w)) = Some ECommit))).
Proof.
  intros Hres. rewrite anext_res in Hres.
  destruct (next_batch_spec self w) as (Hev & _ & _).
  pose proof (anext_events self w) as Htr. rewrite Hev in Htr.
  destruct (res (next_batch self w)) as [msgs | exc] eqn:Hnb.
  2:{ left. split; [congruence | exact Htr]. }
  right. exists msgs. split; [reflexivity |]. cbn zeta in Hres, Htr.
  set (w1 := world (next_batch self w)) in *.
  split.
  { intros msg Hin. rewrite Htr. right. apply elem_of_app. left.
    apply gather_each_dispatches, Hin. }
  destruct (res (gather (map (each self) msgs) w1)) as [rs | exc] eqn:Hg.
  - right. exists (events (gather (map (each self) msgs) w1)),
      (world (gather (map (each self) msgs) w1)).
    split; [eapply gather_each_processed, Hg |].
    split; [destruct (consumer_commit _).1; congruence |].
    rewrite Htr. split.
    + cbn [app]. rewrite count_cons, count_app, gather_each_no_commit.
      rewrite count_cons, count_nil. reflexivity.
    + rewrite app_assoc. apply last_snoc.
  - left. injection Hres as ->.
    destruct (gather_each_raise msgs w1 exc' Hg)
      as (before & msg & rest & evs & wb & -> & _ & Hr & Hevs).
    rewrite each_res in Hr.
    destruct (res (harness self msg wb)) as [[] | exc] eqn:Hh; [discriminate |].
    exists msg, exc, wb.
    split; [apply elem_of_app; right; left |]. split; [exact Hh |].
    split; [exact Hr |]. rewrite Htr, app_nil_r. split.
    + right. rewrite Hevs, each_events, Hh.
      apply elem_of_app. right. apply elem_of_app. left.
      apply elem_of_app. right. left.
    + rewrite count_app, gather_each_no_commit. reflexivity.
Qed.

(** X11. When [getmany] fails, the iteration makes no other call: no
    message is processed and nothing is committed.  A
    [ConsumerStoppedError] ends the iteration with
    [StopAsyncIteration]; any other failure is raised as it is. *)
Theorem getmany_failure_ends_iteration (w : W) (exc : exn) (w1 : W) :
  consumer_getmany (batch_max_ms self) (batch_max_n self) w = (Raise exc, w1) ->
  events (anext self w) = [EGetMany (batch_max_ms self) (batch_max_n self)] /\
  world (anext self w) = w1 /\
  (exc = ConsumerStoppedError -> res (anext self w) = Raise StopAsyncIteration) /\
  (exc <> ConsumerStoppedError -> res (anext self w) = Raise exc).
Proof.
  intros Hg. destruct (next_batch_spec self w) as (Hev & Hw & Hr).
  rewrite Hg in Hw, Hr. cbn [fst snd] in Hw, Hr.
  split; [rewrite anext_events, Hev, Hr; reflexivity |].
  split; [unfold anext; rewrite world_bind, Hr; exact Hw |].
  rewrite anext_res, Hr.
  split; [intros ->; reflexivity | intros Hne; destruct exc; try reflexivity].
  contradiction.
Qed.

(** X12. A failure of [commit] is raised as it is, after every message
    of the batch was processed: the call sits outside the [try] block,
    so that even a [ConsumerStoppedError] raised by [commit] is not
    turned into the end of the iteration. *)
Theorem commit_failure_propagates (w : W) (msgs : list MessageToOrchestrator)
    (evs : list event) (w2 : W) (exc : exn) (w3 : W) :
  res (next_batch self w) = Ok msgs ->
  processed self msgs (world (next_batch self w)) evs w2 ->
  consumer_commit w2 = (Raise exc, w3) ->
  res (anext self w) = Raise exc /\
  world (anext self w) = w3 /\
  events (anext self w) =
    EGetMany (batch_max_ms self) (batch_max_n self) :: evs ++ [ECommit].
Proof.
  intros Hnb Hp Hc.
  destruct (processed_gather self _ _ _ _ Hp) as (rs & Hr & Hev & Hw).
  destruct (next_batch_spec self w) as (Hev0 & _ & _).
  split; [| split].
  - rewrite anext_res, Hnb. cbn zeta. rewrite Hr, Hw, Hc. reflexivity.
  - unfold anext. rewrite world_bind, Hnb, world_bind, Hr, Hw, world_bind.
    unfold commit. rewrite perform_unfold, Hc. reflexivity.
  - rewrite anext_events, Hnb, Hev0. cbn zeta. rewrite Hr, Hev. reflexivity.
Qed.

End Iteration.

End IterationSpec.

(** ** The lifecycle: [__aenter__] and [__aexit__] *)

Module LifecycleSpec.
Import Py Constants Orchestrator Lifecycle.

Section Clients.
Context {W C : Type} {K : Clients W C}.

Lemma new_unfold (cls : ClientClass) (args : list string) (explicit extra : Kwargs)
    (s : State W C) :
  new cls args explicit extra s =
    match keywords (class_name cls) explicit extra with
    | Ok kw =>
        ((client_new cls args kw (outside s)).1,
         {| stack := stack s; consumer := consumer s; producer := producer s;
            outside := (client_new cls args kw (outside s)).2;
            calls := calls s ++ [CNew cls args kw] |})
    | Raise exc => (Raise exc, s)
    end.
Proof.
  unfold new, lbind, llift, record_call, on_world. cbn.
  destruct (keywords _ _ _); [| reflexivity].
  destruct (client_new _ _ _ _) as [[] ?]; reflexivity.
Qed.

Lemma enter_unfold (cm : C) (s : State W C) :
  enter_async_context cm s =
    match (client_aenter cm (outside s)).1 with
    | Ok c =>
        (Ok c, {| stack := cm :: stack s; consumer := consumer s;
                  producer := producer s;
                  outside := (client_aenter cm (outside s)).2;
                  calls := calls s ++ [CEnter cm] |})
    | Raise exc =>
        (Raise exc, {| stack := stack s; consumer := consumer s;
                       producer := producer s;
                       outside := (client_aenter cm (outside s)).2;
                       calls := calls s ++ [CEnter cm] |})
    end.
Proof.
  unfold enter_async_context, lbind, record_call, on_world, push, lret. cbn.
  destruct (client_aenter _ _) as [[] ?]; reflexivity.
Qed.

(** A keyword of the dictionary that is also given explicitly makes
    the call a [TypeError]. *)
Lemma keywords_repeated (callee : string) (explicit extra : Kwargs)
    (key : string) (v : kwarg) :
  (key, v) ∈ extra -> key ∈ explicit.*1 ->
  exists message, keywords callee explicit extra = Raise (Error "TypeError" [VStr message]).
Proof.
  intros Hin Hkey. unfold keywords.
  destruct (filter (fun kv => kv.1 ∈ explicit.*1) extra) as [| [key' v'] l] eqn:Hf.
  - assert (Hmem : (key, v) ∈ filter (fun kv => kv.1 ∈ explicit.*1) extra)
      by (apply list_elem_of_filter; split; assumption).
    rewrite Hf in Hmem. apply elem_of_nil in Hmem. contradiction.
  - eexists. reflexivity.
Qed.

Lemma keywords_ok (callee : string) (explicit extra kw : Kwargs) :
  keywords callee explicit extra = Ok kw -> kw = explicit ++ extra.
Proof.
  unfold keywords.
  destruct (filter (fun kv => kv.1 ∈ explicit.*1) extra) as [| [key v] l];
    [| discriminate].
  intros [= <-]. reflexivity.
Qed.

Lemma run_callbacks_two (cm' cm : C) (u : Unwinding) (s : State W C) :
  run_callbacks [cm'; cm] u s =
    let r1 := client_aexit cm' (exc_details u) (outside s) in
    let u1 := after_callback u r1.1 in
    let r2 := client_aexit cm (exc_details u1) r1.2 in
    (after_callback u1 r2.1,
     {| stack := []; consumer := consumer s; producer := producer s;
        outside := r2.2;
        calls := calls s ++ [CExit cm' (exc_details u); CExit cm (exc_details u1)] |}).
Proof.
  cbn [run_callbacks].
  destruct (client_aexit cm' (exc_details u) (outside s)) as [r1 w1]. cbn.
  destruct (client_aexit cm _ w1) as [r2 w2]. cbn.
  rewrite <- app_assoc. reflexivity.
Qed.

(** X13. After [__aenter__] returned, the consumer was built on the
    orchestrator topic with the three keywords the orchestrator sets
    and the extra ones, then entered, and the producer after it, with
    [serde.dumps] as serializer; the stack holds the producer on top
    of the consumer.  [__aexit__] then calls the exit of the
    producer, then that of the consumer, each exactly once, the
    consumer's even when the producer's raised (it is then given that
    exception); it empties the stack, so that a second [__aexit__]
    calls nothing.  When the exit of the producer raises and that of
    the consumer returns false, the exception of the producer is
    raised after both were called; when both return false,
    [__aexit__] returns false, so that an exception of the body goes
    on. *)
Theorem enter_then_exit (self : Instance) (s0 s1 : State W C) (exc : option exn) :
  stack s0 = [] ->
  aenter self s0 = (Ok tt, s1) ->
  exists cm cm' c p kw kw',
    kw = [("auto_offset_reset", KwValue (VStr "earliest"));
          ("group_id", KwValue (VStr (group_id (this self))));
          ("enable_auto_commit", KwValue (VBool false))] ++ kwargs self /\
    kw' = [("value_serializer", KwFunction "serde.dumps")] ++ kwargs self /\
    stack s1 = [cm'; cm] /\
    consumer s1 = Some c /\
    producer s1 = Some p /\
    calls s1 = calls s0 ++
      [CNew AIOKafkaConsumer [orchestrator (topics (this self))] kw; CEnter cm;
       CNew AIOKafkaProducer [] kw'; CEnter cm'] /\
    let out := aexit exc s1 in
    let exc1 := left_by cm' exc (outside s1) in
    stack out.2 = [] /\
    calls out.2 = calls s1 ++ [CExit cm' exc; CExit cm exc1] /\
    (forall exc', aexit exc' out.2 = (Ok false, out.2)) /\
    (forall e w2,
       (client_aexit cm' exc (outside s1)).1 = Raise e ->
       client_aexit cm (Some e) (client_aexit cm' exc (outside s1)).2 = (Ok false, w2) ->
       exc1 = Some e /\ out.1 = Raise e /\ outside out.2 = w2) /\
    (forall w2 w3,
       client_aexit cm' exc (outside s1) = (Ok false, w2) ->
       client_aexit cm exc w2 = (Ok false, w3) ->
       exc1 = exc /\ out.1 = Ok false /\ outside out.2 = w3).
Proof.
  intros Hstack Henter. unfold aenter in Henter.
  unfold lbind at 1 in Henter. rewrite new_unfold in Henter.
  destruct (keywords _ _ (kwargs self)) as [kw |] eqn:Hkw; [| discriminate].
  apply keywords_ok in Hkw.
  destruct (client_new AIOKafkaConsumer _ kw (outside s0)) as [[cm |] w1] eqn:Hnew;
    cbn [fst snd] in Henter; [| discriminate].
  unfold lbind at 1 in Henter. rewrite enter_unfold in Henter. cbn [outside] in Henter.
  destruct (client_aenter cm w1) as [[c |] w2] eqn:Hc; cbn [fst snd] in Henter;
    [| discriminate].
  unfold lbind at 1 in Henter. cbn [set_consumer] in Henter.
  unfold lbind at 1 in Henter. rewrite new_unfold in Henter.
  destruct (keywords _ _ (kwargs self)) as [kw' |] eqn:Hkw'; [| discriminate].
  apply keywords_ok in Hkw'.
  cbn [stack consumer producer outside calls] in Henter.
  destruct (client_new AIOKafkaProducer _ kw' w2) as [[cm' |] w3] eqn:Hnew';
    cbn [fst snd] in Henter; [| discriminate].
  unfold lbind at 1 in Henter. rewrite enter_unfold in Henter. cbn [outside] in Henter.
  destruct (client_aenter cm' w3) as [[p |] w4] eqn:Hp; cbn [fst snd] in Henter;
    [| discriminate].
  unfold lbind, set_producer, lret in Henter.
  cbn [stack consumer producer outside calls] in Henter.
  injection Henter as <-.
  exists cm, cm', c, p, kw, kw'. cbn [stack consumer producer outside calls].
  rewrite Hstack.
  split; [exact Hkw |]. split; [exact Hkw' |].
  split; [reflexivity |]. split; [reflexivity |]. split; [reflexivity |].
  split; [rewrite <- !app_assoc; reflexivity |].
  cbn zeta. unfold aexit, stack_aexit. cbn [stack].
  rewrite run_callbacks_two. cbn zeta.
  cbn [stack consumer producer outside calls exc_details].
  unfold left_by.
  set (u0 := {| exc_details := exc; suppressed_exc := false; pending_raise := false |}).
  set (r1 := client_aexit cm' exc w4).
  set (u1 := after_callback u0 r1.1).
  set (r2 := client_aexit cm (exc_details u1) r1.2).
  set (u2 := after_callback u1 r2.1).
  assert (Hout : forall r, stack (W := W) (C := C)
                   (if pending_raise u2
                    then match exc_details u2 with
                         | Some e => (Raise e, r)
                         | None => (Raise (Error "TypeError"
                                      [VStr "exceptions must derive from BaseException"]), r)
                         end
                    else (Ok (bool_decide (is_Some exc) && suppressed_exc u2), r)).2 =
                 stack r /\
                 (if pending_raise u2
                    then match exc_details u2 with
                         | Some e => (Raise e, r)
                         | None => (Raise (Error "TypeError"
                                      [VStr "exceptions must derive from BaseException"]), r)
                         end
                    else (Ok (bool_decide (is_Some exc) && suppressed_exc u2), r)).2 = r).
  { intros r. destruct (pending_raise u2); [destruct (exc_details u2) |]; auto. }
  match goal with |- context [(_, ?r)] => destruct (Hout r) as [_ Hr] end.
  rewrite !Hr. cbn [stack calls outside].
  split; [reflexivity |]. split; [reflexivity |]. split; [| split].
  - intros exc'. cbn [run_callbacks pending_raise suppressed_exc].
    rewrite andb_false_r. reflexivity.
  - intros e w5 Hr1 Hr2. subst u1 u2 r2. fold r1 in Hr1, Hr2. clear Hout Hr.
    rewrite Hr1. cbn [after_callback exc_details]. rewrite Hr2.
    cbn [fst snd after_callback pending_raise exc_details]. auto.
  - intros w5 w6 Hr1 Hr2. subst u1 u2 r2. fold r1 in Hr1. clear Hout Hr.
    rewrite Hr1. cbn [fst snd after_callback]. subst u0. cbn [exc_details].
    rewrite Hr2. cbn [fst snd after_callback pending_raise suppressed_exc].
    rewrite andb_false_r. auto.
Qed.

(** What [__aenter__] does up to the start of the consumer. *)
Lemma aenter_unfold (self : Instance) (s : State W C) :
  aenter self s =
    match keywords (class_name AIOKafkaConsumer)
            [("auto_offset_reset", KwValue (VStr "earliest"));
             ("group_id", KwValue (VStr (group_id (this self))));
             ("enable_auto_commit", KwValue (VBool false))] (kwargs self) with
    | Raise exc => (Raise exc, s)
    | Ok kw =>
        let args := [orchestrator (topics (this self))] in
        let n := client_new AIOKafkaConsumer args kw (outside s) in
        let log1 := calls s ++ [CNew AIOKafkaConsumer args kw] in
        match n.1 with
        | Raise exc =>
            (Raise exc, {| stack := stack s; consumer := consumer s;
                           producer := producer s; outside := n.2; calls := log1 |})
        | Ok cm =>
            let e := client_aenter cm n.2 in
            let log2 := log1 ++ [CEnter cm] in
            match e.1 with
            | Raise exc =>
                (Raise exc, {| stack := stack s; consumer := consumer s;
                               producer := producer s; outside := e.2; calls := log2 |})
            | Ok c =>
                let s2 := {| stack := cm :: stack s; consumer := Some c;
                             producer := producer s; outside := e.2; calls := log2 |} in
                match keywords (class_name AIOKafkaProducer)
                        [("value_serializer", KwFunction "serde.dumps")]
                        (kwargs self) with
                | Raise exc => (Raise exc, s2)
                | Ok kw' =>
                    let n' := client_new AIOKafkaProducer [] kw' e.2 in
                    let log3 := log2 ++ [CNew AIOKafkaProducer [] kw'] in
                    match n'.1 with
                    | Raise exc =>
                        (Raise exc, {| stack := cm :: stack s; consumer := Some c;
                                       producer := producer s; outside := n'.2;
                                       calls := log3 |})
                    | Ok cm' =>
                        let e' := client_aenter cm' n'.2 in
                        let log4 := log3 ++ [CEnter cm'] in
                        match e'.1 with
                        | Raise exc =>
                            (Raise exc, {| stack := cm :: stack s; consumer := Some c;
                                           producer := producer s; outside := e'.2;
                                           calls := log4 |})
                        | Ok p =>
                            (Ok tt, {| stack := cm' :: cm :: stack s;
                                       consumer := Some c; producer := Some p;
                                       outside := e'.2; calls := log4 |})
                        end
                    end
                end
            end
        end
    end.
Proof.
  unfold aenter.
  unfold lbind at 1. rewrite new_unfold.
  destruct (keywords _ _ (kwargs self)) as [kw |]; [| reflexivity]. cbn zeta.
  destruct (client_new AIOKafkaConsumer _ kw (outside s)) as [[cm |] w1];
    cbn [fst snd]; [| reflexivity].
  unfold lbind at 1. rewrite enter_unfold. cbn [outside].
  destruct (client_aenter cm w1) as [[c |] w2]; cbn [fst snd]; [| reflexivity].
  unfold lbind at 1. cbn [set_consumer].
  unfold lbind at 1. rewrite new_unfold.
  destruct (keywords _ _ (kwargs self)) as [kw' |]; [| reflexivity].
  cbn [stack consumer producer outside calls].
  destruct (client_new AIOKafkaProducer _ kw' w2) as [[cm' |] w3];
    cbn [fst snd]; [| reflexivity].
  unfold lbind at 1. rewrite enter_unfold. cbn [outside].
  destruct (client_aenter cm' w3) as [[p |] w4]; cbn [fst snd]; reflexivity.
Qed.

(** X14. [__aenter__] itself never stops a client.  When it fails,
    either the consumer was not started and the stack is as before, or
    the consumer was started and stays registered on the stack,
    running: the producer is not set, and only a later [__aexit__]
    stops the consumer, with one call. *)
Theorem failed_enter_stops_nothing (self : Instance) (s0 s1 : State W C) (exc : exn) :
  aenter self s0 = (Raise exc, s1) ->
  producer s1 = producer s0 /\
  (exists l, calls s1 = calls s0 ++ l /\ Forall (fun c => is_exit c = false) l) /\
  ((stack s1 = stack s0 /\ consumer s1 = consumer s0) \/
   (exists cm c,
      stack s1 = cm :: stack s0 /\
      consumer s1 = Some c /\
      CEnter cm ∈ calls s1 /\
      (stack s0 = [] ->
       forall exc', calls (aexit exc' s1).2 = calls s1 ++ [CExit cm exc']))).
Proof.
  rewrite aenter_unfold.
  destruct (keywords _ _ (kwargs self)) as [kw |].
  2:{ intros [= <- <-]. split; [reflexivity |].
      split; [exists []; rewrite app_nil_r; split; [reflexivity | constructor] |].
      left. split; reflexivity. }
  cbn zeta.
  destruct (client_new AIOKafkaConsumer _ kw (outside s0)) as [[cm |] w1]; cbn [fst snd].
  2:{ intros [= <- <-]. cbn. split; [reflexivity |].
      split; [eexists; split; [reflexivity | repeat constructor] |].
      left. split; reflexivity. }
  destruct (client_aenter cm w1) as [[c |] w2]; cbn [fst snd].
  2:{ intros [= <- <-]. cbn. split; [reflexivity |].
      split; [eexists; split; [rewrite <- app_assoc; reflexivity | repeat constructor] |].
      left. split; reflexivity. }
  assert (Hlater : forall w (l : list (call C)) s,
            s = {| stack := cm :: stack s0; consumer := Some c; producer := producer s0;
                   outside := w; calls := (calls s0 ++ [CNew AIOKafkaConsumer
                     [orchestrator (topics (this self))] kw]) ++ CEnter cm :: l |} ->
            Forall (fun c => is_exit c = false) l ->
            producer s = producer s0 /\
            (exists l, calls s = calls s0 ++ l /\ Forall (fun c => is_exit c = false) l) /\
            ((stack s = stack s0 /\ consumer s = consumer s0) \/
             (exists cm c,
                stack s = cm :: stack s0 /\
                consumer s = Some c /\
                CEnter cm ∈ calls s /\
                (stack s0 = [] ->
                 forall exc', calls (aexit exc' s).2 = calls s ++ [CExit cm exc'])))).
  { intros w l s -> Hl. cbn [stack consumer producer calls].
    split; [reflexivity |]. split.
    - eexists. split; [rewrite <- app_assoc; reflexivity |].
      repeat constructor. exact Hl.
    - right. exists cm, c. split; [reflexivity |]. split; [reflexivity |].
      split; [apply elem_of_app; right; left |].
      intros -> exc'. unfold aexit, stack_aexit. cbn [stack run_callbacks].
      cbn [exc_details outside]. destruct (client_aexit cm exc' w) as [r w'].
      destruct (pending_raise _); [destruct (exc_details _) |]; reflexivity. }
  destruct (keywords _ _ (kwargs self)) as [kw' |].
  2:{ intros [= <- <-]. eapply (Hlater _ []); [reflexivity | constructor]. }
  destruct (client_new AIOKafkaProducer _ kw' w2) as [[cm' |] w3]; cbn [fst snd].
  2:{ intros [= <- <-].
      apply (Hlater w3 [CNew AIOKafkaProducer [] kw']); [| repeat constructor].
      rewrite <- !app_assoc. reflexivity. }
  destruct (client_aenter cm' w3) as [[p |] w4]; cbn [fst snd]; [discriminate |].
  intros [= <- <-].
  apply (Hlater w4 [CNew AIOKafkaProducer [] kw'; CEnter cm']); [| repeat constructor].
  rewrite <- !app_assoc. reflexivity.
Qed.

Lemma init_ok (g : Pregel) (t : Topics) (group : string) (n ms : Z)
    (policy : option RetryPolicy) (extra : Kwargs) (self : Instance) :
  init g t group n ms policy extra = Ok self ->
  kwargs self = extra /\
  group_id (this self) = group /\
  Forall (fun kv => kv.1 ∉ parameters) extra.
Proof.
  unfold init.
  destruct (filter (fun kv => kv.1 ∈ parameters) extra) as [| [key v] l] eqn:Hf;
    [| discriminate].
  intros [= <-]. split; [reflexivity |]. split; [reflexivity |].
  apply Forall_forall. intros kv Hin Hkey.
  assert (Hmem : kv ∈ filter (fun kv => kv.1 ∈ parameters) extra)
    by (apply list_elem_of_filter; split; assumption).
  rewrite Hf in Hmem. apply elem_of_nil in Hmem. exact Hmem.
Qed.

(** X15. A keyword given to the constructor that names one of its
    parameters ([group_id] among them) is bound to that parameter and
    is never among the extra keyword arguments: given once more in the
    unpacked dictionary it makes the call of the constructor a
    [TypeError].  The extra keyword arguments are checked only in
    [__aenter__]: one that repeats [auto_offset_reset] or
    [enable_auto_commit], which the orchestrator sets on the consumer,
    makes [__aenter__] raise a [TypeError] before any client is built,
    and with [value_serializer] among them [__aenter__] cannot succeed
    and no producer is ever built. *)
Theorem reserved_keyword_rejected (g : Pregel) (t : Topics) (group : string)
    (n ms : Z) (policy : option RetryPolicy) (extra : Kwargs) (s0 : State W C)
    (key : string) (v : kwarg) :
  (key, v) ∈ extra ->
  (key ∈ parameters ->
   exists message,
     init g t group n ms policy extra = Raise (Error "TypeError" [VStr message])) /\
  (forall self, init g t group n ms policy extra = Ok self ->
     ~ key ∈ parameters /\
     kwargs self = extra /\
     group_id (this self) = group /\
     (key ∈ ["auto_offset_reset"; "enable_auto_commit"] ->
      exists message,
        aenter self s0 = (Raise (Error "TypeError" [VStr message]), s0)) /\
     (key = "value_serializer" ->
      (exists exc, (aenter self s0).1 = Raise exc) /\
      producer (aenter self s0).2 = producer s0 /\
      exists l, calls (aenter self s0).2 = calls s0 ++ l /\
                forall args kw, ~ CNew AIOKafkaProducer args kw ∈ l)).
Proof.
  intros Hin. split.
  - intros Hkey. unfold init.
    destruct (filter (fun kv => kv.1 ∈ parameters) extra) as [| [key' v'] l] eqn:Hf.
    + assert (Hmem : (key, v) ∈ filter (fun kv => kv.1 ∈ parameters) extra)
        by (apply list_elem_of_filter; split; assumption).
      rewrite Hf in Hmem. apply elem_of_nil in Hmem. contradiction.
    + eexists. reflexivity.
  - intros self Hinit. destruct (init_ok _ _ _ _ _ _ _ _ Hinit) as (Hkw & Hgroup & Hall).
    split; [rewrite Forall_forall in Hall; apply (Hall _ Hin) |].
    split; [exact Hkw |]. split; [exact Hgroup |].
    rewrite <- Hkw in Hin. clear Hinit Hkw Hgroup Hall. split.
    + intros Hkey. rewrite aenter_unfold.
      destruct (keywords_repeated (class_name AIOKafkaConsumer)
                  [("auto_offset_reset", KwValue (VStr "earliest"));
                   ("group_id", KwValue (VStr (group_id (this self))));
                   ("enable_auto_commit", KwValue (VBool false))]
                  (kwargs self) key v Hin) as (message & ->).
      { apply elem_of_cons in Hkey as [-> | Hkey]; [left |].
        apply list_elem_of_singleton in Hkey as ->. do 2 right. left. }
      exists message. reflexivity.
    + intros ->. rewrite aenter_unfold.
      destruct (keywords_repeated (class_name AIOKafkaProducer)
                  [("value_serializer", KwFunction "serde.dumps")]
                  (kwargs self) "value_serializer" v Hin) as (message & ->);
        [left |].
      destruct (keywords _ _ (kwargs self)) as [kw |]; cbn zeta.
      2:{ split; [eauto |]. split; [reflexivity |].
          exists []. rewrite app_nil_r. split; [reflexivity |].
          intros args kw' H. apply elem_of_nil in H. contradiction. }
      destruct (client_new AIOKafkaConsumer _ kw (outside s0)) as [[cm |] w1];
        cbn [fst snd].
      2:{ split; [eauto |]. split; [reflexivity |].
          eexists. split; [reflexivity |].
          intros args kw' H. apply list_elem_of_singleton in H. discriminate. }
      destruct (client_aenter cm w1) as [[c |] w2]; cbn [fst snd];
        (split; [eauto |]; split; [reflexivity |];
         eexists; split; [rewrite <- app_assoc; reflexivity |];
         intros args kw' H;
         apply elem_of_cons in H as [H | H]; [discriminate |];
         apply list_elem_of_singleton in H; discriminate).
Qed.

End Clients.

End LifecycleSpec.

(** ** Tasks: [task], [call], [get_store] *)

Module TasksSpec.
Import Py Constants Orchestrator Tasks.

Section RunContext.
Variable Future : Type.
Variables CONFIG_KEY_CALL CONFIG_KEY_STORE : string.
Variable get_configurable : result (gmap string (entry Future)).

Lemma keywords_with_retry (kw : Keywords) (retry : obj) :
  (kw ∪ {[ "retry" := retry ]}) !! "func" = kw !! "func" /\
  (kw ∪ {[ "retry" := retry ]}) !! "retry" = Some (default retry (kw !! "retry")) /\
  delete "retry" (kw ∪ {[ "retry" := retry ]}) = delete "retry" kw.
Proof.
  split; [| split].
  - destruct (kw !! "func") as [v |] eqn:Hf.
    + apply lookup_union_Some_l. exact Hf.
    + apply lookup_union_None. split; [exact Hf |].
      apply lookup_singleton_ne. discriminate.
  - destruct (kw !! "retry") as [r |] eqn:Hr.
    + apply lookup_union_Some_l. exact Hr.
    + rewrite lookup_union_r by exact Hr. apply lookup_singleton_eq.
  - rewrite delete_union, delete_singleton_eq. apply (right_id_L ∅ (∪)).
Qed.

(** X16. A call of a decorated function hands to the implementation
    of [call] found in the configuration of the run: the function
    [_tick], the pair of the positional and the keyword arguments as
    they were given, and the retry policy of the decorator; and
    [_tick] applied to that pair is the decorated function applied to
    those arguments.  [task(func, retry=r)] and [task(retry=r)(func)]
    build the same object. *)
Theorem task_round_trip (conf : gmap string (entry Future))
    (impl : Tick -> AllArgs -> obj -> result Future)
    (retry : obj) (func : TaskFunction) (args : list obj) (kw : Keywords) :
  get_configurable = Ok conf ->
  conf !! CONFIG_KEY_CALL = Some (EImpl Future impl) ->
  kw !! "func" = None ->
  kw !! "retry" = None ->
  let t := decorator retry func in
  call_task Future CONFIG_KEY_CALL get_configurable t args kw =
    impl (task_tick t) (args, kw) retry /\
  run_tick (task_tick t) (args, kw) = tf_apply func args kw /\
  task (Some func) retry = inl t /\
  (exists d, task None retry = inr d /\ d func = t).
Proof.
  intros Hconf Himpl Hfunc Hretry t.
  destruct (keywords_with_retry kw retry) as (Hf & Hr & Hd).
  split; [| split; [reflexivity | split; [reflexivity | eexists; split; reflexivity]]].
  unfold call_task, apply_call. cbn [task_tick task_retry t decorator].
  rewrite Hf, Hfunc, Hr, Hd, Hretry. cbn [default].
  rewrite (delete_id _ _ Hretry). unfold call. rewrite Hconf, Himpl. reflexivity.
Qed.

(** X17. Two keywords never reach a decorated function.  A keyword
    [retry] given by the caller replaces the retry policy of the
    decorator and is removed from the keyword arguments handed on; a
    keyword [func] makes the call a [TypeError], raised before the
    configuration is read. *)
Theorem task_reserved_keywords (t : Task) (args : list obj) (kw : Keywords) :
  (forall r, kw !! "func" = None -> kw !! "retry" = Some r ->
     call_task Future CONFIG_KEY_CALL get_configurable t args kw =
       call Future CONFIG_KEY_CALL get_configurable (task_tick t) args r
         (delete "retry" kw) /\
     delete "retry" kw !! "retry" = None) /\
  (forall v, kw !! "func" = Some v ->
     exists message,
       call_task Future CONFIG_KEY_CALL get_configurable t args kw =
         Raise (Error "TypeError" [VStr message])).
Proof.
  destruct (keywords_with_retry kw (task_retry t)) as (Hf & Hr & Hd).
  split.
  - intros r Hfunc Hretry. split; [| apply lookup_delete_eq].
    unfold call_task, apply_call. rewrite Hf, Hfunc, Hr, Hd, Hretry. reflexivity.
  - intros v Hfunc. eexists. unfold call_task, apply_call. rewrite Hf, Hfunc.
    reflexivity.
Qed.

(** X18. Outside of a run that provides them, [call] and [get_store]
    fail: with the failure of [get_configurable] when it fails, and
    with the [KeyError] of the key when the configuration has no
    implementation of [call], or no store.  When the store is there,
    [get_store] returns it. *)
Theorem call_needs_run_context (t : Task) (args : list obj) (kw : Keywords) :
  kw !! "func" = None ->
  (forall exc, get_configurable = Raise exc ->
     call_task Future CONFIG_KEY_CALL get_configurable t args kw = Raise exc /\
     get_store Future CONFIG_KEY_STORE get_configurable = Raise exc) /\
  (forall conf, get_configurable = Ok conf ->
     (conf !! CONFIG_KEY_CALL = None ->
      call_task Future CONFIG_KEY_CALL get_configurable t args kw =
        Raise (KeyError CONFIG_KEY_CALL)) /\
     (conf !! CONFIG_KEY_STORE = None ->
      get_store Future CONFIG_KEY_STORE get_configurable =
        Raise (KeyError CONFIG_KEY_STORE)) /\
     (forall s, conf !! CONFIG_KEY_STORE = Some s ->
      get_store Future CONFIG_KEY_STORE get_configurable = Ok s)).
Proof.
  intros Hfunc.
  destruct (keywords_with_retry kw (task_retry t)) as (Hf & _ & _).
  unfold call_task, apply_call, call, get_store. rewrite Hf, Hfunc.
  split.
  - intros exc ->. split; reflexivity.
  - intros conf ->. repeat split.
    + intros ->. reflexivity.
    + intros ->. reflexivity.
    + intros s ->. reflexivity.
Qed.

End RunContext.

End TasksSpec.

(** ** The graph of [entrypoint] for a generator *)

Module GeneratorSpec.
Import Py Constants Func.

(** X19. For a generator function, synchronous or asynchronous, the
    graph of [entrypoint] streams in the mode [custom]: its node passes
    to the stream writer the chunks the function yields, in order,
    returns [None], and so writes [None] to END.  The checkpointer and
    the store are those given to [entrypoint]. *)
Theorem entrypoint_generator_function_graph
    (cp : option BaseCheckpointSaver) (st : option BaseStore)
    (func : FunctionType) (chunks : pyval -> list pyval) :
  fn_body func = GeneratorBody chunks \/ fn_body func = AsyncGenBody chunks ->
  let g := entrypoint cp st func in
  stream_mode g = SM_custom /\
  checkpointer g = cp /\
  store g = st /\
  size (nodes g) = 1 /\
  exists n,
    nodes g !! fn_name func = Some n /\
    forall x,
      ro_stream (pn_bound n x) = chunks x /\
      ro_return (pn_bound n x) = VNone /\
      node_writes n x = [(END, VNone)].
Proof.
  intros Hbody g. subst g. unfold entrypoint, isgeneratorfunction, isasyncgenfunction.
  destruct Hbody as [Hbody | Hbody]; rewrite Hbody; cbn [stream_mode checkpointer store nodes].
  - split; [reflexivity |]. split; [reflexivity |]. split; [reflexivity |].
    split; [apply map_size_singleton |].
    eexists. split; [apply lookup_singleton_eq |].
    intros x. unfold node_writes.
    cbn [pn_bound pn_writers get_runnable_for_func call_callable].
    rewrite Hbody. repeat split.
  - split; [reflexivity |]. split; [reflexivity |]. split; [reflexivity |].
    split; [apply map_size_singleton |].
    eexists. split; [apply lookup_singleton_eq |].
    intros x. unfold node_writes.
    cbn [pn_bound pn_writers get_runnable_for_func call_callable].
    rewrite Hbody. repeat split.
Qed.

End GeneratorSpec.

(** ** Runs with failures *)

Module FaultRuns.
Import Py Constants Orchestrator Orchestrator.Scenario OrchestratorSpec.
Import Outcomes Outcomes.Faults.

(** **** What [repr] gives *)

Example repr_of_failures :
  repr (Error "RuntimeError" []) = "RuntimeError()" /\
  repr (Error "RuntimeError" [VStr ""]) = "RuntimeError('')" /\
  repr (Error "ValueError" [VStr "it's"]) =
    "ValueError(" +:+ String double_quote "it's" +:+ String double_quote ")" /\
  repr (Error "ValueError" [VStr "bad"; VInt (-3); VNone]) =
    "ValueError('bad', -3, None)" /\
  repr (KeyError "input") = "KeyError('input')" /\
  repr ConsumerStoppedError = "ConsumerStoppedError()".
Proof. vm_compute. repeat split. Qed.

(** **** Attempts that fail *)

Example lossy_trace :
  events (attempt (E := faulty lossy []) orchestrator_default (wake "run") start) =
    [ELoopEnter (VStr "run") (thread_config "run"); ETick; EAwaitCheckpoint 0;
     ESend "executor" (sent "n1" "t1"); ESend "executor" (sent "n3" "t3");
     EAck "executor" (sent "n1" "t1");
     ELoopExit (Some broker_down)].
Proof. vm_compute. reflexivity. Qed.

Example paused_trace :
  events (each (E := faulty none []) orchestrator_retrying (wake "paused") start) =
    [EDispatch (wake "paused"); EAttempt (wake "paused");
     ELoopEnter (VStr "paused") (thread_config "paused"); ETick;
     ELoopExit (Some graph_interrupt)].
Proof. vm_compute. reflexivity. Qed.

Lemma malformed_message_is_routed_witness :
  missing_key headless = Some "input" /\
  res (harness (E := broker []) orchestrator_retrying headless start) =
    Raise (KeyError "input").
Proof.
  split; [reflexivity |].
  exact (proj1 (proj2 (AttemptSpec.malformed_message_is_routed (E := broker [])
                         orchestrator_retrying headless start "input" eq_refl))).
Defined.

Lemma attempt_with_statement_witness :
  mto_input (wake "paused") = Some (VStr "paused") /\
  mto_config (wake "paused") = Some (thread_config "paused") /\
  count is_loop_exit
    (events (attempt (E := faulty none []) orchestrator_default (wake "paused") start)) = 1.
Proof.
  split; [reflexivity |]. split; [reflexivity |].
  pose proof (AttemptSpec.attempt_with_statement (E := faulty none [])
                orchestrator_default (wake "paused") start
                (VStr "paused") (thread_config "paused") eq_refl eq_refl) as H.
  cbv zeta in H.
  change (loop_aenter (graph orchestrator_default) (VStr "paused")
            (ensure_config (thread_config "paused")) start)
    with (Ok (entered_loop "paused"), once) in H.
  cbv beta iota in H. exact (proj1 (proj2 H)).
Defined.

Lemma paused_entered :
  loop_entered (E := faulty none []) orchestrator_retrying (wake "paused") start
    (entered_loop "paused") once.
Proof.
  exists (VStr "paused"), (thread_config "paused").
  split; [reflexivity |]. split; reflexivity.
Defined.

Lemma swallowed_failure_counts_as_success_witness :
  loop_entered (E := faulty none []) orchestrator_retrying (wake "paused") start
    (entered_loop "paused") once /\
  res (each (E := faulty none []) orchestrator_retrying (wake "paused") start) = Ok tt /\
  count is_attempt
    (events (each (E := faulty none []) orchestrator_retrying (wake "paused") start)) = 1.
Proof.
  split; [exact paused_entered |].
  assert (Hbody : res (attempt_body (E := faulty none []) orchestrator_retrying
                         (entered_loop "paused") once) = Raise graph_interrupt)
    by (vm_compute; reflexivity).
  assert (Hexit : loop_aexit (Collaborators := faulty none []) (entered_loop "paused")
                    (Some graph_interrupt)
                    (world (attempt_body (E := faulty none []) orchestrator_retrying
                              (entered_loop "paused") once)) = (Ok true, once))
    by (vm_compute; reflexivity).
  destruct (AttemptSpec.swallowed_failure_counts_as_success (E := faulty none [])
              orchestrator_retrying (wake "paused") start (entered_loop "paused") once
              graph_interrupt once paused_entered Hbody Hexit)
    as (_ & Hres & Hcount & _).
  split; [exact Hres | exact Hcount].
Defined.

Lemma run_ticked_at :
  ticked_at (E := broker []) orchestrator_default (wake "run") start run_loop once.
Proof.
  exists (entered_loop "run"), once. split.
  - exists (VStr "run"), (thread_config "run").
    split; [reflexivity |]. split; reflexivity.
  - vm_compute. reflexivity.
Defined.

Lemma successful_attempt_trace_witness :
  ticked_at (E := broker []) orchestrator_default (wake "run") start run_loop once /\
  ELoopExit None ∈ run_trace /\
  count is_send run_trace = length (unscheduled run_loop).
Proof.
  split; [exact run_ticked_at |].
  assert (Hexit : ELoopExit None ∈ run_trace).
  { apply (list_elem_of_lookup_2 _ 9). vm_compute. reflexivity. }
  split; [exact Hexit |].
  destruct (AttemptSpec.successful_attempt_trace (E := broker []) orchestrator_default
              (wake "run") start run_loop once run_ticked_at Hexit)
    as (values & input & config & _ & _ & _ & _ & Hsend & _).
  exact Hsend.
Defined.

Example refused_trace :
  events (attempt (E := faulty refusing []) orchestrator_default (wake "run") start) =
    [ELoopEnter (VStr "run") (thread_config "run"); ETick; EAwaitCheckpoint 0;
     ESend "executor" (sent "n1" "t1"); ESend "executor" (sent "n3" "t3");
     ELoopExit (Some broker_down)].
Proof. vm_compute. reflexivity. Qed.

Lemma refused_ticked :
  ticked (E := faulty refusing []) orchestrator_default (wake "run") start run_loop.
Proof.
  exists (VStr "run"), (thread_config "run"), (entered_loop "run"), once, once.
  split; [reflexivity |]. split; [reflexivity |].
  split; [reflexivity | vm_compute; reflexivity].
Defined.

Lemma dispatch_phases_witness :
  let tr := events (attempt (E := faulty refusing []) orchestrator_default
                      (wake "run") start) in
  ticked (E := faulty refusing []) orchestrator_default (wake "run") start run_loop /\
  count is_put_writes tr <= count is_ack tr /\
  count is_ack tr <= count is_send tr /\
  count is_send tr = length (unscheduled run_loop).
Proof.
  intros tr. split; [exact refused_ticked |].
  destruct (AttemptSpec.dispatch_phases (E := faulty refusing []) orchestrator_default
              (wake "run") start run_loop refused_ticked)
    as (H1 & H2 & _ & H4 & _).
  split; [exact H1 |]. split; [exact H2 |].
  apply H4. vm_compute. lia.
Defined.

Lemma run_ticked :
  ticked (E := broker []) orchestrator_default (wake "run") start run_loop.
Proof.
  exists (VStr "run"), (thread_config "run"), (entered_loop "run"), once, once.
  split; [reflexivity |]. split; [reflexivity |].
  split; [reflexivity | vm_compute; reflexivity].
Defined.

Lemma scheduled_task_not_redispatched_witness :
  NoDup (map task_id (loop_tasks run_loop).*2) /\
  (task "n2" "t2" true).2 ∈ (loop_tasks run_loop).*2 /\
  forall writes, ~ EPutWrites "t2" writes ∈ run_trace.
Proof.
  assert (Hnodup : NoDup (map task_id (loop_tasks run_loop).*2)).
  { apply (bool_decide_unpack _). vm_compute. exact I. }
  assert (Hin : (task "n2" "t2" true).2 ∈ (loop_tasks run_loop).*2).
  { apply (list_elem_of_lookup_2 _ 1). reflexivity. }
  split; [exact Hnodup |]. split; [exact Hin |].
  exact (proj2 (AttemptSpec.scheduled_task_not_redispatched (E := broker [])
                  orchestrator_default (wake "run") start run_loop
                  (task "n2" "t2" true).2 run_ticked Hnodup Hin eq_refl)).
Defined.

Lemma durable_before_dispatch_witness :
  run_trace = take 3 run_trace ++ ESend "executor" (sent "n1" "t1") :: drop 4 run_trace /\
  exists loop w2,
    ticked_at (E := broker []) orchestrator_default (wake "run") start loop w2 /\
    ETick ∈ take 3 run_trace /\
    forall fut, loop_put_checkpoint_fut loop = Some fut ->
      EAwaitCheckpoint fut ∈ take 3 run_trace /\
      (future_wait (Collaborators := broker []) fut w2).1 = Ok tt.
Proof.
  assert (Hsplit : run_trace =
            take 3 run_trace ++ ESend "executor" (sent "n1" "t1") :: drop 4 run_trace)
    by (vm_compute; reflexivity).
  split; [exact Hsplit |].
  exact (AttemptSpec.durable_before_dispatch (E := broker []) orchestrator_default
           (wake "run") start (take 3 run_trace) (drop 4 run_trace)
           "executor" (sent "n1" "t1") Hsplit).
Defined.

Lemma unsaved_ticked_at :
  ticked_at (E := faulty checkpoint_lost []) orchestrator_default (wake "run") start
    run_loop once.
Proof.
  exists (entered_loop "run"), once. split.
  - exists (VStr "run"), (thread_config "run").
    split; [reflexivity |]. split; reflexivity.
  - vm_compute. reflexivity.
Defined.

Lemma checkpoint_failure_blocks_dispatch_witness :
  ticked_at (E := faulty checkpoint_lost []) orchestrator_default (wake "run") start
    run_loop once /\
  future_wait (Collaborators := faulty checkpoint_lost []) 0 once =
    (Raise broker_down, once) /\
  events (attempt (E := faulty checkpoint_lost []) orchestrator_default
            (wake "run") start) =
    [ELoopEnter (VStr "run") (thread_config "run"); ETick; EAwaitCheckpoint 0;
     ELoopExit (Some broker_down)].
Proof.
  split; [exact unsaved_ticked_at |]. split; [reflexivity |].
  destruct (AttemptSpec.checkpoint_failure_blocks_dispatch
              (E := faulty checkpoint_lost []) orchestrator_default (wake "run") start
              run_loop once 0 broker_down once unsaved_ticked_at eq_refl eq_refl)
    as (input & config & loop0 & Hi & Hc & Hev & _).
  injection Hi as <-. injection Hc as <-. exact Hev.
Defined.

Lemma bare_ticked_at :
  ticked_at (E := faulty none []) orchestrator_default (wake "bare") start bare_loop once.
Proof.
  exists (entered_loop "bare"), once. split.
  - exists (VStr "bare"), (thread_config "bare").
    split; [reflexivity |]. split; reflexivity.
  - vm_compute. reflexivity.
Defined.

Lemma unconfigured_checkpoint_fails_witness :
  ticked_at (E := faulty none []) orchestrator_default (wake "bare") start bare_loop once /\
  unscheduled bare_loop <> [] /\
  configurable (loop_checkpoint_config bare_loop) = None /\
  count is_send
    (events (attempt (E := faulty none []) orchestrator_default (wake "bare") start)) = 0.
Proof.
  assert (Hnew : unscheduled bare_loop <> []) by (vm_compute; discriminate).
  split; [exact bare_ticked_at |]. split; [exact Hnew |]. split; [reflexivity |].
  destruct (AttemptSpec.unconfigured_checkpoint_fails (E := faulty none [])
              orchestrator_default (wake "bare") start bare_loop once
              bare_ticked_at Hnew eq_refl eq_refl)
    as (input & config & _ & _ & _ & Hsend & _).
  exact Hsend.
Defined.

(** **** Iterations that fail *)

Example error_topic_down_trace :
  events (anext (E := faulty error_topic_fails (batch_of ["absent"]))
            orchestrator_default start) =
    [EGetMany 1000 10; EDispatch (wake "absent"); EAttempt (wake "absent");
     ELoopEnter (VStr "absent") (thread_config "absent");
     ESendAndWait "error"
       (ToError {| em_topic := "orchestrator"; em_msg := wake "absent";
                   em_error := "RuntimeError('no such run')" |})].
Proof. vm_compute. reflexivity. Qed.

Example error_topic_down_others_run :
  let tr := events (anext (E := faulty error_topic_fails (batch_of ["absent"; "run"]))
                      orchestrator_default start) in
  res (anext (E := faulty error_topic_fails (batch_of ["absent"; "run"]))
         orchestrator_default start) = Raise broker_down /\
  select is_dispatch tr = [EDispatch (wake "absent"); EDispatch (wake "run")] /\
  select is_send tr =
    [ESend "executor" (sent "n1" "t1"); ESend "executor" (sent "n3" "t3")] /\
  count is_error_record tr = 1 /\
  count is_commit tr = 0.
Proof. vm_compute. repeat split. Qed.

Lemma iteration_failure_causes_witness :
  let tr := events (anext (E := faulty error_topic_fails (batch_of ["absent"; "run"]))
                      orchestrator_default start) in
  res (anext (E := faulty error_topic_fails (batch_of ["absent"; "run"]))
         orchestrator_default start) = Raise broker_down /\
  exists msgs,
    res (next_batch (E := faulty error_topic_fails (batch_of ["absent"; "run"]))
           orchestrator_default start) = Ok msgs /\
    forall msg, msg ∈ msgs -> EDispatch msg ∈ tr.
Proof.
  intros tr.
  assert (Hres : res (anext (E := faulty error_topic_fails (batch_of ["absent"; "run"]))
                        orchestrator_default start) = Raise broker_down)
    by (vm_compute; reflexivity).
  split; [exact Hres |].
  destruct (IterationSpec.iteration_failure_causes
              (E := faulty error_topic_fails (batch_of ["absent"; "run"]))
              orchestrator_default start broker_down Hres)
    as [[Hnb _] | (msgs & Hnb & Hall & _)].
  - vm_compute in Hnb. discriminate.
  - exists msgs. split; [exact Hnb | exact Hall].
Defined.

Lemma getmany_failure_ends_iteration_witness :
  consumer_getmany (Collaborators := faulty stopped []) (batch_max_ms orchestrator_default)
    (batch_max_n orchestrator_default) start = (Raise ConsumerStoppedError, start) /\
  res (anext (E := faulty stopped []) orchestrator_default start) =
    Raise StopAsyncIteration.
Proof.
  split; [reflexivity |].
  exact (proj1 (proj2 (proj2 (IterationSpec.getmany_failure_ends_iteration
                                (E := faulty stopped []) orchestrator_default start
                                ConsumerStoppedError start eq_refl))) eq_refl).
Defined.

Lemma commit_failure_propagates_witness :
  res (next_batch (E := faulty commit_fails (batch_of ["quiet"]))
         orchestrator_default start) = Ok [wake "quiet"] /\
  res (anext (E := faulty commit_fails (batch_of ["quiet"]))
         orchestrator_default start) = Raise ConsumerStoppedError.
Proof.
  assert (Hnb : res (next_batch (E := faulty commit_fails (batch_of ["quiet"]))
                       orchestrator_default start) = Ok [wake "quiet"])
    by (vm_compute; reflexivity).
  split; [exact Hnb |].
  assert (Hg : res (gather (map (each (E := faulty commit_fails (batch_of ["quiet"]))
                                   orchestrator_default) [wake "quiet"])
                      (world (next_batch (E := faulty commit_fails (batch_of ["quiet"]))
                                orchestrator_default start))) = Ok [tt])
    by (vm_compute; reflexivity).
  exact (proj1 (IterationSpec.commit_failure_propagates
                  (E := faulty commit_fails (batch_of ["quiet"]))
                  orchestrator_default start [wake "quiet"] _ _
                  ConsumerStoppedError once Hnb
                  (gather_each_processed _ _ _ _ Hg) eq_refl)).
Defined.

End FaultRuns.

(** ** Runs of the lifecycle, of tasks and of a generator *)

Module StageRuns.
Import Py Constants Orchestrator Lifecycle Lifecycle.Stage.

Example started :
  aenter (K := clients true true) plain (fresh []) =
    (Ok tt,
     {| stack := [AIOKafkaProducer; AIOKafkaConsumer];
        consumer := Some AIOKafkaConsumer;
        producer := Some AIOKafkaProducer;
        outside := [AIOKafkaProducer; AIOKafkaConsumer];
        calls :=
          [CNew AIOKafkaConsumer ["orchestrator"]
             [("auto_offset_reset", KwValue (VStr "earliest"));
              ("group_id", KwValue (VStr "workers"));
              ("enable_auto_commit", KwValue (VBool false));
              ("bootstrap_servers", KwValue (VStr "localhost:9092"))];
           CEnter AIOKafkaConsumer;
           CNew AIOKafkaProducer []
             [("value_serializer", KwFunction "serde.dumps");
              ("bootstrap_servers", KwValue (VStr "localhost:9092"))];
           CEnter AIOKafkaProducer] |}).
Proof. vm_compute. reflexivity. Qed.

Lemma enter_then_exit_witness :
  let s1 := (aenter (K := clients true false) plain (fresh [])).2 in
  aenter (K := clients true false) plain (fresh []) = (Ok tt, s1) /\
  (aexit (K := clients true false) None s1).1 = Raise stop_failed /\
  outside (aexit (K := clients true false) None s1).2 = [AIOKafkaProducer].
Proof.
  intros s1.
  assert (Henter : aenter (K := clients true false) plain (fresh []) = (Ok tt, s1))
    by (vm_compute; reflexivity).
  split; [exact Henter |].
  destruct (LifecycleSpec.enter_then_exit (K := clients true false) plain (fresh []) s1
              None eq_refl Henter)
    as (cm & cm' & c & p & kw & kw' & _ & _ & Hst & _ & _ & _ & H).
  vm_compute in Hst. injection Hst as <- <-.
  cbv zeta in H. destruct H as (_ & _ & _ & H & _).
  destruct (H stop_failed [AIOKafkaProducer] eq_refl eq_refl) as (_ & Hres & Hw).
  split; [exact Hres | exact Hw].
Defined.

Lemma failed_enter_stops_nothing_witness :
  let s1 := (aenter (K := clients false true) plain (fresh [])).2 in
  aenter (K := clients false true) plain (fresh []) = (Raise unreachable, s1) /\
  producer s1 = producer (W := World) (C := ClientClass) (fresh []) /\
  outside s1 = [AIOKafkaConsumer].
Proof.
  intros s1.
  assert (Henter : aenter (K := clients false true) plain (fresh []) =
                   (Raise unreachable, s1))
    by (vm_compute; reflexivity).
  split; [exact Henter |].
  split; [| vm_compute; reflexivity].
  exact (proj1 (LifecycleSpec.failed_enter_stops_nothing (K := clients false true)
                  plain (fresh []) s1 unreachable Henter)).
Defined.

Example constructed :
  init (entrypoint None None double) topics0 "workers" 10 1000 None [servers] =
    Ok plain.
Proof. vm_compute. reflexivity. Qed.

Example group_given_twice :
  init (entrypoint None None double) topics0 "workers" 10 1000 None
    [servers; ("group_id", KwValue (VStr "others"))] =
  Raise (Error "TypeError"
           [VStr "KafkaOrchestrator.__init__() got multiple values for argument 'group_id'"]).
Proof. vm_compute. reflexivity. Qed.

Lemma reserved_keyword_rejected_witness :
  ("enable_auto_commit", KwValue (VBool true)) ∈ recommitting /\
  init (entrypoint None None double) topics0 "workers" 10 1000 None recommitting =
    Ok (instance_with recommitting) /\
  exists message,
    aenter (K := clients true true) (instance_with recommitting) (fresh []) =
      (Raise (Error "TypeError" [VStr message]), fresh []).
Proof.
  assert (Hin : ("enable_auto_commit", KwValue (VBool true)) ∈ recommitting).
  { apply (list_elem_of_lookup_2 _ 1). reflexivity. }
  assert (Hinit : init (entrypoint None None double) topics0 "workers" 10 1000 None
                    recommitting = Ok (instance_with recommitting))
    by (vm_compute; reflexivity).
  split; [exact Hin |]. split; [exact Hinit |].
  destruct (proj2 (LifecycleSpec.reserved_keyword_rejected (K := clients true true)
                     (entrypoint None None double) topics0 "workers" 10 1000 None
                     recommitting (fresh []) "enable_auto_commit" (KwValue (VBool true))
                     Hin) _ Hinit)
    as (_ & _ & _ & H & _).
  apply H. apply (list_elem_of_lookup_2 _ 1). reflexivity.
Defined.

Example reserialized_fails :
  aenter (K := clients true true) reserialized (fresh []) =
    (Raise (Error "TypeError"
              [VStr "AIOKafkaConsumer.__init__() got an unexpected keyword argument 'value_serializer'"]),
     {| stack := []; consumer := None; producer := None; outside := [];
        calls :=
          [CNew AIOKafkaConsumer ["orchestrator"]
             [("auto_offset_reset", KwValue (VStr "earliest"));
              ("group_id", KwValue (VStr "workers"));
              ("enable_auto_commit", KwValue (VBool false));
              ("value_serializer", KwFunction "json.dumps")]] |}).
Proof. vm_compute. reflexivity. Qed.

End StageRuns.

Module DeskRuns.
Import Py Constants Orchestrator Tasks Tasks.Desk.

Lemma task_round_trip_witness :
  let t := decorator (OPolicy twice) add in
  in_run = Ok {[ "call" := EImpl Submission submit;
                 "store" := EStore Submission "memory" ]} /\
  call_task Submission "call" in_run t [OValue (VInt 2)] {[ "b" := OValue (VInt 3) ]} =
    submit (task_tick t) ([OValue (VInt 2)], {[ "b" := OValue (VInt 3) ]}) (OPolicy twice).
Proof.
  intros t. split; [reflexivity |].
  refine (proj1 (TasksSpec.task_round_trip Submission "call" in_run _ submit
                   (OPolicy twice) add [OValue (VInt 2)] {[ "b" := OValue (VInt 3) ]}
                   eq_refl _ _ _)); vm_compute; reflexivity.
Defined.

Example add_submitted :
  call_task Submission "call" in_run (decorator (OPolicy twice) add)
    [OValue (VInt 2)] {[ "b" := OValue (VInt 3) ]} =
  Ok {| sub_name := "add";
        sub_allargs := ([OValue (VInt 2)], {[ "b" := OValue (VInt 3) ]});
        sub_retry := OPolicy twice;
        sub_result := Ok (OValue (VInt 5)) |}.
Proof. vm_compute. reflexivity. Qed.

Lemma task_reserved_keywords_witness :
  let t := decorator (OValue VNone) add in
  let kw : gmap string obj := {[ "retry" := OPolicy twice ]} in
  kw !! "retry" = Some (OPolicy twice) /\
  call_task Submission "call" in_run t [OValue (VInt 2)] kw =
    call Submission "call" in_run (task_tick t) [OValue (VInt 2)] (OPolicy twice)
      (delete "retry" kw).
Proof.
  intros t kw.
  assert (Hretry : kw !! "retry" = Some (OPolicy twice)) by (vm_compute; reflexivity).
  assert (Hfunc : kw !! "func" = None) by (vm_compute; reflexivity).
  split; [exact Hretry |].
  exact (proj1 (proj1 (TasksSpec.task_reserved_keywords Submission "call" in_run
                         t [OValue (VInt 2)] kw) (OPolicy twice) Hfunc Hretry)).
Defined.

Lemma call_needs_run_context_witness :
  (∅ : gmap string obj) !! "func" = None /\
  call_task Submission "call" bare_run (decorator (OValue VNone) add)
    [OValue (VInt 2)] ∅ = Raise (KeyError "call").
Proof.
  assert (Hfunc : (∅ : gmap string obj) !! "func" = None) by reflexivity.
  split; [exact Hfunc |].
  refine (proj1 (proj2 (TasksSpec.call_needs_run_context Submission "call" "store"
                          bare_run (decorator (OValue VNone) add) [OValue (VInt 2)] ∅
                          Hfunc) ∅ eq_refl) _).
  vm_compute. reflexivity.
Defined.

End DeskRuns.

Module GeneratorRuns.
Import Py Constants Func Generators.

Lemma entrypoint_generator_function_graph_witness :
  isgeneratorfunction countdown = true /\
  stream_mode (entrypoint None None countdown) = SM_custom.
Proof.
  split; [reflexivity |].
  refine (proj1 (GeneratorSpec.entrypoint_generator_function_graph None None countdown
                   _ (or_introl eq_refl))).
Defined.

End GeneratorRuns.
